(** * mini-framework: the virtual-tree reconciliation engine

    A shallow embedding of [src/framework/dom.js], [src/framework/events.js],
    and of the matching and dispatching of [src/framework/router.js] and the
    stores of [src/framework/state.js], followed by their properties.

    Modelling conventions.
    - JavaScript numbers are IEEE-754 values without payload ([spec_float]):
      [NaN], both zeros, infinities and finite values. Strict equality on
      numbers is [SFeqb] ([NaN !== NaN], [+0 === -0]).
    - Functions and plain objects used as attribute values carry a reference
      and are compared by it, as [===] does.
    - A JavaScript object used as a map (an attribute map, a style mapping,
      the per-element events object, the routes) is a plain object: the
      list of its own properties in [Object.entries] order, keys assumed
      unique, with [Object.prototype] behind it. A read or an [in] test
      that finds no own property goes on to [Object.prototype]
      ([obj_read], [obj_in], [obj_slot]); an assignment places a new key
      where the order of own keys has it, array indices first ([obj_put]).
    - The two [WeakMap]s are keyed by object identity. [virtualTreeCache] is a
      finite map from container identities; the [eventRegistry] entry of an
      element travels with the element (field [registry]).
    - The display tree is a tree value: every node created by the engine is
      attached at most once, so mutation in place is rendered by returning
      the updated node. Tag names, attribute names and selectors are taken
      to be syntactically valid ([renderable] says which descriptions are
      certainly so), so the exceptions left are those raised when a text
      node is used as an element and when a handler is bound under the
      name of a member of [Object.prototype]. *)

From Stdlib Require Import ZArith List String Ascii Bool Lia SpecFloat.
From stdpp Require Import base option list strings gmap.

Set Warnings "-register-all".

Local Open Scope string_scope.
Local Open Scope list_scope.

(* ===================================================================== *)
(** * JavaScript values *)
(* ===================================================================== *)

Module JS.

(** Primitive values the engine meets. *)
Inductive prim :=
| PUndefined
| PNull
| PBool (b : bool)
| PNum (x : spec_float)
| PStr (s : string).

(** Attribute values: a primitive, a function, or a nested (style)
    mapping from names to primitives. *)
Inductive jsval :=
| JPrim (p : prim)
| JFun (ref : nat)
| JObj (ref : nat) (props : list (string * prim)).

Abbreviation undefined := (JPrim PUndefined).

(** The results of [typeof]. *)
Inductive jstype :=
| TUndefined | TObject | TBoolean | TNumber | TString | TFunction.

Definition jstype_eqb (a b : jstype) : bool :=
  match a, b with
  | TUndefined, TUndefined | TObject, TObject | TBoolean, TBoolean
  | TNumber, TNumber | TString, TString | TFunction, TFunction => true
  | _, _ => false
  end.

Definition typeof_prim (p : prim) : jstype :=
  match p with
  | PUndefined => TUndefined
  | PNull => TObject
  | PBool _ => TBoolean
  | PNum _ => TNumber
  | PStr _ => TString
  end.

Definition typeof (v : jsval) : jstype :=
  match v with
  | JPrim p => typeof_prim p
  | JFun _ => TFunction
  | JObj _ _ => TObject
  end.

(** [ToBoolean]: what [!v] negates. *)
Definition truthy_num (x : spec_float) : bool :=
  match x with
  | S754_zero _ | S754_nan => false
  | _ => true
  end.

Definition truthy_prim (p : prim) : bool :=
  match p with
  | PUndefined | PNull => false
  | PBool b => b
  | PNum x => truthy_num x
  | PStr s => negb (String.eqb s "")
  end.

(** [a === b] on primitives. *)
Definition strict_eq_prim (a b : prim) : bool :=
  match a, b with
  | PUndefined, PUndefined => true
  | PNull, PNull => true
  | PBool x, PBool y => Bool.eqb x y
  | PNum x, PNum y => SFeqb x y
  | PStr x, PStr y => String.eqb x y
  | _, _ => false
  end.

(** [a === b]: objects and functions by reference. *)
Definition strict_eq (a b : jsval) : bool :=
  match a, b with
  | JPrim p, JPrim q => strict_eq_prim p q
  | JFun f, JFun g => Nat.eqb f g
  | JObj r _, JObj r' _ => Nat.eqb r r'
  | _, _ => false
  end.

(** ** Property lists: own properties in order *)

Section Obj.
Context {V : Type}.

(** [Object.hasOwn(o, k)] *)
Fixpoint obj_has (k : string) (o : list (string * V)) : bool :=
  match o with
  | [] => false
  | (k', _) :: o' => if String.eqb k' k then true else obj_has k o'
  end.

(** The own property [k] of [o], [None] when [o] has none. *)
Fixpoint obj_get (k : string) (o : list (string * V)) : option V :=
  match o with
  | [] => None
  | (k', v) :: o' => if String.eqb k' k then Some v else obj_get k o'
  end.

(** Writing [k] in a list kept in insertion order (the attributes and the
    live properties of a display node), and writing a key the list already
    has: an existing key keeps its place, a new one goes last. *)
Fixpoint obj_set (k : string) (v : V) (o : list (string * V))
  : list (string * V) :=
  match o with
  | [] => [(k, v)]
  | (k', v') :: o' =>
      if String.eqb k' k then (k', v) :: o' else (k', v') :: obj_set k v o'
  end.

(** [delete o[k]] *)
Fixpoint obj_delete (k : string) (o : list (string * V))
  : list (string * V) :=
  match o with
  | [] => []
  | (k', v') :: o' =>
      if String.eqb k' k then o' else (k', v') :: obj_delete k o'
  end.

(** [Object.keys(o)] *)
Definition obj_keys (o : list (string * V)) : list string := map fst o.

(** [Object.assign(target, source)] on a list kept in insertion order. *)
Definition obj_assign (target source : list (string * V))
  : list (string * V) :=
  fold_left (fun t kv => obj_set (fst kv) (snd kv) t) source target.
End Obj.

(** ** Plain objects: what [Object.prototype] adds *)

(** The members every plain object inherits from [Object.prototype], each
    function under a reference of its own; [__proto__] is an accessor, and
    reading it gives the prototype object, which has no enumerable
    property. *)
Definition Object_prototype : list (string * jsval) :=
  [("constructor", JFun 0); ("__defineGetter__", JFun 1);
   ("__defineSetter__", JFun 2); ("hasOwnProperty", JFun 3);
   ("__lookupGetter__", JFun 4); ("__lookupSetter__", JFun 5);
   ("isPrototypeOf", JFun 6); ("propertyIsEnumerable", JFun 7);
   ("toString", JFun 8); ("valueOf", JFun 9); ("toLocaleString", JFun 10);
   ("__proto__", JObj 0 [])].

(** [k] is the name of a member of [Object.prototype]. *)
Definition inherited (k : string) : bool := obj_has k Object_prototype.

(** [o[k]] read as a value: an own property, else the member of
    [Object.prototype] of that name, else [undefined]. *)
Definition obj_read (k : string) (o : list (string * jsval)) : jsval :=
  match obj_get k o with
  | Some v => v
  | None =>
      match obj_get k Object_prototype with
      | Some m => m
      | None => undefined
      end
  end.

(** What [o[k]] finds in a plain object whose own values are of type [V]. *)
Inductive slot (V : Type) :=
| Own (v : V)
| Inherited
| Missing.
Arguments Own {V} v.
Arguments Inherited {V}.
Arguments Missing {V}.

(** A key that is an array index: the decimal digits, without a leading
    zero, of a number below [2^32 - 1]. *)
Definition digit_of (c : ascii) : option N :=
  let n := N_of_ascii c in
  if (N.leb 48 n && N.leb n 57)%bool then Some (n - 48)%N else None.

Fixpoint decimal (s : string) (acc : N) : option N :=
  match s with
  | EmptyString => Some acc
  | String c s' =>
      match digit_of c with
      | Some d => decimal s' (acc * 10 + d)%N
      | None => None
      end
  end.

Definition array_index (k : string) : option N :=
  match k with
  | EmptyString => None
  | String c rest =>
      if (Ascii.eqb c "0" && negb (String.eqb rest ""))%bool then None
      else
        match decimal k 0 with
        | Some n => if N.ltb n 4294967295 then Some n else None
        | None => None
        end
  end.

Section PlainObj.
Context {V : Type}.

(** [o[k]] *)
Definition obj_slot (k : string) (o : list (string * V)) : slot V :=
  match obj_get k o with
  | Some v => Own v
  | None => if inherited k then Inherited else Missing
  end.

(** [k in o] *)
Definition obj_in (k : string) (o : list (string * V)) : bool :=
  obj_has k o || inherited k.

(** Where a new own key that is the array index [n] goes: after the array
    indices below it, before every other key. *)
Fixpoint insert_index (n : N) (k : string) (v : V) (o : list (string * V))
  : list (string * V) :=
  match o with
  | [] => [(k, v)]
  | (k', v') :: o' =>
      match array_index k' with
      | Some n' =>
          if N.ltb n' n then (k', v') :: insert_index n k v o'
          else (k, v) :: o
      | None => (k, v) :: o
      end
  end.

(** Defining the own property [k] of a plain object, as an object literal
    and a spread do: an existing key keeps its place; a new array index
    goes among the array indices, in ascending order; any other new key
    goes last. *)
Definition obj_define (k : string) (v : V) (o : list (string * V))
  : list (string * V) :=
  if obj_has k o then obj_set k v o
  else
    match array_index k with
    | Some n => insert_index n k v o
    | None => o ++ [(k, v)]
    end.

(** [o[k] = v] on a plain object. The key [__proto__], when [o] does not
    own it, is the accessor of [Object.prototype]: the assignment defines
    no property (given an object it replaces the prototype, which a list of
    own properties does not show). *)
Definition obj_put (k : string) (v : V) (o : list (string * V))
  : list (string * V) :=
  if negb (obj_has k o) && String.eqb k "__proto__" then o
  else obj_define k v o.

(** [{ ...target, ...source }] onto [target]: every own property of
    [source] is defined on it, in the order of [source]. *)
Definition obj_spread (target source : list (string * V))
  : list (string * V) :=
  fold_left (fun t kv => obj_define (fst kv) (snd kv) t) source target.

End PlainObj.

(** ** The string operations of the attribute-binding policy *)

(** [s.startsWith(p)] *)
Definition startsWith (p s : string) : bool := String.prefix p s.

(** [s.slice(n)] *)
Fixpoint slice (n : nat) (s : string) : string :=
  match n, s with
  | O, _ => s
  | S _, EmptyString => EmptyString
  | S n', String _ s' => slice n' s'
  end.

Definition lower_ascii (c : ascii) : ascii :=
  let n := nat_of_ascii c in
  if andb (Nat.leb 65 n) (Nat.leb n 90) then ascii_of_nat (n + 32) else c.

(** [s.toLowerCase()] on the ASCII range. *)
Fixpoint toLowerCase (s : string) : string :=
  match s with
  | EmptyString => EmptyString
  | String c s' => String (lower_ascii c) (toLowerCase s')
  end.

End JS.
Import JS.

(* ===================================================================== *)
(** * The display tree (the document object model the engine renders to) *)
(* ===================================================================== *)

Module Display.

(** A string held by the display tree: the result of [String(v)]. The
    decimal rendering of a finite number and the source text of a function
    are kept symbolic. *)
Inductive domstr :=
| Lit (s : string)
| NumberToString (x : spec_float)
| FunctionToString (ref : nat).

Definition String_prim (p : prim) : domstr :=
  match p with
  | PUndefined => Lit "undefined"
  | PNull => Lit "null"
  | PBool true => Lit "true"
  | PBool false => Lit "false"
  | PNum S754_nan => Lit "NaN"
  | PNum (S754_zero _) => Lit "0"
  | PNum (S754_infinity false) => Lit "Infinity"
  | PNum (S754_infinity true) => Lit "-Infinity"
  | PNum x => NumberToString x
  | PStr s => Lit s
  end.

(** [String(v)] *)
Definition String_ (v : jsval) : domstr :=
  match v with
  | JPrim p => String_prim p
  | JFun f => FunctionToString f
  | JObj _ _ => Lit "[object Object]"
  end.

(** The listener that [bindEvent] installs as [element.on<event>]:
    [(e) => events[event].forEach(fn => fn(e))], closed over the element's
    events object. *)
Inductive listener :=
| DispatchAll (event : string).

(** The state of one element node, children apart. *)
Record Element := mkElement {
  tagName : string;
  (** set by [setAttribute], cleared by [removeAttribute] *)
  attributes : list (string * domstr);
  (** live properties assigned as [element[key] = value] *)
  props : list (string * jsval);
  (** [element.style] *)
  style : list (string * prim);
  (** the element's entry of [eventRegistry]: event name to handlers *)
  registry : option (list (string * list nat));
  (** the [on<event>] properties holding a listener *)
  listeners : list (string * listener)
}.

(** [document.createElement(tag)] *)
Definition document_createElement (tag : string) : Element :=
  mkElement tag [] [] [] None [].

Definition setAttribute (key : string) (value : jsval) (e : Element) : Element :=
  mkElement (tagName e) (obj_set key (String_ value) (attributes e))
            (props e) (style e) (registry e) (listeners e).

Definition removeAttribute (key : string) (e : Element) : Element :=
  mkElement (tagName e) (obj_delete key (attributes e))
            (props e) (style e) (registry e) (listeners e).

(** [element[key] = value] *)
Definition setProperty (key : string) (value : jsval) (e : Element) : Element :=
  mkElement (tagName e) (attributes e) (obj_set key value (props e))
            (style e) (registry e) (listeners e).

(** [Object.assign(element.style, value)]; a source that is not an object
    has no own enumerable properties to copy. *)
Definition assignStyle (value : jsval) (e : Element) : Element :=
  match value with
  | JObj _ ps =>
      mkElement (tagName e) (attributes e) (props e)
                (obj_assign (style e) ps) (registry e) (listeners e)
  | _ => e
  end.

(** A display node: character data, or an element with its child nodes. *)
Inductive dnode :=
| DText (data : domstr)
| DElement (e : Element) (children : list dnode).

(** [node.childNodes] *)
Definition childNodes (n : dnode) : list dnode :=
  match n with
  | DText _ => []
  | DElement _ cs => cs
  end.

(** Exceptions a display-tree operation can raise. *)
Inductive exn :=
| TypeError (what : string)
| HierarchyRequestError.

(** The result of running a command on a mutable state: the state it left,
    and the exception if it was aborted by one. *)
Inductive outcome (S : Type) :=
| Ok (s : S)
| Throw (e : exn) (s : S).
Arguments Ok {S} s.
Arguments Throw {S} e s.

Definition bind {S : Type} (m : outcome S) (k : S -> outcome S) : outcome S :=
  match m with
  | Ok s => k s
  | Throw e s => Throw e s
  end.

(** Run the rest on another state, keeping the exception. *)
Definition lift {S T : Type} (f : S -> T) (m : outcome S) : outcome T :=
  match m with
  | Ok s => Ok (f s)
  | Throw e s => Throw e (f s)
  end.

(** The state a command left, whether it returned or threw. *)
Definition state_of {S : Type} (m : outcome S) : S :=
  match m with
  | Ok s => s
  | Throw _ s => s
  end.

(** [parent.appendChild(child)]: a text node takes no children. *)
Definition appendChild (child : dnode) (parent : dnode) : outcome dnode :=
  match parent with
  | DElement e cs => Ok (DElement e (cs ++ [child]))
  | DText _ => Throw HierarchyRequestError parent
  end.

(** [parent.removeChild(parent.childNodes[index])] *)
Definition removeChildAt (index : nat) (parent : dnode) : dnode :=
  match parent with
  | DElement e cs => DElement e (delete index cs)
  | DText _ => parent
  end.

(** [parent.replaceChild(newChild, parent.childNodes[index])], also used to
    write back a child that was updated in place. *)
Definition replaceChildAt (index : nat) (newChild : dnode) (parent : dnode)
  : dnode :=
  match parent with
  | DElement e cs => DElement e (<[index := newChild]> cs)
  | DText _ => parent
  end.

(** [container.innerHTML = ''] *)
Definition clearChildren (n : dnode) : dnode :=
  match n with
  | DElement e _ => DElement e []
  | DText _ => n
  end.

(** ** Operations on a display node that may turn out to be a text node

    The patcher calls these on [parent.childNodes[index]], whatever it is.
    A text node has no [setAttribute], [removeAttribute] or [style]; a
    property written on it is a plain expando and shows nowhere. *)

Definition node_setAttribute (key : string) (value : jsval) (n : dnode)
  : outcome dnode :=
  match n with
  | DElement e cs => Ok (DElement (setAttribute key value e) cs)
  | DText _ => Throw (TypeError "element.setAttribute is not a function") n
  end.

Definition node_removeAttribute (key : string) (n : dnode) : outcome dnode :=
  match n with
  | DElement e cs => Ok (DElement (removeAttribute key e) cs)
  | DText _ => Throw (TypeError "element.removeAttribute is not a function") n
  end.

Definition node_setProperty (key : string) (value : jsval) (n : dnode)
  : outcome dnode :=
  match n with
  | DElement e cs => Ok (DElement (setProperty key value e) cs)
  | DText _ => Ok n
  end.

Definition node_assignStyle (value : jsval) (n : dnode) : outcome dnode :=
  match n with
  | DElement e cs => Ok (DElement (assignStyle value e) cs)
  | DText _ => Throw (TypeError "Cannot convert undefined or null to object") n
  end.

End Display.
Import Display.

Notation "m >>= k" := (bind m k) (at level 58, left associativity).

(* ===================================================================== *)
(** * events.js: binding handlers to display nodes *)
(* ===================================================================== *)

Module Events.

(** [bindEvent(element, event, handler)]. The events object is a plain
    object: for an event name that it does not own and that names a member
    of [Object.prototype], [events[event]] is that member, which is truthy
    and has no [push]. *)
Definition bindEvent (el : Element) (event : string) (handler : nat)
  : outcome Element :=
  (* const events = eventRegistry.get(element) || {};
     if (!eventRegistry.has(element)) eventRegistry.set(element, events); *)
  let events := match registry el with Some evs => evs | None => [] end in
  (* if (!events[event]) { events[event] = []; element[`on${event}`] = ... } *)
  let '(events, ls) :=
    match obj_slot event events with
    | Missing => (obj_put event [] events,
                  obj_set ("on" ++ event) (DispatchAll event) (listeners el))
    | Own _ | Inherited => (events, listeners el)
    end in
  (* events[event].push(handler); *)
  match obj_slot event events with
  | Own handlers =>
      Ok (mkElement (tagName el) (attributes el) (props el) (style el)
                    (Some (obj_set event (handlers ++ [handler]) events)) ls)
  | Inherited =>
      Throw (TypeError "events[event].push is not a function")
            (mkElement (tagName el) (attributes el) (props el) (style el)
                       (Some events) ls)
  | Missing =>
      Throw (TypeError "Cannot read properties of undefined")
            (mkElement (tagName el) (attributes el) (props el) (style el)
                       (Some events) ls)
  end.

(** What the listener does when called: every handler of its event, in
    the order of the array. The result is the sequence of handlers called. *)
Definition run_listener (l : listener) (el : Element) : list nat :=
  match l with
  | DispatchAll event =>
      match registry el with
      | Some events =>
          match obj_get event events with Some hs => hs | None => [] end
      | None => []
      end
  end.

(** [events[event]] of the element's registry entry, empty when missing. *)
Definition handlers_of (el : Element) (event : string) : list nat :=
  match registry el ≫= obj_get event with
  | Some hs => hs
  | None => []
  end.

(** One dispatch of [event] on the element: the display tree calls the
    element's [on<event>] property when it holds a listener. *)
Definition dispatch (el : Element) (event : string) : list nat :=
  match obj_get ("on" ++ event) (listeners el) with
  | Some l => run_listener l el
  | None => []
  end.

(** The state [bindEvent] keeps: an [on<event>] property that is set holds
    the listener of that very event, and it is set exactly when the event
    has a handler array. *)
Definition registry_listening (el : Element) : Prop :=
  forall event,
    match obj_get ("on" ++ event) (listeners el) with
    | Some l =>
        l = DispatchAll event
        /\ exists hs, (registry el ≫= obj_get event) = Some hs
    | None => (registry el ≫= obj_get event) = None
    end.

(** [bindEvent] on whatever display node the patcher holds. A text node
    gets an events object like any node, and its [on<event>] property is
    an expando that nothing dispatches to; the text node itself shows no
    change. *)
Definition node_bindEvent (event : string) (handler : nat) (n : dnode)
  : outcome dnode :=
  match n with
  | DElement e cs => lift (fun e => DElement e cs) (bindEvent e event handler)
  | DText _ =>
      if inherited event
      then Throw (TypeError "events[event].push is not a function") n
      else Ok n
  end.

End Events.
Import Events.

(* ===================================================================== *)
(** * dom.js: tree descriptions, differ, patcher, mount coordinator *)
(* ===================================================================== *)

Module Dom.

(** A value met where a tree description is expected: a primitive (the
    absent values [null], [undefined] and [false], a text scalar, or [true]),
    an element object [{tag, attrs, children}], or an array of such values
    (a nested child grouping). *)
Inductive vnode :=
| VPrim (p : prim)
| VElem (tag : string) (attrs : list (string * jsval)) (children : list vnode)
| VArr (items : list vnode).

Abbreviation VText s := (VPrim (PStr s)).
Abbreviation VNum x := (VPrim (PNum x)).
Abbreviation vundefined := (VPrim PUndefined).

Definition typeof_node (n : vnode) : jstype :=
  match n with
  | VPrim p => typeof_prim p
  | VElem _ _ _ | VArr _ => TObject
  end.

(** [!!n] *)
Definition truthy (n : vnode) : bool :=
  match n with
  | VPrim p => truthy_prim p
  | VElem _ _ _ | VArr _ => true
  end.

(** [n.tag], [n.attrs], [n.children]; [None] is [undefined]. *)
Definition tag_of (n : vnode) : option string :=
  match n with VElem t _ _ => Some t | _ => None end.

Definition attrs_of (n : vnode) : option (list (string * jsval)) :=
  match n with VElem _ a _ => Some a | _ => None end.

Definition children_of (n : vnode) : option (list vnode) :=
  match n with VElem _ _ cs => Some cs | _ => None end.

(** ** Tree builder *)

(** [FlattenIntoArray] of [Array.prototype.flat(depth)]: an element that
    is an array is spliced in, flattened [depth - 1] levels further, when
    [depth > 0]; any other element is kept. *)
Fixpoint flat_depth (depth : nat) (source : list vnode) : list vnode :=
  match depth with
  | O => source
  | S depth' =>
      (fix each (xs : list vnode) : list vnode :=
         match xs with
         | [] => []
         | VArr items :: xs' => flat_depth depth' items ++ each xs'
         | x :: xs' => x :: each xs'
         end) source
  end.

(** [children.flat()]: the depth defaults to 1. *)
Definition flat (children : list vnode) : list vnode := flat_depth 1 children.

(** [createElement(tag, attrs = {}, children = [])]; an omitted argument
    is [None]. *)
Definition createElement (tag : string)
  (attrs : option (list (string * jsval))) (children : option (list vnode))
  : vnode :=
  let attrs := match attrs with Some a => a | None => [] end in
  let children := match children with Some cs => cs | None => [] end in
  VElem tag attrs (flat children).

Definition el := createElement.

(** ** Display adapter *)

(** The attribute loop body of [createDOMElement]. The adapter is modelled
    for descriptions it renders ([renderable]): tags and attribute names
    the display tree accepts, and no handler under an event name for which
    [bindEvent] throws. Outside them the source aborts the whole render
    with the exception; here the element goes on as the call left it. *)
Definition createDOMElement_attr (element : Element) (kv : string * jsval)
  : Element :=
  let '(key, value) := kv in
  if startsWith "on" key && jstype_eqb (typeof value) TFunction then
    match value with
    | JFun handler =>
        state_of (bindEvent element (toLowerCase (slice 2 key)) handler)
    | _ => element
    end
  else if String.eqb key "className" || String.eqb key "class" then
    setProperty "className" value element
  else if String.eqb key "style" && jstype_eqb (typeof value) TObject then
    assignStyle value element
  else if String.eqb key "checked" || String.eqb key "disabled"
          || String.eqb key "selected" then
    setProperty key value element
  else if String.eqb key "value" then
    setProperty "value" value element
  else
    setAttribute key value element.

(** [document.createElement(vNode.tag)]: a missing tag is converted to the
    string "undefined". *)
Definition createElement_for (n : vnode) : Element :=
  document_createElement
    (match tag_of n with Some t => t | None => "undefined" end).

(** [createDOMElement(vNode)]; [None] is [null]. *)
Fixpoint createDOMElement (vNode : vnode) : option dnode :=
  match vNode with
  | VPrim PNull | VPrim PUndefined | VPrim (PBool false) => None
  | VPrim (PStr s) => Some (DText (String_prim (PStr s)))
  | VPrim (PNum x) => Some (DText (String_prim (PNum x)))
  | VElem _ attrs children =>
      let element := createElement_for vNode in
      let element := fold_left createDOMElement_attr attrs element in
      Some (DElement element
              ((fix appendAll (cs : list vnode) : list dnode :=
                  match cs with
                  | [] => []
                  | child :: cs' =>
                      match createDOMElement child with
                      | Some childElement => childElement :: appendAll cs'
                      | None => appendAll cs'
                      end
                  end) children))
  | VPrim (PBool true) | VArr _ =>
      (* vNode.attrs || {} and vNode.children || [] are both empty *)
      Some (DElement (createElement_for vNode) [])
  end.

(** ** Differ *)

(** A patch; the absence of a patch ([null]) is [None] at the use site. *)
Inductive Patch :=
| CREATE (newNode : vnode)
| REMOVE
| REPLACE (newNode : vnode)
| UPDATE (attrs : list (string * jsval)) (children : list (option Patch)).

(** [diffAttrs(oldAttrs = {}, newAttrs = {})]. Both are plain objects:
    [oldAttrs[key]] and [key in newAttrs] go on to [Object.prototype] for a
    key the object does not own. *)
Definition diffAttrs (oldAttrs newAttrs : option (list (string * jsval)))
  : list (string * jsval) :=
  let oldAttrs := match oldAttrs with Some a => a | None => [] end in
  let newAttrs := match newAttrs with Some a => a | None => [] end in
  let patches := [] in
  (* New or changed attributes *)
  let patches :=
    fold_left (fun patches kv =>
                 let '(key, value) := kv in
                 if negb (strict_eq (obj_read key oldAttrs) value)
                 then patches ++ [(key, value)] else patches)
              newAttrs patches in
  (* Removed attributes *)
  let patches :=
    fold_left (fun patches key =>
                 if negb (obj_in key newAttrs)
                 then patches ++ [(key, undefined)] else patches)
              (obj_keys oldAttrs) patches in
  patches.

(** [oldNode !== newNode], reached for strings and numbers only. *)
Definition strict_eq_node (a b : vnode) : bool :=
  match a, b with
  | VPrim p, VPrim q => strict_eq_prim p q
  | _, _ => false
  end.

(** [oldNode.tag !== newNode.tag] negated; tags are strings or missing. *)
Definition tag_eqb (a b : option string) : bool :=
  match a, b with
  | Some s, Some t => String.eqb s t
  | None, None => true
  | _, _ => false
  end.

Definition is_scalar_type (t : jstype) : bool :=
  match t with TString | TNumber => true | _ => false end.

(** [diff(oldNode, newNode)]. The loop of [diffChildren] is unfolded in
    place to recurse on the old children: as long as the old array has an
    element it is diffed against the new element at the same index
    ([undefined] past the end of the new array); past the end of the old
    array, [diff(undefined, n)] is [CREATE n]. *)
Fixpoint diff (oldNode newNode : vnode) {struct oldNode} : option Patch :=
  if negb (truthy oldNode) then Some (CREATE newNode)
  else if negb (truthy newNode) then Some REMOVE
  else if negb (jstype_eqb (typeof_node oldNode) (typeof_node newNode))
  then Some (REPLACE newNode)
  else if is_scalar_type (typeof_node newNode) then
    if negb (strict_eq_node oldNode newNode)
    then Some (REPLACE newNode) else None
  else if negb (tag_eqb (tag_of oldNode) (tag_of newNode))
  then Some (REPLACE newNode)
  else
    let newChildren :=
      match children_of newNode with Some cs => cs | None => [] end in
    Some (UPDATE
      (diffAttrs (attrs_of oldNode) (attrs_of newNode))
      (match oldNode with
       | VElem _ _ oldChildren =>
           (fix loop (olds news : list vnode) : list (option Patch) :=
              match olds with
              | [] => map (fun n => Some (CREATE n)) news
              | o :: olds' =>
                  diff o (match news with n :: _ => n | [] => vundefined end)
                  :: loop olds' (tl news)
              end) oldChildren newChildren
       | _ => map (fun n => Some (CREATE n)) newChildren
       end)).

(** The child loop in the shape [diff] unfolds it to. *)
Fixpoint diff_loop (olds news : list vnode) : list (option Patch) :=
  match olds with
  | [] => map (fun n => Some (CREATE n)) news
  | o :: olds' =>
      diff o (match news with n :: _ => n | [] => vundefined end)
      :: diff_loop olds' (tl news)
  end.

(** [diffChildren(oldChildren = [], newChildren = [])], as the source
    writes it: one [diff] per index below the longer length. *)
Definition diffChildren (oldChildren newChildren : option (list vnode))
  : list (option Patch) :=
  let oldChildren := match oldChildren with Some cs => cs | None => [] end in
  let newChildren := match newChildren with Some cs => cs | None => [] end in
  let maxLength := Nat.max (length oldChildren) (length newChildren) in
  map (fun i => diff (nth i oldChildren vundefined) (nth i newChildren vundefined))
      (seq 0 maxLength).

(** ** Patcher *)

(** The loop body of [patchAttrs]. *)
Definition patchAttrs_step (element : dnode) (record : string * jsval)
  : outcome dnode :=
  let '(key, value) := record in
  if startsWith "on" key && jstype_eqb (typeof value) TFunction then
    match value with
    | JFun handler => node_bindEvent (toLowerCase (slice 2 key)) handler element
    | _ => Ok element
    end
  else if strict_eq value undefined then
    node_removeAttribute key element
  else if String.eqb key "className" || String.eqb key "class" then
    node_setProperty "className" value element
  else if String.eqb key "style" && jstype_eqb (typeof value) TObject then
    node_assignStyle value element
  else if String.eqb key "checked" || String.eqb key "disabled"
          || String.eqb key "value" then
    node_setProperty key value element
  else
    node_setAttribute key value element.

(** [patchAttrs(element, attrPatches)] *)
Fixpoint patchAttrs (element : dnode) (attrPatches : list (string * jsval))
  : outcome dnode :=
  match attrPatches with
  | [] => Ok element
  | record :: rest =>
      patchAttrs_step element record >>= fun element => patchAttrs element rest
  end.

(** The [switch (patches.type)] of [patch(parent, patches, index)], with the
    loop of [patchChildren] unfolded in place. [parent] is the state; the
    child updated in place by UPDATE is written back at its index. *)
Fixpoint patch_switch (patches : Patch) (index : nat) (parent : dnode)
  {struct patches} : outcome dnode :=
  let element := childNodes parent !! index in
  match patches with
  | CREATE newNode =>
      match createDOMElement newNode with
      | Some newElement => appendChild newElement parent
      | None => Ok parent
      end
  | REMOVE =>
      match element with
      | Some _ => Ok (removeChildAt index parent)
      | None => Ok parent
      end
  | REPLACE newNode =>
      match createDOMElement newNode, element with
      | Some newElement, Some _ => Ok (replaceChildAt index newElement parent)
      | Some newElement, None => appendChild newElement parent
      | None, _ => Ok parent
      end
  | UPDATE attrs children =>
      match element with
      | Some element =>
          lift (fun element => replaceChildAt index element parent)
            (patchAttrs element attrs >>=
             (fix loop (childPatches : list (option Patch)) (i : nat)
                       (parent : dnode) : outcome dnode :=
                match childPatches with
                | [] => Ok parent
                | p :: rest =>
                    match p with
                    | Some p => patch_switch p i parent
                    | None => Ok parent
                    end >>= loop rest (S i)
                end) children 0)
      | None => Ok parent
      end
  end.

(** [patch(parent, patches, index = 0)] *)
Definition patch (parent : dnode) (patches : option Patch) (index : nat)
  : outcome dnode :=
  match patches with
  | None => Ok parent            (* if (!patches) return; *)
  | Some p => patch_switch p index parent
  end.

(** [patchChildren(parent, childPatches)], the loop started at index [i]. *)
Fixpoint patchChildren_from (i : nat) (parent : dnode)
  (childPatches : list (option Patch)) : outcome dnode :=
  match childPatches with
  | [] => Ok parent
  | p :: rest =>
      patch parent p i >>= fun parent => patchChildren_from (S i) parent rest
  end.

Definition patchChildren (parent : dnode) (childPatches : list (option Patch))
  : outcome dnode :=
  patchChildren_from 0 parent childPatches.

(** ** Mount coordinator *)

(** What [mount] is given as its target: a selector string, a display node
    (by identity), or nothing ([null], [undefined]). *)
Inductive target :=
| Selector (s : string)
| Node (c : nat)
| NoTarget.

(** The mutable surroundings of the engine. *)
Record world := mkWorld {
  (** [document.querySelector], from selectors to node identities *)
  querySelector : string -> option nat;
  (** the display nodes mounted into, by identity *)
  display : gmap nat dnode;
  (** the module-level [WeakMap] from containers to the last description *)
  virtualTreeCache : gmap nat vnode;
  (** what [console.error] was called with *)
  console : list (string * target)
}.

(** [typeof target === 'string' ? document.querySelector(target) : target] *)
Definition resolve (tgt : target) (w : world) : option nat :=
  match tgt with
  | Selector s => querySelector w s
  | Node c => Some c
  | NoTarget => None
  end.

(** The first-render branch of [mount], on the container. *)
Definition first_render (vNode : vnode) (container : dnode) : outcome dnode :=
  let container := clearChildren container in
  match createDOMElement vNode with
  | Some element => appendChild element container
  | None => Ok container
  end.

(** [mount(target, vNode)]. A target that is truthy but does not denote a
    display node of the world has none of the node methods: the call
    aborts with a [TypeError]. An exception leaves the cache as it was,
    [virtualTreeCache.set] being the last statement. *)
Definition mount (tgt : target) (vNode : vnode) (w : world) : outcome world :=
  match resolve tgt w with
  | None =>
      Ok (mkWorld (querySelector w) (display w) (virtualTreeCache w)
                  (console w ++ [("Mount target not found:", tgt)]))
  | Some c =>
      match display w !! c with
      | None => Throw (TypeError "container is not a display node") w
      | Some container =>
          let oldVNode :=
            match virtualTreeCache w !! c with
            | Some old => old
            | None => vundefined
            end in
          let rendered :=
            if negb (truthy oldVNode) then first_render vNode container
            else patch container (diff oldVNode vNode) 0 in
          match rendered with
          | Ok container =>
              Ok (mkWorld (querySelector w) (<[c := container]> (display w))
                          (<[c := vNode]> (virtualTreeCache w)) (console w))
          | Throw e container =>
              Throw e (mkWorld (querySelector w)
                               (<[c := container]> (display w))
                               (virtualTreeCache w) (console w))
          end
      end
  end.

(** What [render] is given: a zero-argument producer or a description. *)
Inductive component :=
| Producer (produce : unit -> vnode)
| Description (v : vnode).

(** [render(component, target)] *)
Definition render (comp : component) (tgt : target) (w : world)
  : outcome world :=
  let vNode :=
    match comp with
    | Producer produce => produce tt
    | Description v => v
    end in
  mount tgt vNode w.

(** What every render keeps: a container whose cached description is
    truthy has at most one child node. *)
Definition cached_single (w : world) : Prop :=
  forall c old container,
    virtualTreeCache w !! c = Some old -> truthy old = true ->
    display w !! c = Some container ->
    length (childNodes container) <= 1.

End Dom.
Import Dom.

(* ===================================================================== *)
(** * Descriptions the display adapter renders *)
(* ===================================================================== *)

Module Renderable.

Definition is_letter (c : ascii) : bool :=
  let n := nat_of_ascii c in
  (Nat.leb 65 n && Nat.leb n 90) || (Nat.leb 97 n && Nat.leb n 122).

Definition is_digit (c : ascii) : bool :=
  let n := nat_of_ascii c in
  Nat.leb 48 n && Nat.leb n 57.

Definition name_char (c : ascii) : bool :=
  is_letter c || is_digit c
  || Ascii.eqb c "-" || Ascii.eqb c "_" || Ascii.eqb c "." || Ascii.eqb c ":".

Fixpoint all_chars (p : ascii -> bool) (s : string) : bool :=
  match s with
  | EmptyString => true
  | String c s' => p c && all_chars p s'
  end.

(** A name that [document.createElement] and [setAttribute] accept: an
    ASCII letter followed by ASCII letters, digits, [-], [_], [.] and [:].
    (They accept more; each of these they accept.) *)
Definition plain_name (s : string) : bool :=
  match s with
  | EmptyString => false
  | String c s' => is_letter c && all_chars name_char s'
  end.

(** An attribute entry on which the attribute loop of [createDOMElement]
    does not throw: a handler goes under an event name that [bindEvent]
    accepts, and a key that reaches [setAttribute] is a name. *)
Definition renderable_attr (kv : string * jsval) : bool :=
  let '(key, value) := kv in
  if startsWith "on" key && jstype_eqb (typeof value) TFunction then
    negb (inherited (toLowerCase (slice 2 key)))
  else if String.eqb key "className" || String.eqb key "class" then true
  else if String.eqb key "style" && jstype_eqb (typeof value) TObject then true
  else if String.eqb key "checked" || String.eqb key "disabled"
          || String.eqb key "selected" then true
  else if String.eqb key "value" then true
  else plain_name key.

(** A description that [createDOMElement] renders without an exception,
    at every depth. *)
Fixpoint renderable (n : vnode) : bool :=
  match n with
  | VElem tag attrs children =>
      plain_name tag && forallb renderable_attr attrs
      && forallb renderable children
  | _ => true
  end.

End Renderable.
Import Renderable.

(* ===================================================================== *)
(** * The specification's wording, for comparison with the code *)
(* ===================================================================== *)

Module Stated.

(** ** The three variants of a tree description *)

(** Absent: [null], [undefined] or [false]. *)
Definition absent (n : vnode) : bool :=
  match n with
  | VPrim PNull | VPrim PUndefined | VPrim (PBool false) => true
  | _ => false
  end.

(** Text: a string or a number. *)
Definition is_text (n : vnode) : bool :=
  match n with
  | VPrim (PStr _) | VPrim (PNum _) => true
  | _ => false
  end.

Definition is_element (n : vnode) : bool :=
  match n with
  | VElem _ _ _ => true
  | _ => false
  end.

(** A text scalar that JavaScript does not count as false: a non-empty
    string, a number other than zero and [NaN]. *)
Definition solid_text (n : vnode) : bool := is_text n && truthy n.

(** A tree-description node whose text, if it is one, is solid. *)
Definition description (n : vnode) : bool :=
  absent n || solid_text n || is_element n.

(** ** Full flattening of a nested children sequence *)

(** Every nested sequence, at every depth, replaced by its items. *)
Fixpoint flatten_node (n : vnode) : list vnode :=
  match n with
  | VArr items => flat_map flatten_node items
  | _ => [n]
  end.

Definition flatten_all (children : list vnode) : list vnode :=
  flat_map flatten_node children.

Definition is_array (n : vnode) : bool :=
  match n with VArr _ => true | _ => false end.

(** A child that is not a sequence, or a sequence holding no sequence. *)
Definition shallow (n : vnode) : bool :=
  match n with
  | VArr items => forallb (fun i => negb (is_array i)) items
  | _ => true
  end.

(** ** Flattening one level *)

(** One child with one level of nesting removed: a sequence gives its
    items, as they are; anything else gives itself. *)
Definition splice (n : vnode) : list vnode :=
  match n with
  | VArr items => items
  | _ => [n]
  end.

(** ** The attribute-change list as the sentence words it *)

(** "a key missing in old counts as different" *)
Definition differs_as_stated (oldAttrs : list (string * jsval))
  (kv : string * jsval) : bool :=
  match obj_get (fst kv) oldAttrs with
  | None => true
  | Some old => negb (strict_eq old (snd kv))
  end.

Definition removed_keys (oldAttrs newAttrs : list (string * jsval))
  : list (string * jsval) :=
  map (fun k => (k, undefined))
      (List.filter (fun k => negb (obj_has k newAttrs)) (obj_keys oldAttrs)).

Definition attr_changes_as_stated (oldAttrs newAttrs : list (string * jsval))
  : list (string * jsval) :=
  List.filter (differs_as_stated oldAttrs) newAttrs
  ++ removed_keys oldAttrs newAttrs.

(** ** Patches that change nothing *)

(** "NONE, or an UPDATE whose attribute-change list is empty and whose
    child patches are" again such, "at every position". *)
Fixpoint quiet_as_stated (p : Patch) : bool :=
  match p with
  | UPDATE [] children =>
      forallb (fun c => match c with
                        | Some q => quiet_as_stated q
                        | None => true
                        end) children
  | _ => false
  end.

(** The same, a CREATE of an absent node admitted. *)
Fixpoint quiet (p : Patch) : bool :=
  match p with
  | CREATE n => absent n
  | UPDATE [] children =>
      forallb (fun c => match c with
                        | Some q => quiet q
                        | None => true
                        end) children
  | _ => false
  end.

Definition quiet_opt (p : option Patch) : bool :=
  match p with Some q => quiet q | None => true end.

Definition quiet_as_stated_opt (p : option Patch) : bool :=
  match p with Some q => quiet_as_stated q | None => true end.

(** ** Descriptions that diff quietly against themselves *)

(** The keys of an attribute map are pairwise different. *)
Fixpoint unique_keys (o : list (string * jsval)) : bool :=
  match o with
  | [] => true
  | (k, _) :: o' => negb (obj_has k o') && unique_keys o'
  end.

(** Every text scalar is solid, every attribute value is strictly equal
    to itself (it is not [NaN]), and attribute keys are unique, at every
    depth. *)
Fixpoint steady (n : vnode) : bool :=
  match n with
  | VPrim p => absent n || truthy_prim p
  | VElem _ attrs children =>
      unique_keys attrs
      && forallb (fun kv => strict_eq (snd kv) (snd kv)) attrs
      && forallb steady children
  | VArr _ => true
  end.

(** ** The world of the examples

    One [div] container, identity 0, found by the selector "#app", with
    the given cache and child nodes. *)
Definition app_world (cache : gmap nat vnode) (kids : list dnode) : world :=
  mkWorld (fun s => if String.eqb s "#app" then Some 0 else None)
          {[ 0 := DElement (document_createElement "div") kids ]}
          cache [].

End Stated.
Import Stated.

(* ===================================================================== *)
(** * events.js: removing handlers *)
(* ===================================================================== *)

Module Listeners.

(** [array.indexOf(x)] under an equality test; [None] is [-1]. *)
Fixpoint indexOf {A : Type} (same : A -> A -> bool) (x : A) (l : list A)
  : option nat :=
  match l with
  | [] => None
  | y :: l' => if same y x then Some 0 else S <$> indexOf same x l'
  end.

(** [event.replace(/^on/, '')] *)
Definition strip_on (event : string) : string :=
  if startsWith "on" event then slice 2 event else event.

(** [removeListener(element, event, handler)]; setting the [on<event>]
    property to [null] leaves it holding no listener. For an event name
    that the events object does not own and that names a member of
    [Object.prototype], [handlers] is that member, which has no
    [indexOf]. *)
Definition removeListener (el : Element) (event : string) (handler : nat)
  : outcome Element :=
  let cleanEvent := strip_on event in
  (* const events = eventRegistry.get(element);
     const handlers = events?.[cleanEvent]; if (!handlers) return; *)
  match registry el with
  | None => Ok el
  | Some events =>
      match obj_slot cleanEvent events with
      | Missing => Ok el
      | Inherited => Throw (TypeError "handlers.indexOf is not a function") el
      | Own handlers =>
          (* const index = handlers.indexOf(handler);
             if (index === -1) return; *)
          match indexOf Nat.eqb handler handlers with
          | None => Ok el
          | Some index =>
              (* handlers.splice(index, 1); *)
              let handlers := delete index handlers in
              let events := obj_set cleanEvent handlers events in
              if Nat.eqb (length handlers) 0 then
                Ok (mkElement (tagName el) (attributes el) (props el) (style el)
                              (Some (obj_delete cleanEvent events))
                              (obj_delete ("on" ++ cleanEvent) (listeners el)))
              else
                Ok (mkElement (tagName el) (attributes el) (props el) (style el)
                              (Some events) (listeners el))
          end
      end
  end.

(** [addListener(element, event, handler)]: the outcome of the call and,
    for a call that returned, the cleanup function it returned. *)
Definition addListener (el : Element) (event : string) (handler : nat)
  : outcome Element * (Element -> outcome Element) :=
  let cleanEvent := strip_on event in
  (bindEvent el cleanEvent handler,
   fun el' => removeListener el' cleanEvent handler).

(** [removeAllListeners(element)] *)
Definition removeAllListeners (el : Element) : Element :=
  match registry el with
  | None => el
  | Some events =>
      mkElement (tagName el) (attributes el) (props el) (style el)
                None
                (fold_left (fun ls event => obj_delete ("on" ++ event) ls)
                           (obj_keys events) (listeners el))
  end.

(** The keys of the element's events object and of its [on<event>]
    properties are pairwise different, as the keys of an object are. *)
Definition distinct_keys (el : Element) : Prop :=
  NoDup (obj_keys (match registry el with Some evs => evs | None => [] end))
  /\ NoDup (obj_keys (listeners el)).

End Listeners.
Import Listeners.

(* ===================================================================== *)
(** * events.js: the EventEmitter class *)
(* ===================================================================== *)

Module Emitter.

(** A function subscribed to an emitter: a function of the caller, taken
    not to touch the emitter when called, or the wrapper that [once]
    creates, [(...args) => { handler(...args); this.off(eventName, wrapper) }],
    a closure with an identity of its own. *)
Inductive subscriber :=
| Plain (fn : nat)
| OnceWrapper (id : nat) (eventName : string) (handler : nat).

(** [a === b] on subscribed functions. *)
Definition same_function (a b : subscriber) : bool :=
  match a, b with
  | Plain f, Plain g => Nat.eqb f g
  | OnceWrapper i _ _, OnceWrapper j _ _ => Nat.eqb i j
  | _, _ => false
  end.

(** An emitter: [this.events], and how many wrappers [once] has created. *)
Record EventEmitter := mkEmitter {
  events : list (string * list subscriber);
  wrappers : nat
}.

(** [new EventEmitter()] *)
Definition new_EventEmitter : EventEmitter := mkEmitter [] 0.

(** [off(eventName, handler)]. [this.events] is a plain object: for a
    name it does not own that names a member of [Object.prototype],
    [handlers] is that member, which has no [indexOf]. *)
Definition off (em : EventEmitter) (eventName : string) (handler : subscriber)
  : outcome EventEmitter :=
  match obj_slot eventName (events em) with
  | Missing => Ok em
  | Inherited => Throw (TypeError "handlers.indexOf is not a function") em
  | Own handlers =>
      match indexOf same_function handler handlers with
      | Some index =>
          Ok (mkEmitter (obj_set eventName (delete index handlers) (events em))
                        (wrappers em))
      | None => Ok em
      end
  end.

(** [on(eventName, handler)]: the outcome of the call and, for a call that
    returned, the unsubscribe function it returned. *)
Definition on (em : EventEmitter) (eventName : string) (handler : subscriber)
  : outcome EventEmitter * (EventEmitter -> outcome EventEmitter) :=
  (* if (!this.events[eventName]) this.events[eventName] = []; *)
  let evs :=
    match obj_slot eventName (events em) with
    | Missing => obj_put eventName [] (events em)
    | Own _ | Inherited => events em
    end in
  (* this.events[eventName].push(handler); *)
  (match obj_slot eventName evs with
   | Own handlers =>
       Ok (mkEmitter (obj_set eventName (handlers ++ [handler]) evs)
                     (wrappers em))
   | Inherited =>
       Throw (TypeError "this.events[eventName].push is not a function")
             (mkEmitter evs (wrappers em))
   | Missing =>
       Throw (TypeError "Cannot read properties of undefined")
             (mkEmitter evs (wrappers em))
   end,
   fun em' => off em' eventName handler).

(** [once(eventName, handler)] *)
Definition once (em : EventEmitter) (eventName : string) (handler : nat)
  : outcome EventEmitter :=
  let wrapper := OnceWrapper (wrappers em) eventName handler in
  fst (on (mkEmitter (events em) (S (wrappers em))) eventName wrapper).

(** Calling one subscribed function: the outcome and the functions of the
    caller that ran. *)
Definition call (em : EventEmitter) (h : subscriber)
  : outcome EventEmitter * list nat :=
  match h with
  | Plain fn => (Ok em, [fn])
  | OnceWrapper _ eventName handler => (off em eventName h, [handler])
  end.

(** [handlers.forEach(handler => handler(payload))] from index [k] with
    [remaining] indices to go. The bound is the length the array had when
    the loop began; an index the array no longer has is passed over. The
    array is the one [off] splices in place. An exception ends the loop. *)
Fixpoint forEach (remaining k : nat) (eventName : string) (em : EventEmitter)
  : outcome EventEmitter * list nat :=
  match remaining with
  | O => (Ok em, [])
  | S remaining' =>
      let handlers :=
        match obj_get eventName (events em) with Some hs => hs | None => [] end in
      match handlers !! k with
      | Some h =>
          match call em h with
          | (Ok em1, ran1) =>
              let '(result, ran2) := forEach remaining' (S k) eventName em1 in
              (result, ran1 ++ ran2)
          | (Throw e em1, ran1) => (Throw e em1, ran1)
          end
      | None => forEach remaining' (S k) eventName em
      end
  end.

(** [emit(eventName, payload)]: the outcome and the functions of the
    caller that ran, in order. *)
Definition emit (em : EventEmitter) (eventName : string)
  : outcome EventEmitter * list nat :=
  match obj_slot eventName (events em) with
  | Missing => (Ok em, [])
  | Inherited => (Throw (TypeError "handlers.forEach is not a function") em, [])
  | Own handlers => forEach (length handlers) 0 eventName em
  end.

(** [removeAll(eventName)]; [None] is a call without argument. *)
Definition removeAll (em : EventEmitter) (eventName : option string)
  : EventEmitter :=
  match eventName with
  | Some name =>
      if negb (String.eqb name "") then
        mkEmitter (obj_delete name (events em)) (wrappers em)
      else mkEmitter [] (wrappers em)
  | None => mkEmitter [] (wrappers em)
  end.

Definition is_plain (h : subscriber) : bool :=
  match h with Plain _ => true | OnceWrapper _ _ _ => false end.

(** The function of the caller behind a subscribed function. *)
Definition function_of (h : subscriber) : nat :=
  match h with Plain fn => fn | OnceWrapper _ _ handler => handler end.

End Emitter.

(* ===================================================================== *)
(** * dom.js: position-aligned descriptions *)
(* ===================================================================== *)

Module Alignment.

(** The child loop of [createDOMElement] in the shape it unfolds to. *)
Fixpoint appendAll (cs : list vnode) : list dnode :=
  match cs with
  | [] => []
  | child :: cs' =>
      match createDOMElement child with
      | Some childElement => childElement :: appendAll cs'
      | None => appendAll cs'
      end
  end.

#[global] Instance spec_float_eq_dec : EqDecision spec_float.
Proof. solve_decision. Defined.

#[global] Instance prim_eq_dec : EqDecision prim.
Proof. solve_decision. Defined.

#[global] Instance jsval_eq_dec : EqDecision jsval.
Proof. solve_decision. Defined.

(** Two descriptions whose nodes [diff] pairs up position by position with
    the display nodes in step. Both roots render a node. Two elements
    with the same tag have the same attribute map (unique keys, values
    strictly equal to themselves), and their children are paired in order:
    every paired old and new child is again aligned; the new sequence may
    go on after the old one ends; the old one may go on by one child, truthy
    or absent, after the new one ends. Any other pair is replaced as a
    whole and needs nothing more. *)
Fixpoint aligned (old new : vnode) : bool :=
  truthy old && truthy new &&
  match old, new with
  | VElem tag attrs olds, VElem tag' attrs' news =>
      negb (String.eqb tag tag')
      || (bool_decide (attrs = attrs') && unique_keys attrs
          && forallb (fun kv => strict_eq (snd kv) (snd kv)) attrs
          && (fix kids (olds news : list vnode) : bool :=
                match olds with
                | [] => true
                | o :: olds' =>
                    match news with
                    | n :: news' => aligned o n && kids olds' news'
                    | [] =>
                        (truthy o || absent o)
                        && match olds' with [] => true | _ :: _ => false end
                    end
                end) olds news)
  | _, _ => true
  end.

(** The pairing of children inside [aligned]. *)
Fixpoint aligned_children (olds news : list vnode) : bool :=
  match olds with
  | [] => true
  | o :: olds' =>
      match news with
      | n :: news' => aligned o n && aligned_children olds' news'
      | [] =>
          (truthy o || absent o)
          && match olds' with [] => true | _ :: _ => false end
      end
  end.

(** Patching the display node of [old], wherever it sits among its
    siblings, with [diff old new] puts the display node of [new] in its
    place, for every [new] aligned with [old]. *)
Definition converges (old : vnode) : Prop :=
  forall new e before after m_old,
    aligned old new = true ->
    createDOMElement old = Some m_old ->
    exists m_new,
      createDOMElement new = Some m_new
      /\ patch (DElement e (before ++ m_old :: after)) (diff old new)
               (length before)
         = Ok (DElement e (before ++ m_new :: after)).

End Alignment.
Import Alignment.

(* ===================================================================== *)
(** * router.js: matching and dispatching routes *)
(* ===================================================================== *)

Module Router.

(** [s.split(sep)] for a separator of one character. *)
Fixpoint split (sep : ascii) (s : string) : list string :=
  match s with
  | EmptyString => [EmptyString]
  | String c s' =>
      if Ascii.eqb c sep then EmptyString :: split sep s'
      else
        match split sep s' with
        | part :: parts => String c part :: parts
        | [] => [String c EmptyString]
        end
  end.

(** The loop of [matchRoute] over the two arrays of equal length, with the
    [params] object built so far. [params] is a plain object: a parameter
    named [__proto__] is assigned to the accessor of [Object.prototype],
    which ignores a string, and so binds nothing. *)
Fixpoint match_parts (patternParts pathParts : list string)
  (params : list (string * string)) : option (list (string * string)) :=
  match patternParts, pathParts with
  | pattern :: patternParts', path :: pathParts' =>
      if startsWith ":" pattern then
        (* params[pattern.slice(1)] = path *)
        match_parts patternParts' pathParts'
                    (obj_put (slice 1 pattern) path params)
      else if negb (String.eqb pattern path) then None
      else match_parts patternParts' pathParts' params
  | _, _ => Some params
  end.

(** [matchRoute(routePattern, actualPath)]; [None] is [null]. *)
Definition matchRoute (routePattern actualPath : string)
  : option (list (string * string)) :=
  let patternParts := split "/" routePattern in
  let pathParts := split "/" actualPath in
  if negb (Nat.eqb (length patternParts) (length pathParts)) then None
  else match_parts patternParts pathParts [].

(** The module-level router state. Handlers and callbacks are functions
    of the caller, known by reference and taken not to touch the router
    when called. *)
Record state := mkState {
  currentRoute : string;
  routes : list (string * nat);
  callbacks : list nat;
  notFoundHandler : option nat
}.

Definition initial_state : state := mkState "/" [] [] None.

(** A call made by the router. *)
Inductive called :=
| Handler (handler : nat) (params : list (string * string))
| NotFound (handler : nat) (path : string)
| Callback (fn : nat) (path : string) (params : option (list (string * string))).

(** [window.location.hash.slice(1) || '/'] *)
Definition getCleanRoute (hash : string) : string :=
  let route := slice 1 hash in
  if String.eqb route "" then "/" else route.

(** The loop of [handleRouteChange] over [Object.entries(state.routes)]:
    the handler and parameters of the first pattern that matches. *)
Fixpoint first_match (entries : list (string * nat)) (path : string)
  : option (nat * list (string * string)) :=
  match entries with
  | [] => None
  | (pattern, handler) :: entries' =>
      match matchRoute pattern path with
      | Some params => Some (handler, params)
      | None => first_match entries' path
      end
  end.

(** [handleRouteChange()], given [window.location.hash]: the state
    afterwards and the calls made, in order. *)
Definition handleRouteChange (hash : string) (st : state)
  : state * list called :=
  let path := getCleanRoute hash in
  let st := mkState path (routes st) (callbacks st) (notFoundHandler st) in
  match first_match (routes st) path with
  | Some (handler, params) =>
      (st, Handler handler params
           :: map (fun fn => Callback fn path (Some params)) (callbacks st))
  | None =>
      (st, match notFoundHandler st with
           | Some handler => [NotFound handler path]
           | None => []
           end
           ++ map (fun fn => Callback fn path None) (callbacks st))
  end.

(** [addRoute(path, handler)]: [state.routes[path] = handler]. The routes
    are a plain object, so [Object.entries] lists the patterns that are
    array indices first, in ascending order, and then the others in the
    order they were first registered. The pattern [__proto__] registers no
    route: the assignment replaces the prototype of the routes object by
    the handler, after which the routes are no plain object any more and
    are outside this model. *)
Definition addRoute (path : string) (handler : nat) (st : state) : state :=
  mkState (currentRoute st) (obj_put path handler (routes st))
          (callbacks st) (notFoundHandler st).

(** [setNotFound(handler)] *)
Definition setNotFound (handler : nat) (st : state) : state :=
  mkState (currentRoute st) (routes st) (callbacks st) (Some handler).

(** [onRouteChange(callback)]: the state afterwards and the unsubscribe
    function returned. *)
Definition onRouteChange (callback : nat) (st : state)
  : state * (state -> state) :=
  (mkState (currentRoute st) (routes st) (callbacks st ++ [callback])
           (notFoundHandler st),
   fun st' =>
     match indexOf Nat.eqb callback (callbacks st') with
     | Some index =>
         mkState (currentRoute st') (routes st')
                 (delete index (callbacks st')) (notFoundHandler st')
     | None => st'
     end).

(** [getCurrentRoute()] *)
Definition getCurrentRoute (st : state) : string := currentRoute st.

(** ** Paths built from a pattern *)

(** [parts.join(sep)] *)
Fixpoint join (sep : ascii) (parts : list string) : string :=
  match parts with
  | [] => EmptyString
  | [part] => part
  | part :: parts' => part ++ String sep (join sep parts')
  end.

(** No character of the string is the separator. *)
Fixpoint free_of (sep : ascii) (s : string) : bool :=
  match s with
  | EmptyString => true
  | String c s' => negb (Ascii.eqb c sep) && free_of sep s'
  end.

(** A pattern segment that names a parameter. *)
Definition is_param (part : string) : bool := startsWith ":" part.

(** The segments of a path for a pattern: a parameter segment gives the
    value supplied for its name (the empty string when none is), any other
    segment gives itself. *)
Definition fill (values : list (string * string)) (part : string) : string :=
  if is_param part then
    match obj_get (slice 1 part) values with
    | Some v => v
    | None => EmptyString
    end
  else part.

(** The parameter names of a list of pattern segments, in order. *)
Definition param_names (parts : list string) : list string :=
  map (slice 1) (List.filter is_param parts).

End Router.

(* ===================================================================== *)
(** * state.js: stores *)
(* ===================================================================== *)

Module State.

(** What [setState] is given: a function, applied to the current state,
    or a value that is not a function. *)
Inductive update (S : Type) :=
| ByFunction (f : S -> S)
| ByValue (v : S).
Arguments ByFunction {S} f.
Arguments ByValue {S} v.

Section FunctionalStore.
Context {S : Type}.

(** The closure state of [createStore]: [state] and [listeners].
    Listeners are functions of the caller, known by reference and taken
    not to touch the store when called. *)
Record store := mkStore {
  state : S;
  listeners : list nat
}.

(** [createStore(initialState)] *)
Definition createStore (initialState : S) : store := mkStore initialState [].

(** [getState()] *)
Definition getState (st : store) : S := state st.

(** [setState(newState)]: the store afterwards and the calls made, each
    a listener with the state it was given. *)
Definition setState (newState : update S) (st : store)
  : store * list (nat * S) :=
  let state :=
    match newState with
    | ByFunction f => f (state st)
    | ByValue v => v
    end in
  (mkStore state (listeners st), map (fun fn => (fn, state)) (listeners st)).

(** [subscribe(fn)]: the store afterwards, the calls made, and the
    unsubscribe function returned. *)
Definition subscribe (fn : nat) (st : store)
  : store * list (nat * S) * (store -> store) :=
  (mkStore (state st) (listeners st ++ [fn]),
   [(fn, state st)],
   fun st' =>
     match indexOf Nat.eqb fn (listeners st') with
     | Some index => mkStore (state st') (delete index (listeners st'))
     | None => st'
     end).

End FunctionalStore.
Arguments store S : clear implicits.

(** ** The Store class *)

(** What [Store.setState] is given: a function, or an object whose
    properties are merged over the state. *)
Inductive updater :=
| Updater (f : list (string * jsval) -> list (string * jsval))
| Partial (o : list (string * jsval)).

(** A [Store] object: [_state], an object, and [_listeners]. *)
Record Store := mkStoreObject {
  _state : list (string * jsval);
  _listeners : list nat
}.

(** [new Store(initialState = {})] *)
Definition new_Store (initialState : option (list (string * jsval))) : Store :=
  mkStoreObject (match initialState with Some o => o | None => [] end) [].

(** [{ ...a, ...b }] *)
Definition spread2 (a b : list (string * jsval)) : list (string * jsval) :=
  obj_spread (obj_spread [] a) b.

(** [Store.prototype.setState(updater)] *)
Definition Store_setState (u : updater) (st : Store)
  : Store * list (nat * list (string * jsval)) :=
  let state :=
    match u with
    | Updater f => f (_state st)
    | Partial o => spread2 (_state st) o
    end in
  (mkStoreObject state (_listeners st),
   map (fun fn => (fn, state)) (_listeners st)).

(** [Store.prototype.getState()] *)
Definition Store_getState (st : Store) : list (string * jsval) := _state st.

(** ** Reducers *)

Section Reducers.
Context {Action : Type}.

(** [combineReducers(reducers)]: the combined reducer, given the state
    ([None] for [undefined], which defaults to [{}]) and the action. The
    state and [newState] are plain objects: [state[key]] is read through
    [Object.prototype], and [newState[key] = ...] defines an own property
    except under the key [__proto__]. *)
Definition combineReducers
  (reducers : list (string * (jsval -> Action -> jsval)))
  (state : option (list (string * jsval))) (action : Action)
  : list (string * jsval) :=
  let state := match state with Some o => o | None => [] end in
  let '(newState, hasChanged) :=
    fold_left
      (fun acc entry =>
         let '(newState, hasChanged) := acc in
         let '(key, reducer) := entry in
         let previousStateForKey := obj_read key state in
         let nextStateForKey := reducer previousStateForKey action in
         (obj_put key nextStateForKey newState,
          hasChanged || negb (strict_eq nextStateForKey previousStateForKey)))
      reducers ([], false) in
  if hasChanged then newState else state.

(** [createReducerStore(reducer, initialState)]: the store after the
    initial dispatch of the [@@INIT] action. *)
Definition createReducerStore {S : Type} (reducer : S -> Action -> S)
  (initialState : S) (init : Action) : store S :=
  mkStore (reducer initialState init) [].

(** [dispatch(action)] of a reducer store. *)
Definition dispatch_action {S : Type} (reducer : S -> Action -> S)
  (action : Action) (st : store S) : store S * list (nat * S) :=
  let state := reducer (state st) action in
  (mkStore state (listeners st), map (fun fn => (fn, state)) (listeners st)).

End Reducers.

End State.

(* ===================================================================== *)
(** * Properties *)
(* ===================================================================== *)

(** ** Induction over nested trees *)

Lemma vnode_nested_ind (P : vnode -> Prop) :
  (forall p, P (VPrim p)) ->
  (forall tag attrs children, Forall P children -> P (VElem tag attrs children)) ->
  (forall items, Forall P items -> P (VArr items)) ->
  forall n, P n.
Proof.
  intros Hp He Ha. fix IH 1. intros [p | tag attrs children | items].
  - apply Hp.
  - apply He. induction children as [| c cs IHcs]; constructor; [apply IH | exact IHcs].
  - apply Ha. induction items as [| c cs IHcs]; constructor; [apply IH | exact IHcs].
Qed.

Lemma Patch_nested_ind (P : Patch -> Prop) :
  (forall n, P (CREATE n)) ->
  P REMOVE ->
  (forall n, P (REPLACE n)) ->
  (forall attrs children,
      Forall (fun p => match p with Some q => P q | None => True end) children ->
      P (UPDATE attrs children)) ->
  forall p, P p.
Proof.
  intros Hc Hr Hp Hu. fix IH 1. intros [n | | n | attrs children].
  - apply Hc.
  - apply Hr.
  - apply Hp.
  - apply Hu. induction children as [| [q |] cs IHcs]; constructor;
      [apply IH | exact IHcs | exact I | exact IHcs].
Qed.

(** ** The differ satisfies the equations of the source *)

Lemma diff_undefined_l (n : vnode) : diff vundefined n = Some (CREATE n).
Proof. reflexivity. Qed.

Lemma map_nth_seq_all {A B : Type} (f : A -> B) (l : list A) (d : A) :
  map (fun i => f (nth i l d)) (seq 0 (length l)) = map f l.
Proof.
  induction l as [| x l IH]; [reflexivity |].
  cbn [length seq map nth]. f_equal.
  rewrite <- seq_shift, map_map. exact IH.
Qed.

(** The unfolded loop is the loop of [diffChildren]. *)
Lemma diff_loop_diffChildren (olds news : list vnode) :
  diff_loop olds news = diffChildren (Some olds) (Some news).
Proof.
  unfold diffChildren. revert news.
  induction olds as [| o olds IH]; intros news.
  - cbn [diff_loop length Nat.max].
    rewrite <- (map_nth_seq_all (fun n => Some (CREATE n)) news vundefined).
    apply map_ext. intros i. destruct i; reflexivity.
  - destruct news as [| n news]; cbn [diff_loop tl length Nat.max seq map nth].
    + f_equal. rewrite IH. cbn [length]. rewrite Nat.max_0_r.
      rewrite <- seq_shift, map_map. apply map_ext. intros i.
      destruct i; reflexivity.
    + f_equal. rewrite IH. rewrite <- seq_shift, map_map. reflexivity.
Qed.

Lemma diff_inner_loop (olds news : list vnode) :
  (fix loop (olds news : list vnode) : list (option Patch) :=
     match olds with
     | [] => map (fun n => Some (CREATE n)) news
     | o :: olds' =>
         diff o (match news with n :: _ => n | [] => vundefined end)
         :: loop olds' (tl news)
     end) olds news = diff_loop olds news.
Proof.
  revert news. induction olds as [| o olds IH]; intros news; [reflexivity |].
  cbn [diff_loop]. rewrite IH. reflexivity.
Qed.

(** [diff] computes what the body of the source function computes, with
    [diffChildren] as the source writes it. *)
Lemma diff_equation (oldNode newNode : vnode) :
  diff oldNode newNode =
  if negb (truthy oldNode) then Some (CREATE newNode)
  else if negb (truthy newNode) then Some REMOVE
  else if negb (jstype_eqb (typeof_node oldNode) (typeof_node newNode))
  then Some (REPLACE newNode)
  else if is_scalar_type (typeof_node newNode) then
    if negb (strict_eq_node oldNode newNode)
    then Some (REPLACE newNode) else None
  else if negb (tag_eqb (tag_of oldNode) (tag_of newNode))
  then Some (REPLACE newNode)
  else Some (UPDATE (diffAttrs (attrs_of oldNode) (attrs_of newNode))
                    (diffChildren (children_of oldNode) (children_of newNode))).
Proof.
  destruct oldNode as [p | tag attrs children | items].
  - destruct newNode as [q | tag' attrs' children' | items'];
      destruct p as [| | [|] | x | s]; try reflexivity;
      try (destruct q as [| | [|] | y | t]; reflexivity);
      cbn; repeat (destruct (truthy_num _) || destruct (negb _)); reflexivity.
  - destruct newNode as [q | tag' attrs' children' | items'].
    + destruct q as [| | [|] | y | t]; try reflexivity;
        cbn; repeat (destruct (truthy_num _) || destruct (negb _)); reflexivity.
    + cbn -[diffAttrs diffChildren]. destruct (String.eqb tag tag'); [| reflexivity].
      cbn -[diffAttrs diffChildren].
      rewrite diff_inner_loop, diff_loop_diffChildren. reflexivity.
    + reflexivity.
  - destruct newNode as [q | tag' attrs' children' | items'].
    + destruct q as [| | [|] | y | t]; try reflexivity;
        cbn; repeat (destruct (truthy_num _) || destruct (negb _)); reflexivity.
    + reflexivity.
    + reflexivity.
Qed.

(** ** Child patches are aligned by index *)

Lemma nth_error_map_seq {B : Type} (f : nat -> B) (start len i : nat) :
  nth_error (map f (seq start len)) i =
  if Nat.ltb i len then Some (f (start + i)) else None.
Proof.
  revert start i. induction len as [| len IH]; intros start i.
  - destruct i; reflexivity.
  - destruct i as [| i]; cbn [seq map nth_error].
    + rewrite Nat.add_0_r. reflexivity.
    + rewrite IH. replace (S start + i) with (start + S i) by lia.
      reflexivity.
Qed.

Lemma diff_same_tag (tag : string) (oldAttrs newAttrs : list (string * jsval))
  (oldChildren newChildren : list vnode) :
  diff (VElem tag oldAttrs oldChildren) (VElem tag newAttrs newChildren) =
  Some (UPDATE (diffAttrs (Some oldAttrs) (Some newAttrs))
               (diffChildren (Some oldChildren) (Some newChildren))).
Proof.
  rewrite diff_equation. cbn -[diffAttrs diffChildren].
  rewrite String.eqb_refl. reflexivity.
Qed.

(** C6. For two elements with the same tag, the child patches of the UPDATE
    patch are as many as the longer of the two child sequences, and the
    patch at index [i] is [diff] of the old and the new child at [i], a
    child past the end of its sequence being [undefined]. Growing a list
    by one text child gives [NONE, CREATE], shrinking it [NONE, REMOVE]. *)
Theorem diff_children_index_aligned (tag : string)
  (oldAttrs newAttrs : list (string * jsval))
  (oldChildren newChildren : list vnode) :
  exists attrs kids,
    diff (VElem tag oldAttrs oldChildren) (VElem tag newAttrs newChildren)
    = Some (UPDATE attrs kids)
    /\ length kids = Nat.max (length oldChildren) (length newChildren)
    /\ (forall i,
          nth_error kids i =
          if Nat.ltb i (Nat.max (length oldChildren) (length newChildren))
          then Some (diff (nth i oldChildren vundefined)
                          (nth i newChildren vundefined))
          else None)
    /\ diff (VElem "ul" [] [VText "a"]) (VElem "ul" [] [VText "a"; VText "b"])
       = Some (UPDATE [] [None; Some (CREATE (VText "b"))])
    /\ diff (VElem "ul" [] [VText "a"; VText "b"]) (VElem "ul" [] [VText "a"])
       = Some (UPDATE [] [None; Some REMOVE]).
Proof.
  exists (diffAttrs (Some oldAttrs) (Some newAttrs)),
         (diffChildren (Some oldChildren) (Some newChildren)).
  split; [apply diff_same_tag |].
  split; [unfold diffChildren; rewrite length_map, length_seq; reflexivity |].
  split; [| split; reflexivity].
  intros i. unfold diffChildren. rewrite nth_error_map_seq. reflexivity.
Qed.

(** ** Attribute changes *)

Lemma fold_left_push {A B : Type} (keep : A -> bool) (g : A -> B)
  (l : list A) (acc : list B) :
  fold_left (fun patches x => if keep x then patches ++ [g x] else patches) l acc
  = acc ++ map g (List.filter keep l).
Proof.
  revert acc. induction l as [| x l IH]; intros acc; cbn [fold_left List.filter map].
  - rewrite app_nil_r. reflexivity.
  - rewrite IH. destruct (keep x); [| reflexivity].
    cbn [map]. rewrite <- app_assoc. reflexivity.
Qed.

Lemma fold_left_pointwise {A B : Type} (f g : B -> A -> B) (l : list A) (acc : B) :
  (forall b a, f b a = g b a) -> fold_left f l acc = fold_left g l acc.
Proof.
  intros Hfg. revert acc. induction l as [| x l IH]; intros acc; [reflexivity |].
  cbn [fold_left]. rewrite Hfg. apply IH.
Qed.

Lemma diffAttrs_lists (oldAttrs newAttrs : list (string * jsval)) :
  diffAttrs (Some oldAttrs) (Some newAttrs) =
  List.filter (fun kv => negb (strict_eq (obj_read (fst kv) oldAttrs) (snd kv)))
              newAttrs
  ++ map (fun k => (k, undefined))
         (List.filter (fun k => negb (obj_in k newAttrs)) (obj_keys oldAttrs)).
Proof.
  unfold diffAttrs.
  rewrite (fold_left_push (fun k => negb (obj_in k newAttrs))
                          (fun k => (k, undefined))).
  f_equal.
  rewrite <- (map_id (List.filter _ newAttrs)).
  rewrite <- (app_nil_l (map _ _)).
  rewrite <- (fold_left_push
                (fun kv => negb (strict_eq (obj_read (fst kv) oldAttrs) (snd kv)))
                (fun kv => kv)).
  apply fold_left_pointwise. intros acc [k v]. reflexivity.
Qed.

(** A key that names no member of [Object.prototype] is read and tested
    on the own properties alone. *)
Lemma inherited_false_prototype (k : string) :
  inherited k = false -> obj_get k Object_prototype = None.
Proof.
  unfold inherited. generalize Object_prototype.
  intros o. induction o as [| [k' v'] o IH]; cbn [obj_has obj_get];
    [reflexivity |].
  destruct (String.eqb k' k); [discriminate | exact IH].
Qed.

Lemma obj_read_own (k : string) (o : list (string * jsval)) :
  inherited k = false ->
  obj_read k o = match obj_get k o with Some v => v | None => undefined end.
Proof.
  intros Hk. unfold obj_read. rewrite (inherited_false_prototype k Hk).
  reflexivity.
Qed.

Lemma obj_in_own {V : Type} (k : string) (o : list (string * V)) :
  inherited k = false -> obj_in k o = obj_has k o.
Proof. intros Hk. unfold obj_in. rewrite Hk. apply orb_false_r. Qed.

Lemma filter_pointwise {A : Type} (f g : A -> bool) (l : list A) :
  Forall (fun x => f x = g x) l -> List.filter f l = List.filter g l.
Proof.
  induction 1 as [| x l Hx _ IH]; [reflexivity |].
  cbn [List.filter]. rewrite Hx, IH. reflexivity.
Qed.

(** Where no key names a member of [Object.prototype], the list is made
    from the own properties of the two maps. *)
Lemma diffAttrs_own (oldAttrs newAttrs : list (string * jsval)) :
  forallb (fun k => negb (inherited k))
          (obj_keys oldAttrs ++ obj_keys newAttrs) = true ->
  diffAttrs (Some oldAttrs) (Some newAttrs)
  = List.filter
      (fun kv => negb (strict_eq
                         (match obj_get (fst kv) oldAttrs with
                          | Some v => v
                          | None => undefined
                          end) (snd kv)))
      newAttrs
    ++ removed_keys oldAttrs newAttrs.
Proof.
  intros Hkeys. rewrite forallb_app in Hkeys.
  apply andb_true_iff in Hkeys as [Hold Hnew].
  rewrite diffAttrs_lists. unfold removed_keys. f_equal.
  - apply filter_pointwise. apply List.Forall_forall. intros [k v] Hin.
    cbn [fst snd]. rewrite obj_read_own; [reflexivity |].
    apply negb_true_iff.
    apply (proj1 (forallb_forall _ _) Hnew k), in_map_iff.
    exists (k, v). split; [reflexivity | exact Hin].
  - f_equal. apply filter_pointwise. apply List.Forall_forall. intros k Hin.
    rewrite obj_in_own; [reflexivity |].
    apply negb_true_iff. apply (proj1 (forallb_forall _ _) Hold k Hin).
Qed.

(** Where, besides, no new value is [undefined], the list is the one the
    sentence words. *)
Lemma diffAttrs_as_stated (oldAttrs newAttrs : list (string * jsval)) :
  forallb (fun k => negb (inherited k))
          (obj_keys oldAttrs ++ obj_keys newAttrs) = true ->
  Forall (fun kv => strict_eq (snd kv) undefined = false) newAttrs ->
  diffAttrs (Some oldAttrs) (Some newAttrs)
  = attr_changes_as_stated oldAttrs newAttrs.
Proof.
  intros Hkeys Hdef. rewrite (diffAttrs_own _ _ Hkeys).
  unfold attr_changes_as_stated.
  f_equal. clear Hkeys. induction Hdef as [| [k v] l Hv _ IH]; [reflexivity |].
  cbn [List.filter]. rewrite IH. unfold differs_as_stated.
  cbn [fst snd] in *. destruct (obj_get k oldAttrs) as [old |]; [reflexivity |].
  destruct v as [[| | b | x | s] | f | r ps]; cbn in *;
    try discriminate; reflexivity.
Qed.

(** C5 (as the code has it). For attribute maps none of whose keys names a
    member of [Object.prototype], the attribute-change list of the UPDATE
    patch of two same-tag elements is: the entries [(key, value)] of the
    new map whose value is not strictly equal to what the old map has at
    [key], a missing key reading [undefined], in the order of the new map;
    then one [(key, undefined)] for each key of the old map that is not a
    key of the new one, in the order of the old map. Diffing
    [div {id, class}] against [div {class}] gives the single record
    removing [id]. *)
Theorem diffAttrs_changed_then_removed (tag : string)
  (oldAttrs newAttrs : list (string * jsval))
  (oldChildren newChildren : list vnode) :
  forallb (fun k => negb (inherited k))
          (obj_keys oldAttrs ++ obj_keys newAttrs) = true ->
  (exists kids,
     diff (VElem tag oldAttrs oldChildren) (VElem tag newAttrs newChildren)
     = Some (UPDATE
         (List.filter
            (fun kv => negb (strict_eq
                               (match obj_get (fst kv) oldAttrs with
                                | Some v => v
                                | None => undefined
                                end) (snd kv)))
            newAttrs
          ++ map (fun k => (k, undefined))
                 (List.filter (fun k => negb (obj_has k newAttrs))
                              (obj_keys oldAttrs)))
         kids))
  /\ diff (VElem "div" [("id", JPrim (PStr "x")); ("class", JPrim (PStr "a"))] [])
          (VElem "div" [("class", JPrim (PStr "a"))] [])
     = Some (UPDATE [("id", undefined)] []).
Proof.
  intros Hkeys. split; [| reflexivity].
  exists (diffChildren (Some oldChildren) (Some newChildren)).
  rewrite diff_same_tag, (diffAttrs_own _ _ Hkeys). reflexivity.
Qed.

Lemma diffAttrs_changed_then_removed_witness :
  forallb (fun k => negb (inherited k))
          (obj_keys [("id", JPrim (PStr "x")); ("title", JPrim (PStr "t"))]
           ++ obj_keys [("title", JPrim (PStr "u")); ("lang", undefined)]) = true
  /\ exists kids,
       diff (VElem "p" [("id", JPrim (PStr "x")); ("title", JPrim (PStr "t"))] [])
            (VElem "p" [("title", JPrim (PStr "u")); ("lang", undefined)] [])
       = Some (UPDATE [("title", JPrim (PStr "u")); ("id", undefined)] kids).
Proof.
  split; [reflexivity |].
  destruct (diffAttrs_changed_then_removed "p"
              [("id", JPrim (PStr "x")); ("title", JPrim (PStr "t"))]
              [("title", JPrim (PStr "u")); ("lang", undefined)] [] []
              ltac:(reflexivity)) as [[kids Hkids] _].
  exists kids. exact Hkids.
Defined.

(** What the hypothesis keeps out: a key of the old map that names a
    member of [Object.prototype] is never reported as removed, and such a
    key of the new map is compared with that member. *)
Lemma diffAttrs_inherited_key :
  diffAttrs (Some [("constructor", JPrim (PStr "x"))]) (Some []) = []
  /\ diffAttrs (Some []) (Some [("toString", undefined)])
     = [("toString", undefined)].
Proof. split; reflexivity. Qed.

(** C5, as stated, fails: a key missing in the old map whose new value is
    [undefined] reads equal and is passed over, where the sentence counts
    it as different. *)
Lemma diffAttrs_missing_key_undefined :
  attr_changes_as_stated [] [("id", undefined)] = [("id", undefined)]
  /\ diffAttrs (Some []) (Some [("id", undefined)]) = []
  /\ diffAttrs (Some []) (Some [("id", undefined)])
     <> attr_changes_as_stated [] [("id", undefined)]
  /\ diff (VElem "div" [] []) (VElem "div" [("id", undefined)] [])
     = Some (UPDATE [] []).
Proof. repeat split. discriminate. Qed.

(** ** The tree builder flattens one level *)

Lemma flat_splice (children : list vnode) :
  flat children = flat_map splice children.
Proof.
  unfold flat. cbn [flat_depth].
  induction children as [| c cs IH]; [reflexivity |].
  destruct c as [p | tag attrs kids | items]; cbn [flat_map splice];
    rewrite <- IH; reflexivity.
Qed.

Lemma flatten_all_app (xs ys : list vnode) :
  flatten_all (xs ++ ys) = flatten_all xs ++ flatten_all ys.
Proof. unfold flatten_all. apply flat_map_app. Qed.

Lemma flatten_all_splice (n : vnode) :
  flatten_all (splice n) = flatten_node n.
Proof.
  destruct n as [p | tag attrs kids | items]; cbn; try reflexivity.
Qed.

(** Flattening one level loses no item and keeps the order of the leaves;
    shown for every depth. *)
Lemma flatten_all_flat_depth (depth : nat) (children : list vnode) :
  flatten_all (flat_depth depth children) = flatten_all children.
Proof.
  revert children. induction depth as [| depth IHd]; intros children;
    [reflexivity |].
  cbn [flat_depth].
  induction children as [| c cs IH]; [reflexivity |].
  destruct c as [p | tag attrs kids | items].
  - change (flatten_all (VPrim p :: ?l)) with (VPrim p :: flatten_all l).
    rewrite IH. reflexivity.
  - change (flatten_all (VElem tag attrs kids :: ?l))
      with (VElem tag attrs kids :: flatten_all l).
    rewrite IH. reflexivity.
  - rewrite flatten_all_app, IHd, IH. reflexivity.
Qed.

Lemma flatten_all_not_array (l : list vnode) :
  forallb (fun i => negb (is_array i)) l = true -> flatten_all l = l.
Proof.
  induction l as [| x l IH]; [reflexivity |].
  cbn [forallb]. intros [Hx Hl]%andb_prop.
  change (flatten_all (x :: l)) with (flatten_node x ++ flatten_all l).
  rewrite (IH Hl). destruct x; [reflexivity | reflexivity | discriminate].
Qed.

Lemma flat_shallow (children : list vnode) :
  forallb shallow children = true ->
  flat children = flatten_all children
  /\ forallb (fun i => negb (is_array i)) (flat children) = true.
Proof.
  rewrite flat_splice.
  induction children as [| c cs IH]; [split; reflexivity |].
  cbn [forallb]. intros [Hc Hcs]%andb_prop. destruct (IH Hcs) as [IH1 IH2].
  change (flatten_all (c :: cs)) with (flatten_node c ++ flatten_all cs).
  cbn [flat_map]. rewrite forallb_app, IH2, IH1.
  destruct c as [p | tag attrs kids | items]; cbn [splice flatten_node];
    [split; reflexivity | split; reflexivity |].
  cbn [shallow] in Hc. rewrite Hc.
  split; [| reflexivity].
  f_equal. symmetry. apply (flatten_all_not_array items Hc).
Qed.

(** C4 (as the code has it). The element built by [createElement] stores
    the children with one level of nesting flattened: each child that is a
    sequence is replaced by its items as they are, any other child is
    kept, left to right. No leaf is lost or reordered. When no nested
    sequence itself holds a sequence, the stored children are the full
    flattening and hold no sequence. *)
Theorem createElement_flattens_one_level (tag : string)
  (attrs : list (string * jsval)) (children : list vnode) :
  createElement tag (Some attrs) (Some children)
  = VElem tag attrs (flat_map splice children)
  /\ flatten_all (flat_map splice children) = flatten_all children
  /\ (forallb shallow children = true ->
      flat_map splice children = flatten_all children
      /\ forallb (fun i => negb (is_array i)) (flat_map splice children) = true).
Proof.
  unfold createElement. rewrite <- flat_splice.
  split; [reflexivity |].
  split; [apply (flatten_all_flat_depth 1) | apply flat_shallow].
Qed.

Lemma createElement_flattens_one_level_witness :
  createElement "ul" (Some []) (Some [VArr [VText "a"; VText "b"]; VText "c"])
  = VElem "ul" [] [VText "a"; VText "b"; VText "c"]
  /\ flat_map splice [VArr [VText "a"; VText "b"]; VText "c"]
     = flatten_all [VArr [VText "a"; VText "b"]; VText "c"].
Proof.
  destruct (createElement_flattens_one_level "ul" []
              [VArr [VText "a"; VText "b"]; VText "c"]) as (H1 & _ & H3).
  split; [exact H1 | apply H3; reflexivity].
Defined.

(** C4, as stated, fails: a sequence nested two deep is stored as a
    sequence, where the full flattening has its text. *)
Lemma createElement_keeps_deeper_nesting :
  createElement "div" None (Some [VArr [VArr [VText "a"]]; VText "b"])
  = VElem "div" [] [VArr [VText "a"]; VText "b"]
  /\ flatten_all [VArr [VArr [VText "a"]]; VText "b"] = [VText "a"; VText "b"]
  /\ children_of
       (createElement "div" None (Some [VArr [VArr [VText "a"]]; VText "b"]))
     <> Some (flatten_all [VArr [VArr [VText "a"]]; VText "b"]).
Proof. repeat split. discriminate. Qed.

(** ** The decision table of the differ *)

(** C1, as stated, fails: type mismatch is not the first test. With the
    old node absent and the new one a text, the JavaScript types differ and
    the result is CREATE, not REPLACE; with the old node a text and the new
    one absent, they differ and the result is REMOVE. *)
Lemma diff_type_mismatch_not_replace :
  typeof_node vundefined <> typeof_node (VText "a")
  /\ diff vundefined (VText "a") = Some (CREATE (VText "a"))
  /\ diff vundefined (VText "a") <> Some (REPLACE (VText "a"))
  /\ typeof_node (VText "a") <> typeof_node (VPrim PNull)
  /\ diff (VText "a") (VPrim PNull) = Some REMOVE.
Proof. repeat split; discriminate. Qed.

Lemma jstype_eqb_eq (a b : jstype) : jstype_eqb a b = true <-> a = b.
Proof. destruct a, b; cbn; split; intros H; congruence. Qed.

Lemma tag_eqb_eq (a b : option string) : tag_eqb a b = true <-> a = b.
Proof.
  destruct a as [s |], b as [t |]; cbn; try (split; intros H; congruence).
  rewrite String.eqb_eq. split; intros H; congruence.
Qed.

(** UPDATE comes only from two truthy nodes that are not scalars and have
    the same type and the same tag. *)
Lemma diff_update_inv (oldNode newNode : vnode) attrs kids :
  diff oldNode newNode = Some (UPDATE attrs kids) ->
  truthy oldNode = true /\ truthy newNode = true
  /\ typeof_node oldNode = typeof_node newNode
  /\ is_scalar_type (typeof_node newNode) = false
  /\ tag_of oldNode = tag_of newNode.
Proof.
  rewrite diff_equation.
  destruct (truthy oldNode); [| discriminate].
  destruct (truthy newNode); [| discriminate].
  destruct (jstype_eqb _ _) eqn:Hty; [| discriminate].
  destruct (is_scalar_type _);
    [destruct (negb (strict_eq_node _ _)); discriminate |].
  destruct (tag_eqb _ _) eqn:Htag; [| discriminate].
  intros _. apply jstype_eqb_eq in Hty. apply tag_eqb_eq in Htag. tauto.
Qed.

(** C1 (as the code has it). On tree-description nodes (absent, element,
    or solid text) [diff] decides in this order: an absent old node gives
    CREATE; otherwise an absent new node gives REMOVE; otherwise different
    JavaScript types give REPLACE; otherwise two texts give NONE when
    strictly equal and REPLACE when not; otherwise different tags give
    REPLACE. UPDATE is returned only for two elements with the same tag. *)
Theorem diff_decision_order (oldNode newNode : vnode) :
  description oldNode = true ->
  description newNode = true ->
  (absent oldNode = true -> diff oldNode newNode = Some (CREATE newNode))
  /\ (absent oldNode = false -> absent newNode = true ->
      diff oldNode newNode = Some REMOVE)
  /\ (absent oldNode = false -> absent newNode = false ->
      typeof_node oldNode <> typeof_node newNode ->
      diff oldNode newNode = Some (REPLACE newNode))
  /\ (absent oldNode = false -> absent newNode = false ->
      typeof_node oldNode = typeof_node newNode -> is_text newNode = true ->
      diff oldNode newNode =
      if strict_eq_node oldNode newNode then None else Some (REPLACE newNode))
  /\ (absent oldNode = false -> absent newNode = false ->
      typeof_node oldNode = typeof_node newNode ->
      tag_of oldNode <> tag_of newNode ->
      diff oldNode newNode = Some (REPLACE newNode))
  /\ (forall attrs kids,
        diff oldNode newNode = Some (UPDATE attrs kids) ->
        exists tag oldAttrs oldChildren newAttrs newChildren,
          oldNode = VElem tag oldAttrs oldChildren
          /\ newNode = VElem tag newAttrs newChildren).
Proof.
  intros Hold Hnew.
  assert (Hto : absent oldNode = negb (truthy oldNode)).
  { destruct oldNode as [[| | [|] | x | s] | |]; try reflexivity;
      unfold description, solid_text in Hold; cbn in Hold |- *;
      [destruct (truthy_num x) | destruct (String.eqb s "")];
      cbn in Hold |- *; congruence. }
  assert (Htn : absent newNode = negb (truthy newNode)).
  { destruct newNode as [[| | [|] | x | s] | |]; try reflexivity;
      unfold description, solid_text in Hnew; cbn in Hnew |- *;
      [destruct (truthy_num x) | destruct (String.eqb s "")];
      cbn in Hnew |- *; congruence. }
  repeat split.
  - intros H. rewrite diff_equation, <- Hto, H. reflexivity.
  - intros H1 H2. rewrite diff_equation, <- Hto, <- Htn, H1, H2. reflexivity.
  - intros H1 H2 Hty. rewrite diff_equation, <- Hto, <- Htn, H1, H2.
    destruct (jstype_eqb _ _) eqn:E; [| reflexivity].
    apply jstype_eqb_eq in E. contradiction.
  - intros H1 H2 Hty Htext. rewrite diff_equation, <- Hto, <- Htn, H1, H2.
    apply jstype_eqb_eq in Hty. rewrite Hty.
    destruct newNode as [[| | b | x | s] | |]; try discriminate;
      cbn [typeof_node typeof_prim is_scalar_type negb];
      destruct (strict_eq_node _ _); reflexivity.
  - intros H1 H2 Hty Htag. rewrite diff_equation, <- Hto, <- Htn, H1, H2.
    pose proof Hty as Hty'. apply jstype_eqb_eq in Hty'. rewrite Hty'.
    destruct oldNode as [p | t a cs | its], newNode as [q | t' a' cs' | its'];
      try (destruct p as [| | [|] | x | s]);
      try (destruct q as [| | [|] | y | s']);
      try discriminate; try (exfalso; apply Htag; reflexivity).
    cbn -[diffAttrs diffChildren]. destruct (String.eqb t t') eqn:E; [| reflexivity].
    apply String.eqb_eq in E. subst. contradiction.
  - intros attrs kids Hup.
    apply diff_update_inv in Hup as (Ho & Hn & Hty & Hsc & Htag).
    destruct oldNode as [p | t a cs | its], newNode as [q | t' a' cs' | its'];
      try (destruct p as [| | [|] | x | s]);
      try (destruct q as [| | [|] | y | s']);
      try discriminate.
    cbn in Htag. injection Htag as ->. eauto 10.
Qed.

Lemma diff_decision_order_witness :
  description (VPrim PNull) = true
  /\ description (VText "t") = true
  /\ diff (VPrim PNull) (VText "t") = Some (CREATE (VText "t")).
Proof.
  split; [reflexivity |]. split; [reflexivity |].
  apply (diff_decision_order (VPrim PNull) (VText "t")); reflexivity.
Defined.

(** ** Objects as maps: reading after writing *)

Section ObjFacts.
Context {V : Type}.
Implicit Types (o : list (string * V)) (k : string) (v : V).

Lemma obj_get_set_eq o k v : obj_get k (obj_set k v o) = Some v.
Proof.
  induction o as [| [k' v'] o IH]; cbn [obj_set obj_get].
  - rewrite String.eqb_refl. reflexivity.
  - destruct (String.eqb k' k) eqn:E; cbn [obj_get]; rewrite E;
      [reflexivity | exact IH].
Qed.

Lemma obj_get_set_ne o k k' v : k <> k' -> obj_get k' (obj_set k v o) = obj_get k' o.
Proof.
  intros Hne. induction o as [| [k0 v0] o IH]; cbn [obj_set obj_get].
  - destruct (String.eqb k k') eqn:E; [| reflexivity].
    apply String.eqb_eq in E. contradiction.
  - destruct (String.eqb k0 k) eqn:E; cbn [obj_get].
    + apply String.eqb_eq in E. subst k0.
      apply String.eqb_neq in Hne. rewrite Hne. reflexivity.
    + rewrite IH. reflexivity.
Qed.

Lemma obj_has_get o k : obj_has k o = true <-> exists v, obj_get k o = Some v.
Proof.
  induction o as [| [k' v'] o IH]; cbn [obj_has obj_get].
  - split; [discriminate | intros [v Hv]; discriminate].
  - destruct (String.eqb k' k); [| exact IH].
    split; [eauto | reflexivity].
Qed.

Lemma obj_has_keys o k : In k (obj_keys o) -> obj_has k o = true.
Proof.
  induction o as [| [k' v'] o IH]; cbn [obj_keys map In obj_has fst];
    [contradiction |].
  intros [-> | Hin]; [rewrite String.eqb_refl; reflexivity |].
  destruct (String.eqb k' k); [reflexivity | apply IH, Hin].
Qed.

End ObjFacts.

(** ** Plain objects *)

Section PlainObjFacts.
Context {V : Type}.
Implicit Types (o : list (string * V)) (k : string) (v : V).

Lemma obj_has_false_get o k : obj_has k o = false -> obj_get k o = None.
Proof.
  intros Hno. destruct (obj_get k o) as [v |] eqn:E; [| reflexivity].
  rewrite (proj2 (obj_has_get o k)) in Hno by eauto. discriminate.
Qed.

Lemma obj_get_has_false o k : obj_get k o = None -> obj_has k o = false.
Proof.
  intros Hno. destruct (obj_has k o) eqn:E; [| reflexivity].
  apply obj_has_get in E as [v Hv]. congruence.
Qed.

Lemma obj_get_insert_index_eq o n k v :
  obj_has k o = false -> obj_get k (insert_index n k v o) = Some v.
Proof.
  induction o as [| [k' v'] o IH]; cbn [obj_has insert_index]; intros Hno.
  - cbn [obj_get]. rewrite String.eqb_refl. reflexivity.
  - destruct (String.eqb k' k) eqn:E; [discriminate |].
    destruct (array_index k') as [n' |];
      [destruct (N.ltb n' n) |]; cbn [obj_get];
      rewrite ?E, ?String.eqb_refl; auto.
Qed.

Lemma obj_get_insert_index_ne o n k k' v :
  k <> k' -> obj_get k' (insert_index n k v o) = obj_get k' o.
Proof.
  intros Hne. apply String.eqb_neq in Hne.
  induction o as [| [k0 v0] o IH]; cbn [insert_index].
  - cbn [obj_get]. rewrite Hne. reflexivity.
  - destruct (array_index k0) as [n' |];
      [destruct (N.ltb n' n) |]; cbn [obj_get]; rewrite ?Hne;
      try reflexivity.
    rewrite IH. reflexivity.
Qed.

Lemma obj_get_app_fresh o k k' v :
  obj_get k' (o ++ [(k, v)])
  = match obj_get k' o with
    | Some x => Some x
    | None => if String.eqb k k' then Some v else None
    end.
Proof.
  induction o as [| [k0 v0] o IH]; cbn [app obj_get]; [reflexivity |].
  destruct (String.eqb k0 k'); [reflexivity | exact IH].
Qed.

Lemma obj_get_define_eq o k v : obj_get k (obj_define k v o) = Some v.
Proof.
  unfold obj_define. destruct (obj_has k o) eqn:Hhas;
    [apply obj_get_set_eq |].
  destruct (array_index k) as [n |];
    [apply obj_get_insert_index_eq, Hhas |].
  rewrite obj_get_app_fresh, (obj_has_false_get o k Hhas), String.eqb_refl.
  reflexivity.
Qed.

Lemma obj_get_define_ne o k k' v :
  k <> k' -> obj_get k' (obj_define k v o) = obj_get k' o.
Proof.
  intros Hne. unfold obj_define. destruct (obj_has k o);
    [apply obj_get_set_ne, Hne |].
  destruct (array_index k) as [n |];
    [apply obj_get_insert_index_ne, Hne |].
  rewrite obj_get_app_fresh. apply String.eqb_neq in Hne. rewrite Hne.
  destruct (obj_get k' o); reflexivity.
Qed.

Lemma inherited_proto : inherited "__proto__" = true.
Proof. reflexivity. Qed.

Lemma obj_put_define o k v :
  k <> "__proto__" -> obj_put k v o = obj_define k v o.
Proof.
  intros Hk. unfold obj_put. apply String.eqb_neq in Hk. rewrite Hk.
  rewrite andb_false_r. reflexivity.
Qed.

Lemma inherited_false_named k : inherited k = false -> k <> "__proto__".
Proof. intros Hk ->. discriminate. Qed.

Lemma obj_get_put_named o k v :
  k <> "__proto__" -> obj_get k (obj_put k v o) = Some v.
Proof. intros Hk. rewrite (obj_put_define o k v Hk). apply obj_get_define_eq. Qed.

Lemma obj_get_put_eq o k v :
  inherited k = false -> obj_get k (obj_put k v o) = Some v.
Proof. intros Hk. apply obj_get_put_named, inherited_false_named, Hk. Qed.

Lemma obj_get_put_ne o k k' v :
  k <> k' -> obj_get k' (obj_put k v o) = obj_get k' o.
Proof.
  intros Hne. unfold obj_put.
  destruct (negb (obj_has k o) && String.eqb k "__proto__");
    [reflexivity | apply obj_get_define_ne, Hne].
Qed.

Lemma obj_get_put_cases o k v :
  obj_get k (obj_put k v o) = Some v \/ obj_put k v o = o.
Proof.
  unfold obj_put.
  destruct (negb (obj_has k o) && String.eqb k "__proto__");
    [right; reflexivity | left; apply obj_get_define_eq].
Qed.

Lemma obj_get_put_proto o k v :
  obj_get "__proto__" o = None -> obj_get "__proto__" (obj_put k v o) = None.
Proof.
  intros Hno. destruct (String.eqb k "__proto__") eqn:E.
  - apply String.eqb_eq in E. subst k. unfold obj_put.
    rewrite (obj_get_has_false o _ Hno). exact Hno.
  - apply String.eqb_neq in E. rewrite obj_get_put_ne by exact E. exact Hno.
Qed.

Lemma obj_slot_own o k v : obj_get k o = Some v -> obj_slot k o = Own v.
Proof. intros H. unfold obj_slot. rewrite H. reflexivity. Qed.

Lemma obj_slot_missing o k :
  obj_get k o = None -> inherited k = false -> obj_slot k o = Missing.
Proof. intros H Hk. unfold obj_slot. rewrite H, Hk. reflexivity. Qed.

Lemma obj_slot_inherited o k :
  obj_get k o = None -> inherited k = true -> obj_slot k o = Inherited.
Proof. intros H Hk. unfold obj_slot. rewrite H, Hk. reflexivity. Qed.

End PlainObjFacts.

(** ** Event handlers accumulate *)

Lemma on_event_inj (a b : string) :
  ("on" ++ a)%string = ("on" ++ b)%string -> a = b.
Proof. intros H. injection H as H. exact H. Qed.

Lemma registry_read (el : Element) (event : string) :
  (registry el ≫= obj_get event)
  = obj_get event (match registry el with Some evs => evs | None => [] end).
Proof. destruct (registry el); reflexivity. Qed.

(** [bindEvent] by what [events[event]] is: an own handler array, a member
    of [Object.prototype], or nothing. *)
Lemma bindEvent_equation (el : Element) (event : string) (h : nat) :
  bindEvent el event h
  = match obj_get event
            (match registry el with Some evs => evs | None => [] end) with
    | Some hs =>
        Ok (mkElement (tagName el) (attributes el) (props el) (style el)
              (Some (obj_set event (hs ++ [h])
                       (match registry el with Some evs => evs | None => [] end)))
              (listeners el))
    | None =>
        if inherited event then
          Throw (TypeError "events[event].push is not a function")
                (mkElement (tagName el) (attributes el) (props el) (style el)
                   (Some (match registry el with Some evs => evs | None => [] end))
                   (listeners el))
        else
          Ok (mkElement (tagName el) (attributes el) (props el) (style el)
                (Some (obj_set event [h]
                         (obj_put event []
                            (match registry el with
                             | Some evs => evs
                             | None => []
                             end))))
                (obj_set ("on" ++ event) (DispatchAll event) (listeners el)))
    end.
Proof.
  unfold bindEvent.
  set (events := match registry el with Some evs => evs | None => [] end).
  destruct (obj_get event events) as [hs |] eqn:E.
  - rewrite (obj_slot_own events event hs E). cbn iota.
    rewrite (obj_slot_own events event hs E). reflexivity.
  - destruct (inherited event) eqn:Hin.
    + rewrite (obj_slot_inherited events event E Hin). cbn iota.
      rewrite (obj_slot_inherited events event E Hin). reflexivity.
    + rewrite (obj_slot_missing events event E Hin). cbn iota.
      rewrite (obj_slot_own _ event [] (obj_get_put_eq events event [] Hin)).
      reflexivity.
Qed.

(** A binding under a name that names no member of [Object.prototype]
    returns. *)
Lemma bindEvent_returns (el : Element) (event : string) (h : nat) :
  inherited event = false -> exists el', bindEvent el event h = Ok el'.
Proof.
  intros Hin. rewrite bindEvent_equation, Hin.
  destruct (obj_get event _); eauto.
Qed.

(** A binding that throws is one under the name of a member of
    [Object.prototype]; it leaves every handler array and every
    [on<event>] property as it was. *)
Lemma bindEvent_thrown (el el' : Element) (event : string) (h : nat) (e : exn) :
  bindEvent el event h = Throw e el' ->
  inherited event = true
  /\ (forall event', (registry el' ≫= obj_get event')
                     = (registry el ≫= obj_get event'))
  /\ listeners el' = listeners el.
Proof.
  rewrite bindEvent_equation.
  destruct (obj_get event _); [discriminate |].
  destruct (inherited event); [| discriminate].
  intros H. injection H as _ <-. split; [reflexivity |]. split; [| reflexivity].
  intros event'. cbn [registry]. rewrite (registry_read el event').
  reflexivity.
Qed.

(** The handler arrays after a binding that returned. *)
Lemma registry_bindEvent (el el' : Element) (event event' : string) (h : nat) :
  bindEvent el event h = Ok el' ->
  (registry el' ≫= obj_get event')
  = if String.eqb event event' then Some (handlers_of el event ++ [h])
    else registry el ≫= obj_get event'.
Proof.
  unfold handlers_of. rewrite !registry_read, bindEvent_equation.
  set (events := match registry el with Some evs => evs | None => [] end).
  destruct (obj_get event events) as [hs |] eqn:E.
  - intros H. injection H as <-. cbn [registry mbind option_bind].
    destruct (String.eqb event event') eqn:Eev.
    + apply String.eqb_eq in Eev. subst event'. apply obj_get_set_eq.
    + apply String.eqb_neq in Eev. apply obj_get_set_ne, Eev.
  - destruct (inherited event) eqn:Hin; [discriminate |].
    intros H. injection H as <-. cbn [registry mbind option_bind].
    destruct (String.eqb event event') eqn:Eev.
    + apply String.eqb_eq in Eev. subst event'. apply obj_get_set_eq.
    + apply String.eqb_neq in Eev.
      rewrite obj_get_set_ne, obj_get_put_ne by exact Eev. reflexivity.
Qed.

(** The [on<event>] properties after a binding that returned. *)
Lemma listeners_bindEvent (el el' : Element) (event event' : string) (h : nat) :
  bindEvent el event h = Ok el' ->
  obj_get ("on" ++ event') (listeners el')
  = if String.eqb event event' then
      match registry el ≫= obj_get event with
      | Some _ => obj_get ("on" ++ event) (listeners el)
      | None => Some (DispatchAll event)
      end
    else obj_get ("on" ++ event') (listeners el).
Proof.
  rewrite registry_read, bindEvent_equation.
  set (events := match registry el with Some evs => evs | None => [] end).
  destruct (obj_get event events) as [hs |] eqn:E.
  - intros H. injection H as <-. cbn [listeners].
    destruct (String.eqb event event') eqn:Eev; [| reflexivity].
    apply String.eqb_eq in Eev. subst event'. reflexivity.
  - destruct (inherited event) eqn:Hin; [discriminate |].
    intros H. injection H as <-. cbn [listeners].
    destruct (String.eqb event event') eqn:Eev.
    + apply String.eqb_eq in Eev. subst event'. apply obj_get_set_eq.
    + apply String.eqb_neq in Eev.
      apply obj_get_set_ne. intros H. apply Eev, on_event_inj, H.
Qed.

Lemma handlers_of_bindEvent (el el' : Element) (event event' : string) (h : nat) :
  bindEvent el event h = Ok el' ->
  handlers_of el' event'
  = if String.eqb event event' then handlers_of el event ++ [h]
    else handlers_of el event'.
Proof.
  intros Hok. unfold handlers_of at 1. rewrite (registry_bindEvent _ _ _ _ _ Hok).
  destruct (String.eqb event event'); reflexivity.
Qed.

Lemma registry_listening_fresh (tag : string) :
  registry_listening (document_createElement tag).
Proof. intros event. reflexivity. Qed.

Lemma registry_listening_bindEvent (el el' : Element) (event : string) (h : nat) :
  registry_listening el -> bindEvent el event h = Ok el' ->
  registry_listening el'.
Proof.
  intros Hinv Hok event'.
  rewrite (listeners_bindEvent _ _ _ _ _ Hok), (registry_bindEvent _ _ _ _ _ Hok).
  destruct (String.eqb event event') eqn:Eev; [| apply Hinv].
  apply String.eqb_eq in Eev. subst event'.
  specialize (Hinv event).
  destruct (registry el ≫= obj_get event) as [hs |] eqn:Er.
  - destruct (obj_get ("on" ++ event) (listeners el)) as [l |];
      [| discriminate].
    destruct Hinv as [-> _]. eauto.
  - eauto.
Qed.

(** The state is kept whether the binding returns or throws. *)
Lemma registry_listening_bindEvent_state (el : Element) (event : string) (h : nat) :
  registry_listening el -> registry_listening (state_of (bindEvent el event h)).
Proof.
  intros Hinv. destruct (bindEvent el event h) as [el' | e el'] eqn:Hrun;
    cbn [state_of].
  - exact (registry_listening_bindEvent _ _ _ _ Hinv Hrun).
  - destruct (bindEvent_thrown _ _ _ _ _ Hrun) as (_ & Hreg & Hls).
    intros event'. rewrite Hls, Hreg. apply Hinv.
Qed.

Lemma dispatch_handlers_of (el : Element) (event : string) :
  registry_listening el -> dispatch el event = handlers_of el event.
Proof.
  intros Hinv. specialize (Hinv event). unfold dispatch, handlers_of.
  destruct (obj_get ("on" ++ event) (listeners el)) as [l |].
  - destruct Hinv as [-> [hs Hhs]]. rewrite Hhs. cbn [run_listener].
    destruct (registry el) as [events |]; [| discriminate].
    cbn in Hhs. rewrite Hhs. reflexivity.
  - rewrite Hinv. reflexivity.
Qed.

(** Every element the display adapter builds is in that state. *)
Lemma registry_listening_createDOMElement_attr (e : Element) (kv : string * jsval) :
  registry_listening e -> registry_listening (createDOMElement_attr e kv).
Proof.
  intros Hinv. destruct kv as [key value]. unfold createDOMElement_attr.
  repeat match goal with
         | |- context [if ?b then _ else _] => destruct b
         end;
    try exact Hinv;
    destruct value as [p | f | r ps];
    try exact Hinv; try (apply registry_listening_bindEvent_state, Hinv).
Qed.

Lemma registry_listening_built (tag : string) (attrs : list (string * jsval)) :
  registry_listening
    (fold_left createDOMElement_attr attrs (document_createElement tag)).
Proof.
  generalize (registry_listening_fresh tag).
  generalize (document_createElement tag).
  induction attrs as [| kv attrs IH]; intros e He; [exact He |].
  cbn [fold_left]. apply IH, registry_listening_createDOMElement_attr, He.
Qed.

(** On a node in the state [bindEvent] keeps, and for an event name that
    names no member of [Object.prototype], binding a handler to the event
    and then a second one to the same event both return, leave the
    handlers bound before in place and add the two after them, in that
    order; one dispatch of the event then calls every bound handler in the
    order of registration; the handlers of other events are untouched. *)
Lemma bindEvent_accumulates (el : Element) (event : string) (h1 h2 : nat) :
  registry_listening el ->
  inherited event = false ->
  exists el1 el2,
    bindEvent el event h1 = Ok el1
    /\ bindEvent el1 event h2 = Ok el2
    /\ handlers_of el1 event = handlers_of el event ++ [h1]
    /\ handlers_of el2 event = handlers_of el event ++ [h1; h2]
    /\ dispatch el2 event = dispatch el event ++ [h1; h2]
    /\ (forall other, other <> event -> dispatch el2 other = dispatch el other)
    /\ registry_listening el2.
Proof.
  intros Hinv Hname.
  destruct (bindEvent_returns el event h1 Hname) as [el1 Hrun1].
  destruct (bindEvent_returns el1 event h2 Hname) as [el2 Hrun2].
  pose proof (registry_listening_bindEvent _ _ _ _ Hinv Hrun1) as Hinv1.
  pose proof (registry_listening_bindEvent _ _ _ _ Hinv1 Hrun2) as Hinv2.
  exists el1, el2. split; [exact Hrun1 |]. split; [exact Hrun2 |].
  rewrite !dispatch_handlers_of by assumption.
  rewrite (handlers_of_bindEvent _ _ _ _ _ Hrun2),
          (handlers_of_bindEvent _ _ _ _ _ Hrun1), String.eqb_refl, <- app_assoc.
  repeat split; try reflexivity; try assumption.
  intros other Hne. rewrite !dispatch_handlers_of by assumption.
  rewrite (handlers_of_bindEvent _ _ _ other _ Hrun2),
          (handlers_of_bindEvent _ _ _ other _ Hrun1).
  destruct (String.eqb event other) eqn:E; [| reflexivity].
  apply String.eqb_eq in E. congruence.
Qed.

(** Under the name of a member of [Object.prototype] that the events
    object does not own, the binding throws at [push]; no handler is
    bound, and every event dispatches as before. *)
Lemma bindEvent_inherited (el : Element) (event : string) (h : nat) :
  inherited event = true ->
  (registry el ≫= obj_get event) = None ->
  exists el',
    bindEvent el event h
    = Throw (TypeError "events[event].push is not a function") el'
    /\ (forall e, handlers_of el' e = handlers_of el e)
    /\ (forall e, dispatch el' e = dispatch el e).
Proof.
  intros Hname Hown. rewrite registry_read in Hown.
  rewrite bindEvent_equation, Hown, Hname. eexists. split; [reflexivity |].
  split; intros e.
  - unfold handlers_of. cbn [registry]. rewrite (registry_read el e). reflexivity.
  - unfold dispatch. cbn [listeners].
    destruct (obj_get ("on" ++ e) (listeners el)) as [[event'] |];
      [| reflexivity].
    cbn [run_listener registry]. destruct (registry el); reflexivity.
Qed.

(** C9 (what the code does). For every event name that names no member
    of [Object.prototype], handlers bound to one event of a node
    accumulate and one dispatch calls them in the order of registration.
    For an event name that names one, such as [constructor], which the
    display adapter reaches from the attribute key [onConstructor],
    [events[event]] is the inherited member: no array is made, the
    binding throws at [push], no handler is bound and a dispatch calls
    nothing. *)
Theorem bindEvent_inherited_name_throws :
  (forall el event h1 h2,
     registry_listening el -> inherited event = false ->
     exists el1 el2,
       bindEvent el event h1 = Ok el1
       /\ bindEvent el1 event h2 = Ok el2
       /\ dispatch el2 event = dispatch el event ++ [h1; h2]
       /\ (forall other, other <> event -> dispatch el2 other = dispatch el other))
  /\ (forall el event h,
        inherited event = true -> (registry el ≫= obj_get event) = None ->
        exists el',
          bindEvent el event h
          = Throw (TypeError "events[event].push is not a function") el'
          /\ forall e, dispatch el' e = dispatch el e)
  /\ toLowerCase (slice 2 "onConstructor") = "constructor"
  /\ inherited "constructor" = true
  /\ bindEvent (document_createElement "button") "constructor" 7
     = Throw (TypeError "events[event].push is not a function")
             (mkElement "button" [] [] [] (Some []) [])
  /\ dispatch
       (state_of (bindEvent (document_createElement "button") "constructor" 7))
       "constructor" = []
  /\ bindEvent (document_createElement "button") "click" 7
     = Ok (mkElement "button" [] [] [] (Some [("click", [7])])
                     [("onclick", DispatchAll "click")]).
Proof.
  split; [| split; [| repeat split]].
  - intros el event h1 h2 Hinv Hname.
    destruct (bindEvent_accumulates el event h1 h2 Hinv Hname)
      as (el1 & el2 & H1 & H2 & _ & _ & Hd & Hother & _).
    exists el1, el2. repeat split; assumption.
  - intros el event h Hname Hown.
    destruct (bindEvent_inherited el event h Hname Hown) as (el' & Hrun & _ & Hd).
    exists el'. split; assumption.
Qed.

(** ** The attribute-binding policy on the live-property keys *)

(** C7 (what the code does). The display adapter assigns [checked],
    [disabled], [selected] and [value] as properties. The patcher assigns
    [checked], [disabled] and [value] as properties when the value is not
    [undefined], but it has no case for [selected]: that key falls through
    to [setAttribute] (to [removeAttribute] for [undefined]), and a record
    [(selected, true)] leaves the [selected] property unset. *)
Theorem patchAttrs_selected_falls_to_setAttribute
  (e : Element) (cs : list dnode) (v : jsval) :
  createDOMElement_attr e ("checked", v) = setProperty "checked" v e
  /\ createDOMElement_attr e ("disabled", v) = setProperty "disabled" v e
  /\ createDOMElement_attr e ("selected", v) = setProperty "selected" v e
  /\ createDOMElement_attr e ("value", v) = setProperty "value" v e
  /\ patchAttrs (DElement e cs) [("checked", v)]
     = Ok (DElement (if strict_eq v undefined then removeAttribute "checked" e
                     else setProperty "checked" v e) cs)
  /\ patchAttrs (DElement e cs) [("disabled", v)]
     = Ok (DElement (if strict_eq v undefined then removeAttribute "disabled" e
                     else setProperty "disabled" v e) cs)
  /\ patchAttrs (DElement e cs) [("value", v)]
     = Ok (DElement (if strict_eq v undefined then removeAttribute "value" e
                     else setProperty "value" v e) cs)
  /\ patchAttrs (DElement e cs) [("selected", v)]
     = Ok (DElement (if strict_eq v undefined then removeAttribute "selected" e
                     else setAttribute "selected" v e) cs)
  /\ patchAttrs (DElement (document_createElement "option") [])
                [("selected", JPrim (PBool true))]
     = Ok (DElement (mkElement "option" [("selected", Lit "true")] [] [] None [])
                    [])
  /\ createDOMElement (VElem "option" [("selected", JPrim (PBool true))] [])
     = Some (DElement
               (mkElement "option" [] [("selected", JPrim (PBool true))] []
                          None []) []).
Proof.
  repeat split; cbn; destruct (strict_eq v undefined); reflexivity.
Qed.

(** ** An UPDATE patch addressed at a missing child *)

Lemma patch_inner_loop (kids : list (option Patch)) (i : nat) (parent : dnode) :
  (fix loop (childPatches : list (option Patch)) (i : nat) (parent : dnode)
     : outcome dnode :=
     match childPatches with
     | [] => Ok parent
     | p :: rest =>
         match p with
         | Some p => patch_switch p i parent
         | None => Ok parent
         end >>= loop rest (S i)
     end) kids i parent
  = patchChildren_from i parent kids.
Proof.
  revert i parent. induction kids as [| p kids IH]; intros i parent;
    [reflexivity |].
  cbn [patchChildren_from]. unfold patch.
  destruct p as [p |].
  - destruct (patch_switch p i parent) as [parent' | e parent']; cbn [bind];
      [apply IH | reflexivity].
  - cbn [bind]. apply IH.
Qed.

(** [patch] on an UPDATE patch computes what the source case computes. *)
Lemma patch_update_equation (parent : dnode) attrs kids (index : nat) :
  patch parent (Some (UPDATE attrs kids)) index =
  match childNodes parent !! index with
  | Some element =>
      lift (fun element => replaceChildAt index element parent)
           (patchAttrs element attrs >>= fun element =>
            patchChildren element kids)
  | None => Ok parent
  end.
Proof.
  unfold patch, patchChildren. cbn [patch_switch].
  destruct (childNodes parent !! index) as [element |]; [| reflexivity].
  destruct (patchAttrs element attrs) as [element' | e element']; cbn [bind];
    [| reflexivity].
  rewrite patch_inner_loop. reflexivity.
Qed.

(** C3 (as the code has it). An UPDATE patch applied at an index where the
    parent has no display child is skipped: [patch] returns normally and
    the parent is left as it was. *)
Theorem patch_update_missing_child_skipped (parent : dnode)
  (attrs : list (string * jsval)) (kids : list (option Patch)) (index : nat) :
  childNodes parent !! index = None ->
  patch parent (Some (UPDATE attrs kids)) index = Ok parent.
Proof. intros H. rewrite patch_update_equation, H. reflexivity. Qed.

Lemma patch_update_missing_child_skipped_witness :
  childNodes (DElement (document_createElement "div") []) !! 0 = None
  /\ patch (DElement (document_createElement "div") [])
           (Some (UPDATE [("id", JPrim (PStr "x"))] [Some REMOVE])) 0
     = Ok (DElement (document_createElement "div") []).
Proof.
  split; [reflexivity |].
  apply (patch_update_missing_child_skipped
           (DElement (document_createElement "div") [])
           [("id", JPrim (PStr "x"))] [Some REMOVE] 0).
  reflexivity.
Defined.

(** C3, as stated, fails: no failure surfaces. With the cache holding a
    [p] element and the container empty, rendering a [p] element with a new
    attribute diffs to UPDATE, addresses child 0, finds none, and the call
    returns normally with the container still empty. *)
Lemma mount_update_missing_child_no_failure :
  diff (VElem "p" [] []) (VElem "p" [("id", JPrim (PStr "x"))] [])
  = Some (UPDATE [("id", JPrim (PStr "x"))] [])
  /\ (exists w',
        mount (Node 0) (VElem "p" [("id", JPrim (PStr "x"))] [])
              (app_world {[ 0 := VElem "p" [] [] ]} [])
        = Ok w'
        /\ display w' !! 0 = Some (DElement (document_createElement "div") []))
  /\ ~ (exists e w',
          mount (Node 0) (VElem "p" [("id", JPrim (PStr "x"))] [])
                (app_world {[ 0 := VElem "p" [] [] ]} [])
          = Throw e w').
Proof.
  split; [reflexivity |]. split.
  - eexists. split; [reflexivity |]. reflexivity.
  - intros (e & w' & H). vm_compute in H. discriminate.
Qed.

(** ** A container that cannot be resolved *)

Lemma resolve_querySelector (tgt : target) (w w' : world) :
  querySelector w' = querySelector w -> resolve tgt w' = resolve tgt w.
Proof. intros H. destruct tgt; cbn; [rewrite H |..]; reflexivity. Qed.

Lemma first_render_element (vNode : vnode) (e : Element) (kids : list dnode) :
  first_render vNode (DElement e kids)
  = Ok (DElement e (match createDOMElement vNode with
                    | Some d => [d]
                    | None => []
                    end)).
Proof.
  unfold first_render. cbn [clearChildren].
  destruct (createDOMElement vNode); reflexivity.
Qed.

(** C8. When the target of [mount] resolves to no container, the call
    logs one "Mount target not found:" entry with the target, returns
    normally, and changes neither a display node nor the mount cache. *)
Theorem mount_unresolved_reported_and_skipped
  (tgt : target) (vNode : vnode) (w : world) :
  resolve tgt w = None ->
  exists w',
    mount tgt vNode w = Ok w'
    /\ console w' = console w ++ [("Mount target not found:", tgt)]
    /\ display w' = display w
    /\ virtualTreeCache w' = virtualTreeCache w
    /\ querySelector w' = querySelector w.
Proof.
  intros H. unfold mount. rewrite H. eexists. repeat split.
Qed.

Lemma mount_unresolved_reported_and_skipped_witness :
  resolve (Selector "#missing") (app_world ∅ []) = None
  /\ exists w',
       mount (Selector "#missing") (VText "hello") (app_world ∅ []) = Ok w'
       /\ console w' = [("Mount target not found:", Selector "#missing")]
       /\ display w' = display (app_world ∅ []).
Proof.
  split; [reflexivity |].
  destruct (mount_unresolved_reported_and_skipped
              (Selector "#missing") (VText "hello") (app_world ∅ []) eq_refl)
    as (w' & Hm & Hc & Hd & _).
  exists w'. repeat split; assumption.
Defined.



(** ** Rendering the same description twice *)

Lemma SFeqb_refl (x : spec_float) : truthy_num x = true -> SFeqb x x = true.
Proof.
  destruct x as [s | s | | s m e]; cbn [truthy_num]; try discriminate; intros _.
  - destruct s; reflexivity.
  - unfold SFeqb, SFcompare.
    destruct s; rewrite Z.compare_refl, Pos.compare_cont_refl; reflexivity.
Qed.

Lemma strict_eq_prim_refl (p : prim) :
  truthy_prim p = true -> strict_eq_prim p p = true.
Proof.
  destruct p as [| | b | x | s]; cbn; try discriminate.
  - intros ->. reflexivity.
  - apply SFeqb_refl.
  - intros _. apply String.eqb_refl.
Qed.

Lemma filter_none {A : Type} (f : A -> bool) (l : list A) :
  (forall x, In x l -> f x = false) -> List.filter f l = [].
Proof.
  induction l as [| x l IH]; intros H; [reflexivity |].
  cbn [List.filter]. rewrite (H x (or_introl eq_refl)).
  apply IH. intros y Hy. apply H. right. exact Hy.
Qed.

Lemma obj_read_unique (attrs : list (string * jsval)) (k : string) (v : jsval) :
  unique_keys attrs = true -> In (k, v) attrs -> obj_read k attrs = v.
Proof.
  intros Huniq Hin. unfold obj_read.
  assert (Hget : obj_get k attrs = Some v); [| rewrite Hget; reflexivity].
  revert Huniq Hin.
  induction attrs as [| [k' v'] attrs IH]; cbn [unique_keys In obj_get];
    [contradiction |].
  intros [Hfresh Huniq]%andb_prop [Heq | Hin].
  - injection Heq as -> ->. rewrite String.eqb_refl. reflexivity.
  - destruct (String.eqb k' k) eqn:E; [| apply IH; assumption].
    apply String.eqb_eq in E. subst k'.
    rewrite (obj_has_keys attrs k) in Hfresh; [discriminate |].
    unfold obj_keys. apply (in_map fst attrs (k, v)), Hin.
Qed.

Lemma diffAttrs_self (attrs : list (string * jsval)) :
  unique_keys attrs = true ->
  forallb (fun kv => strict_eq (snd kv) (snd kv)) attrs = true ->
  diffAttrs (Some attrs) (Some attrs) = [].
Proof.
  intros Huniq Hself. rewrite diffAttrs_lists.
  rewrite !filter_none; [reflexivity | |].
  - intros k Hk. unfold obj_in. rewrite (obj_has_keys attrs k Hk). reflexivity.
  - intros [k v] Hkv. cbn [fst snd].
    rewrite (obj_read_unique attrs k v Huniq Hkv).
    rewrite forallb_forall in Hself. pose proof (Hself (k, v) Hkv) as Hv.
    cbn [snd] in Hv. rewrite Hv. reflexivity.
Qed.

(** A steady description diffs against itself to a quiet patch. *)
Lemma diff_self_quiet (D : vnode) :
  steady D = true -> quiet_opt (diff D D) = true.
Proof.
  induction D as [p | tag attrs children IH | items _] using vnode_nested_ind.
  - cbn [steady]. intros [Habs | Htruthy]%orb_prop.
    + destruct p as [| | [|] | x | s]; try discriminate; reflexivity.
    + rewrite diff_equation. cbn [truthy]. rewrite Htruthy.
      destruct p as [| | [|] | x | s]; try discriminate; try reflexivity;
        cbn -[strict_eq_prim];
        rewrite (strict_eq_prim_refl _ Htruthy); reflexivity.
  - cbn [steady]. intros [[Huniq Hself]%andb_prop Hkids]%andb_prop.
    rewrite diff_same_tag, (diffAttrs_self attrs Huniq Hself).
    rewrite <- diff_loop_diffChildren. cbn [quiet_opt quiet].
    induction IH as [| c cs Hc _ IHcs]; [reflexivity |].
    cbn [forallb] in Hkids. apply andb_prop in Hkids as [Hsc Hscs].
    cbn [diff_loop tl forallb]. apply andb_true_intro. split.
    + apply (Hc Hsc).
    + apply (IHcs Hscs).
  - intros _. reflexivity.
Qed.

Lemma replaceChildAt_same (parent element : dnode) (index : nat) :
  childNodes parent !! index = Some element ->
  replaceChildAt index element parent = parent.
Proof.
  destruct parent as [data | e cs]; [reflexivity |].
  cbn [childNodes replaceChildAt]. intros H. rewrite (list_insert_id _ _ _ H).
  reflexivity.
Qed.

(** Applying a quiet patch changes nothing. *)
Lemma patch_quiet (p : Patch) :
  quiet p = true ->
  forall index parent, patch_switch p index parent = Ok parent.
Proof.
  induction p as [n | | n | attrs kids IH] using Patch_nested_ind;
    cbn [quiet]; try discriminate.
  - intros Habs index parent. cbn [patch_switch].
    destruct n as [[| | [|] | x | s] | |]; try discriminate; reflexivity.
  - destruct attrs as [| record attrs]; [| discriminate].
    intros Hkids index parent.
    change (patch parent (Some (UPDATE [] kids)) index = Ok parent).
    rewrite patch_update_equation.
    destruct (childNodes parent !! index) as [element |] eqn:Hel;
      [| reflexivity].
    cbn [patchAttrs bind]. unfold patchChildren.
    assert (Hloop : forall i, patchChildren_from i element kids = Ok element).
    { clear Hel. induction IH as [| q qs Hq _ IHqs]; intros i; [reflexivity |].
      cbn [forallb] in Hkids. apply andb_prop in Hkids as [Hq1 Hqs1].
      cbn [patchChildren_from]. unfold patch.
      destruct q as [q |]; [rewrite (Hq Hq1) |]; cbn [bind];
        apply (IHqs Hqs1). }
    rewrite Hloop. cbn [lift].
    rewrite (replaceChildAt_same parent element index Hel). reflexivity.
Qed.

Lemma steady_falsy_absent (D : vnode) :
  steady D = true -> truthy D = false -> absent D = true.
Proof.
  destruct D as [p | |]; [| discriminate | discriminate].
  cbn [steady truthy]. intros [H | H]%orb_prop Hf; [exact H | congruence].
Qed.

Lemma absent_not_rendered (D : vnode) :
  absent D = true -> createDOMElement D = None /\ truthy D = false.
Proof.
  destruct D as [[| | [|] | x | s] | |]; try discriminate; split; reflexivity.
Qed.

Lemma clearChildren_short (container : dnode) :
  length (childNodes container) = 0 -> clearChildren container = container.
Proof.
  destruct container as [data | e [| k ks]]; cbn; try reflexivity; discriminate.
Qed.

(** The container after a render with an absent description has no child
    left, given it had at most one. *)
Lemma render_absent_empties (old D : vnode) (container container' : dnode) :
  absent D = true ->
  (truthy old = true -> length (childNodes container) <= 1) ->
  (if negb (truthy old) then first_render D container
   else patch container (diff old D) 0) = Ok container' ->
  length (childNodes container') = 0.
Proof.
  intros Habs Hsingle. destruct (absent_not_rendered D Habs) as [Hnone Hfalsy].
  destruct (truthy old) eqn:Hold; cbn [negb].
  - rewrite diff_equation, Hold, Hfalsy. cbn [negb patch patch_switch].
    specialize (Hsingle eq_refl).
    destruct container as [data | e [| k [| k' ks]]]; cbn in Hsingle |- *;
      try lia; intros [= <-]; reflexivity.
  - unfold first_render. rewrite Hnone. intros [= <-].
    destruct container; reflexivity.
Qed.

(** C2 (as the code has it). For a steady description [D] (no empty
    string, zero or [NaN] as a text; attribute values strictly equal to
    themselves), [diff D D] is quiet at every position: NONE, CREATE of an
    absent node, or UPDATE with no attribute change and quiet child
    patches. In a world where a truthy cache entry goes with at most one
    child, a second [mount] of [D] into the same target returns normally
    and leaves every display node and the cache as the first left them. *)
Theorem mount_twice_same_display
  (tgt : target) (D : vnode) (w w1 : world) :
  steady D = true ->
  cached_single w ->
  mount tgt D w = Ok w1 ->
  quiet_opt (diff D D) = true
  /\ exists w2,
       mount tgt D w1 = Ok w2
       /\ display w2 = display w1
       /\ virtualTreeCache w2 = virtualTreeCache w1.
Proof.
  intros Hsteady Hsingle Hmount.
  split; [apply diff_self_quiet, Hsteady |].
  unfold mount in Hmount.
  destruct (resolve tgt w) as [c |] eqn:Hres.
  - destruct (display w !! c) as [container |] eqn:Hdisp; [| discriminate].
    set (old := match virtualTreeCache w !! c with
                | Some old => old | None => vundefined end) in Hmount.
    destruct (if negb (truthy old) then first_render D container
              else patch container (diff old D) 0)
      as [container' | e container'] eqn:Hrender; [| discriminate].
    injection Hmount as <-.
    unfold mount.
    assert (Hres' : forall w2, querySelector w2 = querySelector w ->
                                resolve tgt w2 = Some c).
    { intros w2 Hq. rewrite (resolve_querySelector tgt w w2 Hq). exact Hres. }
    rewrite Hres' by reflexivity.
    cbn [display virtualTreeCache querySelector console].
    rewrite !lookup_insert_eq, !insert_insert_eq.
    destruct (truthy D) eqn:HD; cbn [negb].
    + pose proof (diff_self_quiet D Hsteady) as Hq.
      destruct (diff D D) as [p |]; cbn [patch quiet_opt] in Hq |- *.
      * rewrite (patch_quiet p Hq). eexists. repeat split; cbn [display virtualTreeCache];
        rewrite ?insert_insert_eq; reflexivity.
      * eexists. repeat split; cbn [display virtualTreeCache];
        rewrite ?insert_insert_eq; reflexivity.
    + pose proof (steady_falsy_absent D Hsteady HD) as Habs.
      assert (Hlen : length (childNodes container') = 0).
      { apply (render_absent_empties old D container container' Habs);
          [| exact Hrender].
        intros Hold. subst old.
        destruct (virtualTreeCache w !! c) as [cached |] eqn:Hc;
          [| discriminate].
        apply (Hsingle c cached container Hc Hold Hdisp). }
      unfold first_render.
      rewrite (proj1 (absent_not_rendered D Habs)),
              (clearChildren_short container' Hlen).
      eexists. repeat split; cbn [display virtualTreeCache];
        rewrite ?insert_insert_eq; reflexivity.
  - injection Hmount as <-. unfold mount.
    assert (Hres' : forall w2, querySelector w2 = querySelector w ->
                                resolve tgt w2 = None).
    { intros w2 Hq. rewrite (resolve_querySelector tgt w w2 Hq). exact Hres. }
    rewrite Hres' by reflexivity. eexists. repeat split; cbn [display virtualTreeCache];
        rewrite ?insert_insert_eq; reflexivity.
Qed.

Lemma cached_single_empty (qs : string -> option nat) (d : gmap nat dnode)
  (log : list (string * target)) :
  cached_single (mkWorld qs d ∅ log).
Proof.
  intros c old container H. cbn [virtualTreeCache] in H.
  rewrite lookup_empty in H. discriminate.
Qed.

Lemma mount_twice_same_display_witness :
  steady (VElem "div" [("id", JPrim (PStr "x"))] [VText "a"; VPrim PNull]) = true
  /\ cached_single (app_world ∅ [])
  /\ exists w1,
       mount (Selector "#app")
             (VElem "div" [("id", JPrim (PStr "x"))] [VText "a"; VPrim PNull])
             (app_world ∅ []) = Ok w1
       /\ exists w2,
            mount (Selector "#app")
                  (VElem "div" [("id", JPrim (PStr "x"))] [VText "a"; VPrim PNull])
                  w1 = Ok w2
            /\ display w2 = display w1
            /\ virtualTreeCache w2 = virtualTreeCache w1.
Proof.
  split; [reflexivity |].
  split; [apply cached_single_empty |].
  eexists. split; [reflexivity |].
  apply (mount_twice_same_display (Selector "#app")
           (VElem "div" [("id", JPrim (PStr "x"))] [VText "a"; VPrim PNull])
           (app_world ∅ []) _ eq_refl (cached_single_empty _ _ _) eq_refl).
Defined.

(** C2, as stated, fails: at the position of an absent child the second
    diff is neither NONE nor an UPDATE, it is a CREATE of the absent
    value. *)
Lemma diff_self_absent_child_creates :
  diff (VElem "div" [] [VPrim PNull]) (VElem "div" [] [VPrim PNull])
  = Some (UPDATE [] [Some (CREATE (VPrim PNull))])
  /\ quiet_as_stated_opt
       (diff (VElem "div" [] [VPrim PNull]) (VElem "div" [] [VPrim PNull]))
     = false.
Proof. split; reflexivity. Qed.

(** Outside the steady descriptions the second render does change the
    display: a zero text child counts as missing for [diff], which answers
    CREATE, and the patcher appends a second text node. *)
Lemma mount_twice_zero_text_duplicates :
  exists w1 w2,
    mount (Selector "#app") (VElem "span" [] [VNum (S754_zero false)])
          (app_world ∅ []) = Ok w1
    /\ mount (Selector "#app") (VElem "span" [] [VNum (S754_zero false)]) w1
       = Ok w2
    /\ display w1 !! 0
       = Some (DElement (document_createElement "div")
                 [DElement (document_createElement "span") [DText (Lit "0")]])
    /\ display w2 !! 0
       = Some (DElement (document_createElement "div")
                 [DElement (document_createElement "span")
                           [DText (Lit "0"); DText (Lit "0")]]).
Proof. do 2 eexists. repeat split; reflexivity. Qed.

(** ** Every render keeps [cached_single] *)

Lemma state_of_lift {S T : Type} (f : S -> T) (m : outcome S) :
  state_of (lift f m) = f (state_of m).
Proof. destruct m; reflexivity. Qed.

Lemma replaceChildAt_length (index : nat) (child parent : dnode) :
  length (childNodes (replaceChildAt index child parent))
  = length (childNodes parent).
Proof.
  destruct parent as [data | e cs]; [reflexivity |].
  cbn [replaceChildAt childNodes]. apply length_insert.
Qed.

(** A patch other than CREATE, applied at index 0, leaves at most one child
    where there was at most one. *)
Lemma patch_root_single (p : Patch) (parent : dnode) :
  (forall n, p <> CREATE n) ->
  length (childNodes parent) <= 1 ->
  length (childNodes (state_of (patch_switch p 0 parent))) <= 1.
Proof.
  intros Hnc Hlen. destruct p as [n | | n | attrs kids].
  - exfalso. apply (Hnc n). reflexivity.
  - cbn [patch_switch]. destruct parent as [data | e [| k ks]]; cbn in Hlen |- *; lia.
  - cbn [patch_switch]. destruct (createDOMElement n) as [d |]; [| exact Hlen].
    destruct parent as [data | e [| k ks]]; cbn in Hlen |- *; lia.
  - change (patch_switch (UPDATE attrs kids) 0 parent)
      with (patch parent (Some (UPDATE attrs kids)) 0).
    rewrite patch_update_equation.
    destruct (childNodes parent !! 0); [| exact Hlen].
    rewrite state_of_lift, replaceChildAt_length. exact Hlen.
Qed.

Lemma diff_truthy_not_create (old new : vnode) (p : Patch) :
  truthy old = true -> diff old new = Some p -> forall n, p <> CREATE n.
Proof.
  intros Hold. rewrite diff_equation, Hold. cbn [negb].
  repeat match goal with
         | |- context [if ?b then _ else _] => destruct b
         end; intros [= <-] n; discriminate.
Qed.

Lemma first_render_single (vNode : vnode) (container : dnode) :
  length (childNodes (state_of (first_render vNode container))) <= 1.
Proof.
  unfold first_render.
  destruct (createDOMElement vNode), container; cbn; lia.
Qed.

(** The condition of C2 on the world holds before any render and is kept
    by every [mount], whether it returns or throws. *)
Lemma mount_cached_single (tgt : target) (vNode : vnode) (w : world) :
  cached_single w -> cached_single (state_of (mount tgt vNode w)).
Proof.
  intros Hinv. unfold mount.
  destruct (resolve tgt w) as [c |]; [| exact Hinv].
  destruct (display w !! c) as [container |] eqn:Hdisp; [| exact Hinv].
  set (old := match virtualTreeCache w !! c with
              | Some old => old | None => vundefined end).
  assert (Hafter :
            truthy old = true \/ negb (truthy old) = true ->
            length (childNodes (state_of
              (if negb (truthy old) then first_render vNode container
               else patch container (diff old vNode) 0))) <= 1).
  { intros _. destruct (truthy old) eqn:Hold; cbn [negb].
    - assert (Hlen : length (childNodes container) <= 1).
      { subst old. destruct (virtualTreeCache w !! c) as [cached |] eqn:Hc;
          [| discriminate].
        apply (Hinv c cached container Hc Hold Hdisp). }
      destruct (diff old vNode) as [p |] eqn:Hp; cbn [patch state_of];
        [| exact Hlen].
      apply patch_root_single; [| exact Hlen].
      apply (diff_truthy_not_create old vNode p Hold Hp).
    - apply first_render_single. }
  destruct (if negb (truthy old) then first_render vNode container
            else patch container (diff old vNode) 0)
    as [container' | e container']; cbn [state_of] in Hafter |- *;
    intros c' cached' node'; cbn [virtualTreeCache display];
    rewrite ?lookup_insert; repeat case_decide; subst;
    try (intros [= <-] _ [= <-]); try (intros _ _ [= <-]);
    try (apply Hafter; destruct (truthy old); auto);
    try apply Hinv.
Qed.

(* ===================================================================== *)
(** * Further properties of events.js *)
(* ===================================================================== *)

(** ** Objects as maps: keys, deletion *)

Section ObjKeys.
Context {V : Type}.
Implicit Types (o : list (string * V)) (k : string) (v : V).

Lemma obj_get_keys o k v : obj_get k o = Some v -> In k (obj_keys o).
Proof.
  induction o as [| [k' v'] o IH]; cbn [obj_get obj_keys map fst In];
    [discriminate |].
  destruct (String.eqb k' k) eqn:E.
  - apply String.eqb_eq in E. intros _. left. exact E.
  - intros H. right. apply IH, H.
Qed.

Lemma obj_get_not_key o k : ~ In k (obj_keys o) -> obj_get k o = None.
Proof.
  intros Hn. destruct (obj_get k o) as [v |] eqn:E; [| reflexivity].
  exfalso. apply Hn, (obj_get_keys o k v E).
Qed.

Lemma obj_keys_set_in o k v x :
  In x (obj_keys (obj_set k v o)) <-> x = k \/ In x (obj_keys o).
Proof.
  induction o as [| [k' v'] o IH]; cbn [obj_set obj_keys map fst In].
  - intuition congruence.
  - destruct (String.eqb k' k) eqn:E; cbn [obj_keys map fst In].
    + apply String.eqb_eq in E. subst k'. intuition congruence.
    + fold (obj_keys (obj_set k v o)). fold (obj_keys o). rewrite IH. tauto.
Qed.

Lemma NoDup_obj_set o k v : NoDup (obj_keys o) -> NoDup (obj_keys (obj_set k v o)).
Proof.
  induction o as [| [k' v'] o IH]; cbn [obj_set obj_keys map fst].
  - intros _. apply NoDup_singleton.
  - intros [Hnotin Hrest]%NoDup_cons.
    destruct (String.eqb k' k) eqn:E; cbn [obj_keys map fst].
    + apply NoDup_cons. split; assumption.
    + apply NoDup_cons. split; [| apply IH, Hrest].
      fold (obj_keys (obj_set k v o)). rewrite list_elem_of_In, obj_keys_set_in.
      apply String.eqb_neq in E. intros [-> | Hin]; [congruence |].
      apply Hnotin, list_elem_of_In, Hin.
Qed.

Lemma obj_keys_delete_in o k x :
  In x (obj_keys (obj_delete k o)) -> In x (obj_keys o).
Proof.
  induction o as [| [k' v'] o IH]; cbn [obj_delete obj_keys map fst In];
    [tauto |].
  destruct (String.eqb k' k); cbn [obj_keys map fst In]; [tauto |].
  intros [H | H]; [left; exact H | right; apply IH, H].
Qed.

Lemma NoDup_obj_delete o k : NoDup (obj_keys o) -> NoDup (obj_keys (obj_delete k o)).
Proof.
  induction o as [| [k' v'] o IH]; cbn [obj_delete obj_keys map fst];
    [intros H; exact H |].
  intros [Hnotin Hrest]%NoDup_cons.
  destruct (String.eqb k' k); [exact Hrest |].
  cbn [obj_keys map fst]. apply NoDup_cons. split; [| apply IH, Hrest].
  intros Hin. apply Hnotin, list_elem_of_In, (obj_keys_delete_in o k k').
  apply list_elem_of_In, Hin.
Qed.

Lemma obj_get_delete o k k' :
  NoDup (obj_keys o) ->
  obj_get k' (obj_delete k o) = if String.eqb k k' then None else obj_get k' o.
Proof.
  induction o as [| [k0 v0] o IH]; cbn [obj_delete obj_get obj_keys map fst].
  - intros _. destruct (String.eqb k k'); reflexivity.
  - intros [Hnotin Hrest]%NoDup_cons.
    destruct (String.eqb k0 k) eqn:E0.
    + apply String.eqb_eq in E0. subst k0.
      destruct (String.eqb k k') eqn:E; [| reflexivity].
      apply String.eqb_eq in E. subst k'. apply obj_get_not_key.
      intros Hin. apply Hnotin, list_elem_of_In, Hin.
    + cbn [obj_get]. rewrite (IH Hrest).
      destruct (String.eqb k0 k') eqn:E1; [| reflexivity].
      apply String.eqb_eq in E1. subst k'.
      rewrite String.eqb_sym, E0. reflexivity.
Qed.

End ObjKeys.

Section PlainObjKeys.
Context {V : Type}.
Implicit Types (o : list (string * V)) (k : string) (v : V).

Lemma obj_keys_insert_index o n k v :
  obj_keys (insert_index n k v o) ≡ₚ k :: obj_keys o.
Proof.
  induction o as [| [k' v'] o IH]; cbn [insert_index]; [reflexivity |].
  destruct (array_index k') as [n' |]; [destruct (N.ltb n' n) |];
    try reflexivity.
  cbn [obj_keys map fst]. fold (obj_keys (insert_index n k v o)).
  fold (obj_keys o). rewrite IH. apply perm_swap.
Qed.

Lemma obj_keys_set_has o k v :
  obj_has k o = true -> obj_keys (obj_set k v o) = obj_keys o.
Proof.
  induction o as [| [k' v'] o IH]; cbn [obj_has obj_set]; [discriminate |].
  destruct (String.eqb k' k) eqn:E; cbn [obj_keys map fst]; [reflexivity |].
  intros Hhas. f_equal. apply IH, Hhas.
Qed.

Lemma obj_keys_define o k v :
  obj_keys (obj_define k v o)
  ≡ₚ if obj_has k o then obj_keys o else k :: obj_keys o.
Proof.
  unfold obj_define. destruct (obj_has k o) eqn:Hhas.
  - rewrite (obj_keys_set_has o k v Hhas). reflexivity.
  - destruct (array_index k) as [n |]; [apply obj_keys_insert_index |].
    unfold obj_keys. rewrite map_app. cbn [map fst].
    symmetry. apply Permutation_cons_append.
Qed.

Lemma NoDup_obj_define o k v :
  NoDup (obj_keys o) -> NoDup (obj_keys (obj_define k v o)).
Proof.
  intros Hnd. rewrite obj_keys_define. destruct (obj_has k o) eqn:Hhas;
    [exact Hnd |].
  apply NoDup_cons. split; [| exact Hnd].
  intros Hin. apply list_elem_of_In in Hin.
  rewrite (obj_has_keys o k Hin) in Hhas. discriminate.
Qed.

Lemma NoDup_obj_put o k v :
  NoDup (obj_keys o) -> NoDup (obj_keys (obj_put k v o)).
Proof.
  intros Hnd. unfold obj_put.
  destruct (negb (obj_has k o) && String.eqb k "__proto__");
    [exact Hnd | apply NoDup_obj_define, Hnd].
Qed.

Lemma obj_define_fresh o k v :
  obj_has k o = false -> array_index k = None ->
  obj_define k v o = o ++ [(k, v)].
Proof. intros Hhas Hidx. unfold obj_define. rewrite Hhas, Hidx. reflexivity. Qed.

End PlainObjKeys.

(** ** [indexOf] and [splice] *)

Lemma indexOf_split (h : nat) (hs : list nat) :
  match indexOf Nat.eqb h hs with
  | Some index =>
      exists before after,
        hs = before ++ h :: after /\ ~ In h before
        /\ length before = index /\ delete index hs = before ++ after
  | None => ~ In h hs
  end.
Proof.
  induction hs as [| x hs IH]; cbn [indexOf]; [intros [] |].
  destruct (Nat.eqb x h) eqn:E.
  - apply Nat.eqb_eq in E. subst x. exists [], hs. repeat split. intros [].
  - apply Nat.eqb_neq in E.
    destruct (indexOf Nat.eqb h hs) as [index |]; cbn [fmap option_fmap option_map].
    + destruct IH as (before & after & -> & Hnot & Hlen & Hdel).
      exists (x :: before), after. cbn [app length delete].
      repeat split; [| congruence | cbn; rewrite Hdel; reflexivity].
      intros [-> | Hin]; [congruence | contradiction].
    + intros [-> | Hin]; [congruence | contradiction].
Qed.

(** ** Removing handlers *)

Lemma distinct_keys_fresh (tag : string) :
  distinct_keys (document_createElement tag).
Proof. split; apply NoDup_nil_2. Qed.

Lemma distinct_keys_bindEvent_state (el : Element) (event : string) (h : nat) :
  distinct_keys el -> distinct_keys (state_of (bindEvent el event h)).
Proof.
  intros [Hreg Hls]. unfold distinct_keys. rewrite bindEvent_equation.
  set (events := match registry el with Some evs => evs | None => [] end) in *.
  destruct (obj_get event events) as [hs |];
    [| destruct (inherited event)]; cbn [state_of registry listeners];
    split; repeat (apply NoDup_obj_set || apply NoDup_obj_put); assumption.
Qed.

Lemma distinct_keys_bindEvent (el el' : Element) (event : string) (h : nat) :
  distinct_keys el -> bindEvent el event h = Ok el' -> distinct_keys el'.
Proof.
  intros Hkeys Hrun.
  pose proof (distinct_keys_bindEvent_state el event h Hkeys) as H.
  rewrite Hrun in H. exact H.
Qed.

(** The element [removeListener] leaves, whether it returns or throws. *)
Lemma removeListener_equation (el : Element) (event : string) (h : nat) :
  state_of (removeListener el event h)
  = match registry el ≫= obj_get (strip_on event) with
    | None => el
    | Some handlers =>
        match indexOf Nat.eqb h handlers with
        | None => el
        | Some index =>
            if Nat.eqb (length (delete index handlers)) 0 then
              mkElement (tagName el) (attributes el) (props el) (style el)
                (Some (obj_delete (strip_on event)
                         (obj_set (strip_on event) (delete index handlers)
                            (match registry el with
                             | Some evs => evs
                             | None => []
                             end))))
                (obj_delete ("on" ++ strip_on event) (listeners el))
            else
              mkElement (tagName el) (attributes el) (props el) (style el)
                (Some (obj_set (strip_on event) (delete index handlers)
                         (match registry el with
                          | Some evs => evs
                          | None => []
                          end)))
                (listeners el)
        end
    end.
Proof.
  unfold removeListener, obj_slot.
  destruct (registry el) as [events |]; [| reflexivity].
  cbn [mbind option_bind].
  destruct (obj_get (strip_on event) events) as [hs |].
  - destruct (indexOf Nat.eqb h hs) as [index |]; [| reflexivity].
    destruct (Nat.eqb (length (delete index hs)) 0); reflexivity.
  - destruct (inherited (strip_on event)); reflexivity.
Qed.

(** [removeListener] returns for a name that names no member of
    [Object.prototype]. *)
Lemma removeListener_ok (el : Element) (event : string) (h : nat) :
  inherited (strip_on event) = false ->
  removeListener el event h = Ok (state_of (removeListener el event h)).
Proof.
  intros Hname. unfold removeListener, obj_slot. rewrite Hname.
  destruct (registry el) as [events |]; [| reflexivity].
  destruct (obj_get (strip_on event) events) as [hs |]; [| reflexivity].
  destruct (indexOf Nat.eqb h hs) as [index |]; [| reflexivity].
  destruct (Nat.eqb (length (delete index hs)) 0); reflexivity.
Qed.

(** Under the name of a member of [Object.prototype] it throws as soon as
    the element has an events object, and changes nothing. *)
Lemma removeListener_inherited_throws (el : Element) (event : string) (h : nat)
  (events : list (string * list nat)) :
  registry el = Some events ->
  obj_get (strip_on event) events = None ->
  inherited (strip_on event) = true ->
  removeListener el event h
  = Throw (TypeError "handlers.indexOf is not a function") el.
Proof.
  intros Hreg Hown Hname. unfold removeListener, obj_slot.
  rewrite Hreg, Hown, Hname. reflexivity.
Qed.

(** The handler arrays after [removeListener]. *)
Lemma registry_removeListener (el : Element) (event e' : string) (h : nat) :
  distinct_keys el ->
  (registry (state_of (removeListener el event h)) ≫= obj_get e')
  = if String.eqb (strip_on event) e' then
      match registry el ≫= obj_get (strip_on event) with
      | Some hs =>
          match indexOf Nat.eqb h hs with
          | Some index =>
              if Nat.eqb (length (delete index hs)) 0 then None
              else Some (delete index hs)
          | None => Some hs
          end
      | None => None
      end
    else registry el ≫= obj_get e'.
Proof.
  intros [Hreg _]. rewrite removeListener_equation.
  set (ev := strip_on event).
  destruct (registry el ≫= obj_get ev) as [hs |] eqn:Ehs.
  - destruct (indexOf Nat.eqb h hs) as [index |].
    + rewrite (registry_read el e').
      set (events := match registry el with Some evs => evs | None => [] end) in *.
      destruct (Nat.eqb (length (delete index hs)) 0);
        cbn [registry mbind option_bind].
      * rewrite obj_get_delete by (apply NoDup_obj_set, Hreg).
        destruct (String.eqb ev e') eqn:E; [reflexivity |].
        apply String.eqb_neq in E. apply obj_get_set_ne, E.
      * destruct (String.eqb ev e') eqn:E.
        -- apply String.eqb_eq in E. subst e'. apply obj_get_set_eq.
        -- apply String.eqb_neq in E. apply obj_get_set_ne, E.
    + destruct (String.eqb ev e') eqn:E; [| reflexivity].
      apply String.eqb_eq in E. subst e'. exact Ehs.
  - destruct (String.eqb ev e') eqn:E; [| reflexivity].
    apply String.eqb_eq in E. subst e'. exact Ehs.
Qed.

(** The [on<event>] properties after [removeListener]. *)
Lemma listeners_removeListener (el : Element) (event e' : string) (h : nat) :
  distinct_keys el ->
  obj_get ("on" ++ e') (listeners (state_of (removeListener el event h)))
  = if String.eqb (strip_on event) e' then
      match registry el ≫= obj_get (strip_on event) with
      | Some hs =>
          match indexOf Nat.eqb h hs with
          | Some index =>
              if Nat.eqb (length (delete index hs)) 0 then None
              else obj_get ("on" ++ e') (listeners el)
          | None => obj_get ("on" ++ e') (listeners el)
          end
      | None => obj_get ("on" ++ e') (listeners el)
      end
    else obj_get ("on" ++ e') (listeners el).
Proof.
  intros [_ Hls]. rewrite removeListener_equation.
  set (ev := strip_on event).
  destruct (registry el ≫= obj_get ev) as [hs |];
    [| destruct (String.eqb ev e'); reflexivity].
  destruct (indexOf Nat.eqb h hs) as [index |];
    [| destruct (String.eqb ev e'); reflexivity].
  destruct (Nat.eqb (length (delete index hs)) 0); cbn [listeners];
    [| destruct (String.eqb ev e'); reflexivity].
  rewrite obj_get_delete by exact Hls.
  destruct (String.eqb ev e') eqn:E.
  - apply String.eqb_eq in E. subst e'. rewrite String.eqb_refl. reflexivity.
  - destruct (String.eqb ("on" ++ ev) ("on" ++ e')) eqn:E'; [| reflexivity].
    apply String.eqb_eq, on_event_inj in E'. apply String.eqb_neq in E.
    contradiction.
Qed.

Lemma distinct_keys_removeListener (el : Element) (event : string) (h : nat) :
  distinct_keys el -> distinct_keys (state_of (removeListener el event h)).
Proof.
  intros [Hreg Hls]. unfold distinct_keys. rewrite removeListener_equation.
  destruct (registry el ≫= obj_get (strip_on event)) as [hs |];
    [| split; assumption].
  destruct (indexOf Nat.eqb h hs) as [index |]; [| split; assumption].
  destruct (Nat.eqb (length (delete index hs)) 0); cbn [registry listeners];
    split; try assumption;
    repeat (apply NoDup_obj_delete || apply NoDup_obj_set); assumption.
Qed.

Lemma registry_listening_removeListener (el : Element) (event : string) (h : nat) :
  registry_listening el -> distinct_keys el ->
  registry_listening (state_of (removeListener el event h)).
Proof.
  intros Hinv Hkeys e'.
  rewrite listeners_removeListener, registry_removeListener by exact Hkeys.
  destruct (String.eqb (strip_on event) e') eqn:E; [| apply Hinv].
  apply String.eqb_eq in E. subst e'.
  specialize (Hinv (strip_on event)).
  destruct (registry el ≫= obj_get (strip_on event)) as [hs |]; [| exact Hinv].
  destruct (indexOf Nat.eqb h hs) as [index |]; [| exact Hinv].
  destruct (Nat.eqb (length (delete index hs)) 0); [reflexivity |].
  destruct (obj_get _ (listeners el)) as [l |]; [| discriminate].
  destruct Hinv as [-> _]. eauto.
Qed.

Lemma handlers_of_removeListener (el : Element) (event e' : string) (h : nat) :
  distinct_keys el ->
  handlers_of (state_of (removeListener el event h)) e'
  = if String.eqb (strip_on event) e' then
      match indexOf Nat.eqb h (handlers_of el e') with
      | Some index => delete index (handlers_of el e')
      | None => handlers_of el e'
      end
    else handlers_of el e'.
Proof.
  intros Hkeys. unfold handlers_of at 1.
  rewrite registry_removeListener by exact Hkeys.
  destruct (String.eqb (strip_on event) e') eqn:E; [| reflexivity].
  apply String.eqb_eq in E. subst e'. unfold handlers_of.
  destruct (registry el ≫= obj_get (strip_on event)) as [hs |]; [| reflexivity].
  destruct (indexOf Nat.eqb h hs) as [index |]; [| reflexivity].
  destruct (Nat.eqb (length (delete index hs)) 0) eqn:El; [| reflexivity].
  apply Nat.eqb_eq in El. destruct (delete index hs); [reflexivity | discriminate].
Qed.

Lemma removeListener_unbound (el : Element) (event : string) (h : nat) :
  ~ In h (handlers_of el (strip_on event)) ->
  state_of (removeListener el event h) = el.
Proof.
  rewrite removeListener_equation. unfold handlers_of. intros Hnot.
  destruct (registry el ≫= obj_get (strip_on event)) as [hs |]; [| reflexivity].
  pose proof (indexOf_split h hs) as Hs.
  destruct (indexOf Nat.eqb h hs) as [index |]; [| reflexivity].
  destruct Hs as (before & after & -> & _). exfalso. apply Hnot.
  apply in_or_app. right. left. reflexivity.
Qed.

(** X1. On an element in the state the event functions keep, and for an
    event name that, with one leading "on" removed, names no member of
    [Object.prototype], [removeListener] returns; it takes out the first
    occurrence of the handler among the handlers of the event, keeps the
    others in order, leaves every other event alone, changes nothing at
    all when the handler is not bound, and keeps that state. *)
Theorem removeListener_first_occurrence
  (el : Element) (event : string) (h : nat) :
  registry_listening el -> distinct_keys el ->
  inherited (strip_on event) = false ->
  exists el',
    removeListener el event h = Ok el'
    /\ (forall other, other <> strip_on event ->
          dispatch el' other = dispatch el other)
    /\ (In h (dispatch el (strip_on event)) ->
        exists before after,
          dispatch el (strip_on event) = before ++ h :: after
          /\ ~ In h before
          /\ dispatch el' (strip_on event) = before ++ after)
    /\ (~ In h (dispatch el (strip_on event)) -> el' = el)
    /\ registry_listening el'
    /\ distinct_keys el'.
Proof.
  intros Hinv Hkeys Hname.
  exists (state_of (removeListener el event h)).
  pose proof (registry_listening_removeListener el event h Hinv Hkeys) as Hinv'.
  pose proof (distinct_keys_removeListener el event h Hkeys) as Hkeys'.
  split; [apply removeListener_ok, Hname |].
  split; [| split; [| split; [| split; assumption]]].
  - intros other Hne. rewrite !dispatch_handlers_of by assumption.
    rewrite handlers_of_removeListener by exact Hkeys.
    destruct (String.eqb (strip_on event) other) eqn:E; [| reflexivity].
    apply String.eqb_eq in E. congruence.
  - rewrite !dispatch_handlers_of by assumption.
    rewrite handlers_of_removeListener, String.eqb_refl by exact Hkeys.
    intros Hin. pose proof (indexOf_split h (handlers_of el (strip_on event))) as Hs.
    destruct (indexOf Nat.eqb h _) as [index |]; [| contradiction].
    destruct Hs as (before & after & Heq & Hnot & _ & Hdel).
    exists before, after. repeat split; assumption.
  - rewrite dispatch_handlers_of by assumption.
    apply removeListener_unbound.
Qed.

Lemma removeListener_first_occurrence_witness :
  registry_listening
    (mkElement "a" [] [] [] (Some [("click", [1; 2; 1])])
               [("onclick", DispatchAll "click")])
  /\ distinct_keys
       (mkElement "a" [] [] [] (Some [("click", [1; 2; 1])])
                  [("onclick", DispatchAll "click")])
  /\ inherited (strip_on "onclick") = false
  /\ exists el',
       removeListener
         (mkElement "a" [] [] [] (Some [("click", [1; 2; 1])])
                    [("onclick", DispatchAll "click")]) "onclick" 1
       = Ok el'
       /\ (In 1 (dispatch
                   (mkElement "a" [] [] [] (Some [("click", [1; 2; 1])])
                              [("onclick", DispatchAll "click")])
                   (strip_on "onclick")) ->
           exists before after,
             dispatch
               (mkElement "a" [] [] [] (Some [("click", [1; 2; 1])])
                          [("onclick", DispatchAll "click")])
               (strip_on "onclick") = before ++ 1 :: after
             /\ ~ In 1 before
             /\ dispatch el' (strip_on "onclick") = before ++ after).
Proof.
  assert (H1 : registry_listening
                 (mkElement "a" [] [] [] (Some [("click", [1; 2; 1])])
                            [("onclick", DispatchAll "click")])).
  { apply (registry_listening_bindEvent_state
             (state_of (bindEvent (state_of (bindEvent (document_createElement "a")
                                                       "click" 1)) "click" 2))
             "click" 1).
    do 2 apply registry_listening_bindEvent_state.
    apply registry_listening_fresh. }
  assert (H2 : distinct_keys
                 (mkElement "a" [] [] [] (Some [("click", [1; 2; 1])])
                            [("onclick", DispatchAll "click")])).
  { split; apply NoDup_singleton. }
  split; [exact H1 |]. split; [exact H2 |]. split; [reflexivity |].
  destruct (removeListener_first_occurrence _ "onclick" 1 H1 H2 ltac:(reflexivity))
    as (el' & Hrun & _ & Hfirst & _).
  exists el'. split; [exact Hrun | exact Hfirst].
Defined.

Lemma indexOf_last (h : nat) (hs : list nat) :
  ~ In h hs ->
  indexOf Nat.eqb h (hs ++ [h]) = Some (length hs)
  /\ delete (length hs) (hs ++ [h]) = hs.
Proof.
  induction hs as [| x hs IH]; intros Hnot; cbn [app indexOf length].
  - rewrite Nat.eqb_refl. split; reflexivity.
  - destruct (IH (fun H => Hnot (or_intror H))) as [Hi Hd].
    destruct (Nat.eqb x h) eqn:E.
    + apply Nat.eqb_eq in E. exfalso. apply Hnot. left. exact E.
    + rewrite Hi. split; [reflexivity |].
      change (x :: delete (length hs) (hs ++ [h]) = x :: hs).
      rewrite Hd. reflexivity.
Qed.

Lemma slice_length_le (n : nat) (s : string) :
  String.length (slice n s) <= String.length s.
Proof.
  revert s. induction n as [| n IH]; intros s; [cbn; lia |].
  destruct s as [| c s]; cbn [slice String.length]; [lia |].
  specialize (IH s). lia.
Qed.

Lemma strip_on_shorter (s : string) :
  startsWith "on" s = true -> strip_on s <> s.
Proof.
  unfold strip_on. intros H. rewrite H.
  destruct s as [| c s]; [vm_compute in H; discriminate |].
  intros Heq.
  assert (Hlen : String.length (slice 2 (String c s)) = String.length (String c s))
    by (rewrite Heq; reflexivity).
  change (slice 2 (String c s)) with (slice 1 s) in Hlen.
  cbn [String.length] in Hlen. pose proof (slice_length_le 1 s). lia.
Qed.

(** X2. On an element in the state the event functions keep,
    [addListener] binds the handler under the event name with one leading
    "on" removed, when that name names no member of [Object.prototype].
    When, besides, the name does not itself start with "on" and the
    handler was not bound to it before, the cleanup function returned
    undoes the binding: every event dispatches as before. *)
Theorem addListener_cleanup_undoes
  (el : Element) (event : string) (h : nat) :
  registry_listening el -> distinct_keys el ->
  inherited (strip_on event) = false ->
  startsWith "on" (strip_on event) = false ->
  ~ In h (dispatch el (strip_on event)) ->
  exists el1 el2,
    fst (addListener el event h) = Ok el1
    /\ dispatch el1 (strip_on event) = dispatch el (strip_on event) ++ [h]
    /\ snd (addListener el event h) el1 = Ok el2
    /\ forall e, dispatch el2 e = dispatch el e.
Proof.
  intros Hinv Hkeys Hname Hclean Hnot. cbn [addListener fst snd].
  set (ev := strip_on event) in *.
  destruct (bindEvent_returns el ev h Hname) as [el1 Hrun1].
  pose proof (registry_listening_bindEvent _ _ _ _ Hinv Hrun1) as Hinv1.
  pose proof (distinct_keys_bindEvent _ _ _ _ Hkeys Hrun1) as Hkeys1.
  assert (Hstrip : strip_on ev = ev)
    by (unfold strip_on; rewrite Hclean; reflexivity).
  exists el1, (state_of (removeListener el1 ev h)).
  rewrite dispatch_handlers_of in Hnot by assumption.
  split; [exact Hrun1 |]. split; [| split].
  - rewrite !dispatch_handlers_of by assumption.
    rewrite (handlers_of_bindEvent _ _ _ ev _ Hrun1), String.eqb_refl.
    reflexivity.
  - apply removeListener_ok. rewrite Hstrip. exact Hname.
  - intros e.
    rewrite !dispatch_handlers_of
      by (try apply registry_listening_removeListener; assumption).
    rewrite handlers_of_removeListener by exact Hkeys1.
    rewrite Hstrip, (handlers_of_bindEvent _ _ _ e _ Hrun1).
    destruct (String.eqb ev e) eqn:E; [| reflexivity].
    apply String.eqb_eq in E. subst e.
    destruct (indexOf_last h (handlers_of el ev) Hnot) as [-> ->]. reflexivity.
Qed.

Lemma addListener_cleanup_undoes_witness :
  registry_listening (document_createElement "a")
  /\ distinct_keys (document_createElement "a")
  /\ inherited (strip_on "onclick") = false
  /\ exists el1 el2,
       fst (addListener (document_createElement "a") "onclick" 4) = Ok el1
       /\ dispatch el1 "click" = [4]
       /\ snd (addListener (document_createElement "a") "onclick" 4) el1 = Ok el2
       /\ dispatch el2 "click" = [].
Proof.
  destruct (addListener_cleanup_undoes (document_createElement "a") "onclick" 4
              (registry_listening_fresh "a") (distinct_keys_fresh "a")
              eq_refl eq_refl (fun H : In 4 [] => H))
    as (el1 & el2 & H1 & H2 & H3 & H4).
  split; [apply registry_listening_fresh |].
  split; [apply distinct_keys_fresh |]. split; [reflexivity |].
  exists el1, el2. split; [exact H1 |]. split; [exact H2 |].
  split; [exact H3 | exact (H4 "click")].
Defined.

(** X3. On an element in the state [bindEvent] keeps: when the event
    name still starts with "on" after one leading "on" has been removed
    (as in "ononline"), the cleanup function of [addListener] strips a
    second "on" and looks under that other name. If neither name names a
    member of [Object.prototype] and the handler is not bound under the
    other name, the cleanup returns without changing anything, and the
    handler stays bound. *)
Theorem addListener_cleanup_misses_double_on
  (el : Element) (event : string) (h : nat) :
  registry_listening el ->
  inherited (strip_on event) = false ->
  inherited (strip_on (strip_on event)) = false ->
  startsWith "on" (strip_on event) = true ->
  ~ In h (dispatch el (strip_on (strip_on event))) ->
  exists el1,
    fst (addListener el event h) = Ok el1
    /\ snd (addListener el event h) el1 = Ok el1
    /\ dispatch el1 (strip_on event) = dispatch el (strip_on event) ++ [h].
Proof.
  intros Hinv Hname Hname2 Hon Hnot. cbn [addListener fst snd].
  set (ev := strip_on event) in *.
  destruct (bindEvent_returns el ev h Hname) as [el1 Hrun1].
  pose proof (registry_listening_bindEvent _ _ _ _ Hinv Hrun1) as Hinv1.
  rewrite dispatch_handlers_of in Hnot by assumption.
  assert (Hsame : state_of (removeListener el1 ev h) = el1).
  { apply removeListener_unbound.
    rewrite (handlers_of_bindEvent _ _ _ (strip_on ev) _ Hrun1).
    destruct (String.eqb ev (strip_on ev)) eqn:E; [| exact Hnot].
    apply String.eqb_eq in E. symmetry in E.
    exfalso. exact (strip_on_shorter ev Hon E). }
  exists el1. split; [exact Hrun1 |]. split.
  - rewrite (removeListener_ok el1 ev h Hname2), Hsame. reflexivity.
  - rewrite !dispatch_handlers_of by assumption.
    rewrite (handlers_of_bindEvent _ _ _ ev _ Hrun1), String.eqb_refl.
    reflexivity.
Qed.

Lemma addListener_cleanup_misses_double_on_witness :
  registry_listening (document_createElement "body")
  /\ inherited (strip_on "ononline") = false
  /\ inherited (strip_on (strip_on "ononline")) = false
  /\ startsWith "on" (strip_on "ononline") = true
  /\ exists el1,
       fst (addListener (document_createElement "body") "ononline" 4) = Ok el1
       /\ snd (addListener (document_createElement "body") "ononline" 4) el1
          = Ok el1
       /\ dispatch el1 "online" = [4].
Proof.
  split; [apply registry_listening_fresh |]. do 3 (split; [reflexivity |]).
  apply (addListener_cleanup_misses_double_on (document_createElement "body")
           "ononline" 4 (registry_listening_fresh "body") eq_refl eq_refl eq_refl).
  intros [].
Defined.

(** What the last hypothesis keeps out: a handler that is bound under the
    other name is the one the cleanup removes. *)
Lemma addListener_cleanup_removes_elsewhere :
  exists el0 el1 el2,
    bindEvent (document_createElement "body") "line" 4 = Ok el0
    /\ fst (addListener el0 "ononline" 4) = Ok el1
    /\ snd (addListener el0 "ononline" 4) el1 = Ok el2
    /\ dispatch el1 "line" = [4]
    /\ dispatch el2 "line" = []
    /\ dispatch el2 "online" = [4].
Proof. do 3 eexists. repeat split. Qed.

(** ** Removing every handler *)

Lemma obj_get_delete_all {V : Type} (keys : list string) (o : list (string * V))
  (k : string) :
  NoDup (obj_keys o) ->
  obj_get k (fold_left (fun ls event => obj_delete ("on" ++ event) ls) keys o)
  = if existsb (fun event => String.eqb ("on" ++ event) k) keys then None
    else obj_get k o.
Proof.
  revert o. induction keys as [| e keys IH]; intros o Hnd; [reflexivity |].
  cbn [fold_left existsb]. rewrite IH by (apply NoDup_obj_delete, Hnd).
  rewrite obj_get_delete by exact Hnd.
  destruct (String.eqb ("on" ++ e) k); cbn [orb];
    destruct (existsb _ keys); reflexivity.
Qed.

Lemma NoDup_delete_all {V : Type} (keys : list string) (o : list (string * V)) :
  NoDup (obj_keys o) ->
  NoDup (obj_keys (fold_left (fun ls event => obj_delete ("on" ++ event) ls)
                             keys o)).
Proof.
  revert o. induction keys as [| e keys IH]; intros o Hnd; [exact Hnd |].
  cbn [fold_left]. apply IH, NoDup_obj_delete, Hnd.
Qed.

Lemma listeners_removeAllListeners (el : Element) (event : string) :
  registry_listening el -> distinct_keys el ->
  obj_get ("on" ++ event) (listeners (removeAllListeners el)) = None.
Proof.
  intros Hinv [_ Hls]. specialize (Hinv event). unfold removeAllListeners.
  destruct (registry el) as [events |] eqn:Hreg; cbn [listeners].
  - rewrite obj_get_delete_all by exact Hls.
    destruct (existsb _ (obj_keys events)) eqn:Eex; [reflexivity |].
    destruct (obj_get ("on" ++ event) (listeners el)) as [l |]; [| reflexivity].
    destruct Hinv as [_ [hs Hhs]]. cbn in Hhs.
    apply obj_get_keys in Hhs.
    assert (Hex : existsb (fun e => String.eqb ("on" ++ e) ("on" ++ event))
                          (obj_keys events) = true).
    { apply existsb_exists. exists event. split; [exact Hhs |].
      apply String.eqb_refl. }
    congruence.
  - destruct (obj_get ("on" ++ event) (listeners el)) as [l |]; [| reflexivity].
    destruct Hinv as [_ [hs Hhs]]. discriminate.
Qed.

(** X4. On an element in the state the event functions keep,
    [removeAllListeners] leaves no event with a handler: every dispatch
    calls nothing, the element is again in that state, and a handler bound
    afterwards, under a name that names no member of [Object.prototype],
    is the only one called. *)
Theorem removeAllListeners_silences (el : Element) :
  registry_listening el -> distinct_keys el ->
  (forall event, dispatch (removeAllListeners el) event = [])
  /\ (forall event h,
        inherited event = false ->
        exists el',
          bindEvent (removeAllListeners el) event h = Ok el'
          /\ dispatch el' event = [h])
  /\ registry_listening (removeAllListeners el)
  /\ distinct_keys (removeAllListeners el).
Proof.
  intros Hinv Hkeys.
  assert (Hnoreg : forall event,
            (registry (removeAllListeners el) ≫= obj_get event) = None).
  { intros event. unfold removeAllListeners.
    destruct (registry el) as [events |] eqn:Hreg; [reflexivity |].
    rewrite Hreg. reflexivity. }
  assert (Hinv' : registry_listening (removeAllListeners el)).
  { intros event.
    rewrite (listeners_removeAllListeners el event Hinv Hkeys). apply Hnoreg. }
  assert (Hsilent : forall event, dispatch (removeAllListeners el) event = []).
  { intros event. unfold dispatch.
    rewrite (listeners_removeAllListeners el event Hinv Hkeys). reflexivity. }
  split; [exact Hsilent |]. split; [| split; [exact Hinv' |]].
  - intros event h Hname.
    destruct (bindEvent_returns (removeAllListeners el) event h Hname)
      as [el' Hrun].
    exists el'. split; [exact Hrun |].
    rewrite dispatch_handlers_of
      by exact (registry_listening_bindEvent _ _ _ _ Hinv' Hrun).
    rewrite (handlers_of_bindEvent _ _ _ event _ Hrun), String.eqb_refl.
    rewrite <- dispatch_handlers_of by exact Hinv'. rewrite Hsilent. reflexivity.
  - destruct Hkeys as [Hreg Hls]. unfold distinct_keys, removeAllListeners.
    destruct (registry el) as [events |] eqn:Hr; cbn [registry listeners].
    + split; [apply NoDup_nil_2 | apply NoDup_delete_all, Hls].
    + rewrite Hr. split; [apply NoDup_nil_2 | exact Hls].
Qed.

Lemma removeAllListeners_silences_witness :
  registry_listening
    (mkElement "a" [] [] [] (Some [("click", [1]); ("input", [2])])
               [("onclick", DispatchAll "click"); ("oninput", DispatchAll "input")])
  /\ distinct_keys
       (mkElement "a" [] [] [] (Some [("click", [1]); ("input", [2])])
                  [("onclick", DispatchAll "click");
                   ("oninput", DispatchAll "input")])
  /\ dispatch
       (removeAllListeners
          (mkElement "a" [] [] [] (Some [("click", [1]); ("input", [2])])
                     [("onclick", DispatchAll "click");
                      ("oninput", DispatchAll "input")]))
       "click" = [].
Proof.
  assert (H1 : registry_listening
                 (mkElement "a" [] [] [] (Some [("click", [1]); ("input", [2])])
                    [("onclick", DispatchAll "click");
                     ("oninput", DispatchAll "input")])).
  { apply (registry_listening_bindEvent_state
             (state_of (bindEvent (document_createElement "a") "click" 1))
             "input" 2).
    apply registry_listening_bindEvent_state, registry_listening_fresh. }
  assert (H2 : distinct_keys
                 (mkElement "a" [] [] [] (Some [("click", [1]); ("input", [2])])
                    [("onclick", DispatchAll "click");
                     ("oninput", DispatchAll "input")])).
  { apply (distinct_keys_bindEvent_state
             (state_of (bindEvent (document_createElement "a") "click" 1))
             "input" 2).
    apply distinct_keys_bindEvent_state, distinct_keys_fresh. }
  split; [exact H1 |]. split; [exact H2 |].
  apply (removeAllListeners_silences _ H1 H2).
Defined.

(* ===================================================================== *)
(** * Properties of the EventEmitter class *)
(* ===================================================================== *)

Import Emitter.

(** As long as the functions met are the caller's own, the loop calls
    them in array order and leaves the emitter alone. *)
Lemma forEach_plain_run (eventName : string) (hs : list subscriber)
  (a b k : nat) (em : EventEmitter) :
  obj_get eventName (events em) = Some hs ->
  forallb is_plain (take a (drop k hs)) = true ->
  forEach (a + b) k eventName em
  = (fst (forEach b (k + a) eventName em),
     map function_of (take a (drop k hs))
     ++ snd (forEach b (k + a) eventName em)).
Proof.
  intros Hhs. revert k. induction a as [| a IH]; intros k Hplain.
  - cbn [Nat.add take map app]. rewrite Nat.add_0_r.
    destruct (forEach b k eventName em); reflexivity.
  - cbn [Nat.add forEach]. rewrite Hhs.
    replace (k + S a) with (S k + a) by lia.
    destruct (hs !! k) as [h |] eqn:Hk.
    + rewrite (drop_S hs h k Hk) in Hplain |- *.
      cbn [take forallb map] in Hplain |- *.
      apply andb_prop in Hplain as [Hh Hrest].
      destruct h as [fn | id ev f]; [| discriminate]. cbn [call function_of].
      rewrite (IH (S k) Hrest).
      destruct (forEach b (S k + a) eventName em). reflexivity.
    + apply lookup_ge_None in Hk.
      rewrite (drop_ge hs k Hk). rewrite (drop_ge hs k Hk) in Hplain.
      rewrite take_nil. cbn [map app].
      rewrite (IH (S k)).
      * rewrite (drop_ge hs (S k)) by lia. rewrite take_nil. reflexivity.
      * rewrite (drop_ge hs (S k)) by lia. rewrite take_nil. reflexivity.
Qed.

Lemma emit_all_plain (eventName : string) (hs : list subscriber)
  (em : EventEmitter) :
  obj_get eventName (events em) = Some hs ->
  forallb is_plain hs = true ->
  emit em eventName = (Ok em, map function_of hs).
Proof.
  intros Hhs Hplain. unfold emit. rewrite (obj_slot_own _ _ _ Hhs).
  pose proof (forEach_plain_run eventName hs (length hs) 0 0 em Hhs) as H.
  rewrite Nat.add_0_r, drop_0, firstn_all in H. cbn [forEach fst snd] in H.
  rewrite app_nil_r in H. apply H, Hplain.
Qed.

(** [on] by what [this.events[eventName]] is. *)
Lemma on_equation (em : EventEmitter) (eventName : string) (h : subscriber) :
  fst (on em eventName h)
  = match obj_get eventName (events em) with
    | Some hs =>
        Ok (mkEmitter (obj_set eventName (hs ++ [h]) (events em)) (wrappers em))
    | None =>
        if inherited eventName then
          Throw (TypeError "this.events[eventName].push is not a function")
                (mkEmitter (events em) (wrappers em))
        else
          Ok (mkEmitter (obj_set eventName [h]
                           (obj_put eventName [] (events em)))
                        (wrappers em))
    end.
Proof.
  unfold on. cbn [fst].
  destruct (obj_get eventName (events em)) as [hs |] eqn:E.
  - rewrite (obj_slot_own _ _ _ E). cbn iota.
    rewrite (obj_slot_own _ _ _ E). reflexivity.
  - destruct (inherited eventName) eqn:Hin.
    + rewrite (obj_slot_inherited _ _ E Hin). cbn iota.
      rewrite (obj_slot_inherited _ _ E Hin). reflexivity.
    + rewrite (obj_slot_missing _ _ E Hin). cbn iota.
      rewrite (obj_slot_own _ _ [] (obj_get_put_eq (events em) eventName [] Hin)).
      reflexivity.
Qed.

Lemma on_returns (em : EventEmitter) (eventName : string) (h : subscriber) :
  inherited eventName = false -> exists em1, fst (on em eventName h) = Ok em1.
Proof.
  intros Hin. rewrite on_equation, Hin.
  destruct (obj_get eventName (events em)); eauto.
Qed.

Lemma handlers_on (em em1 : EventEmitter) (eventName e : string) (h : subscriber) :
  fst (on em eventName h) = Ok em1 ->
  obj_get e (events em1)
  = if String.eqb eventName e then
      Some (match obj_get eventName (events em) with
            | Some hs => hs | None => [] end ++ [h])
    else obj_get e (events em).
Proof.
  rewrite on_equation.
  destruct (obj_get eventName (events em)) as [hs |] eqn:Hhs.
  - intros H. injection H as <-. cbn [events].
    destruct (String.eqb eventName e) eqn:E.
    + apply String.eqb_eq in E. subst e. apply obj_get_set_eq.
    + apply String.eqb_neq in E. apply obj_get_set_ne, E.
  - destruct (inherited eventName); [discriminate |].
    intros H. injection H as <-. cbn [events].
    destruct (String.eqb eventName e) eqn:E.
    + apply String.eqb_eq in E. subst e. apply obj_get_set_eq.
    + apply String.eqb_neq in E.
      rewrite obj_get_set_ne, obj_get_put_ne by exact E. reflexivity.
Qed.

(** Under the name of a member of [Object.prototype] that the emitter
    does not own, [on], [off] and [emit] throw. *)
Lemma emitter_inherited_throws (em : EventEmitter) (eventName : string)
  (h : subscriber) :
  obj_get eventName (events em) = None ->
  inherited eventName = true ->
  fst (on em eventName h)
  = Throw (TypeError "this.events[eventName].push is not a function")
          (mkEmitter (events em) (wrappers em))
  /\ off em eventName h
     = Throw (TypeError "handlers.indexOf is not a function") em
  /\ emit em eventName
     = (Throw (TypeError "handlers.forEach is not a function") em, []).
Proof.
  intros Hown Hname. rewrite on_equation, Hown, Hname.
  unfold off, emit. rewrite (obj_slot_inherited _ _ Hown Hname).
  repeat split.
Qed.

(** X5. For an event name that names no member of [Object.prototype]:
    when the functions already subscribed to the event are plain functions
    of the caller (none is a wrapper made by [once]), subscribing one more
    plain function with [on] returns, and emitting the event then calls
    the earlier ones in their order and the new one last, returns, and
    leaves the subscriptions as they were; emitting an event nobody
    subscribed to calls nothing. *)
Theorem emit_in_subscription_order
  (em : EventEmitter) (eventName : string) (fn : nat) :
  inherited eventName = false ->
  forallb is_plain (match obj_get eventName (events em) with
                    | Some hs => hs | None => [] end) = true ->
  (exists em1,
     fst (on em eventName (Plain fn)) = Ok em1
     /\ emit em1 eventName
        = (Ok em1,
           map function_of (match obj_get eventName (events em) with
                            | Some hs => hs | None => [] end) ++ [fn]))
  /\ (obj_get eventName (events em) = None -> emit em eventName = (Ok em, [])).
Proof.
  intros Hname Hplain. split.
  - destruct (on_returns em eventName (Plain fn) Hname) as [em1 Hon].
    exists em1. split; [exact Hon |].
    rewrite (emit_all_plain eventName
               (match obj_get eventName (events em) with
                | Some hs => hs | None => [] end ++ [Plain fn])).
    + rewrite map_app. reflexivity.
    + rewrite (handlers_on _ _ _ eventName _ Hon), String.eqb_refl. reflexivity.
    + rewrite forallb_app, Hplain. reflexivity.
  - intros Hnone. unfold emit.
    rewrite (obj_slot_missing _ _ Hnone Hname). reflexivity.
Qed.

Lemma emit_in_subscription_order_witness :
  inherited "save" = false
  /\ forallb is_plain
       (match obj_get "save" (events (mkEmitter [("save", [Plain 1])] 0)) with
        | Some hs => hs | None => [] end) = true
  /\ exists em1,
       fst (on (mkEmitter [("save", [Plain 1])] 0) "save" (Plain 2)) = Ok em1
       /\ emit em1 "save" = (Ok em1, [1; 2]).
Proof.
  split; [reflexivity |]. split; [reflexivity |].
  destruct (emit_in_subscription_order
              (mkEmitter [("save", [Plain 1])] 0) "save" 2 eq_refl eq_refl)
    as [H _].
  exact H.
Defined.

Lemma indexOf_wrapper (ps qs : list subscriber) (id : nat) (ev : string)
  (fn : nat) :
  forallb is_plain ps = true ->
  indexOf same_function (OnceWrapper id ev fn) (ps ++ OnceWrapper id ev fn :: qs)
  = Some (length ps)
  /\ delete (length ps) (ps ++ OnceWrapper id ev fn :: qs) = ps ++ qs.
Proof.
  induction ps as [| p ps IH]; cbn [forallb app indexOf length].
  - intros _. cbn [same_function]. rewrite Nat.eqb_refl. split; reflexivity.
  - intros [Hp Hps]%andb_prop. destruct (IH Hps) as [Hi Hd].
    destruct p as [f | i e g]; [| discriminate]. cbn [same_function].
    rewrite Hi. split; [reflexivity |].
    change (Plain f :: delete (length ps) (ps ++ OnceWrapper id ev fn :: qs)
            = Plain f :: ps ++ qs).
    rewrite Hd. reflexivity.
Qed.

(** X6. A handler subscribed with [once] runs on the next emission and is
    unsubscribed by it, but because it removes itself from the array the
    loop is walking, the function subscribed right after it is passed over
    in that emission. When the subscribers of the event are plain
    functions [ps], then the wrapper of [once], then plain functions [qs],
    the emission returns after calling [ps], the handler, and [qs] without
    its first function, and leaves [ps] and [qs] subscribed; the following
    emission calls [ps] and all of [qs]. *)
Theorem emit_once_skips_next
  (em : EventEmitter) (eventName : string) (ps qs : list subscriber)
  (id handler : nat) :
  obj_get eventName (events em)
  = Some (ps ++ OnceWrapper id eventName handler :: qs) ->
  forallb is_plain ps = true ->
  forallb is_plain qs = true ->
  exists em',
    emit em eventName
    = (Ok em',
       map function_of ps ++ [handler] ++ map function_of (tl qs))
    /\ obj_get eventName (events em') = Some (ps ++ qs)
    /\ emit em' eventName
       = (Ok em', map function_of ps ++ map function_of qs).
Proof.
  intros Hhs Hps Hqs.
  set (W := OnceWrapper id eventName handler) in *.
  set (em' := mkEmitter (obj_set eventName (ps ++ qs) (events em)) (wrappers em)).
  assert (Hhs' : obj_get eventName (events em') = Some (ps ++ qs))
    by apply obj_get_set_eq.
  exists em'. split; [| split; [exact Hhs' |]].
  - unfold emit. rewrite (obj_slot_own _ _ _ Hhs), length_app. cbn [length].
    rewrite (forEach_plain_run eventName (ps ++ W :: qs) (length ps)
               (S (length qs)) 0 em Hhs)
      by (rewrite drop_0, take_app_length; exact Hps).
    rewrite drop_0, take_app_length. cbn [Nat.add forEach]. rewrite Hhs.
    rewrite list_lookup_middle by reflexivity. cbn [call W].
    fold W. unfold off. rewrite (obj_slot_own _ _ _ Hhs).
    destruct (indexOf_wrapper ps qs id eventName handler Hps) as [Hi Hd].
    fold W in Hi, Hd. rewrite Hi, Hd. fold em'.
    pose proof (forEach_plain_run eventName (ps ++ qs) (length qs) 0
                  (S (length ps)) em' Hhs') as Hrest.
    rewrite Nat.add_0_r in Hrest.
    assert (Hdrop : take (length qs) (drop (S (length ps)) (ps ++ qs)) = tl qs).
    { rewrite drop_app_ge by lia.
      replace (S (length ps) - length ps) with 1 by lia.
      destruct qs as [| q qs']; [reflexivity |].
      cbn [drop tl length]. rewrite drop_0. apply take_ge. lia. }
    rewrite Hdrop in Hrest. rewrite Hrest.
    + cbn [forEach fst snd]. rewrite app_nil_r. reflexivity.
    + destruct qs as [| q qs']; [reflexivity |].
      cbn [tl forallb] in Hqs |- *. apply andb_prop in Hqs as [_ H]. exact H.
  - rewrite (emit_all_plain eventName (ps ++ qs) em' Hhs')
      by (rewrite forallb_app, Hps, Hqs; reflexivity).
    rewrite map_app. reflexivity.
Qed.

Lemma emit_once_skips_next_witness :
  obj_get "tick"
    (events
       (state_of
          (fst (on (state_of
                      (once (state_of (fst (on new_EventEmitter "tick" (Plain 1))))
                            "tick" 2))
                   "tick" (Plain 3)))))
  = Some ([Plain 1] ++ OnceWrapper 0 "tick" 2 :: [Plain 3])
  /\ exists em',
       emit (state_of
               (fst (on (state_of
                           (once (state_of
                                    (fst (on new_EventEmitter "tick" (Plain 1))))
                                 "tick" 2))
                        "tick" (Plain 3))))
            "tick"
       = (Ok em', [1; 2])
       /\ emit em' "tick" = (Ok em', [1; 3]).
Proof.
  split; [reflexivity |].
  destruct (emit_once_skips_next
              (state_of
                 (fst (on (state_of
                             (once (state_of
                                      (fst (on new_EventEmitter "tick" (Plain 1))))
                                   "tick" 2))
                         "tick" (Plain 3))))
              "tick" [Plain 1] [Plain 3] 0 2 eq_refl eq_refl eq_refl)
    as (em' & H1 & _ & H2).
  exists em'. split; [exact H1 | exact H2].
Defined.

(** What the hypotheses keep out: with a second wrapper right after the
    first, it is the second wrapper that is passed over. *)
Lemma emit_two_once_in_a_row :
  exists em1 em2,
    emit (mkEmitter [("tick", [OnceWrapper 0 "tick" 1; OnceWrapper 1 "tick" 2;
                               Plain 3])] 2) "tick"
    = (Ok em1, [1; 3])
    /\ emit em1 "tick" = (Ok em2, [2]).
Proof. do 2 eexists. split; reflexivity. Qed.

Lemma same_function_refl (h : subscriber) : same_function h h = true.
Proof. destruct h; cbn; apply Nat.eqb_refl. Qed.

Lemma indexOf_subscriber_last (h : subscriber) (hs : list subscriber) :
  forallb (fun x => negb (same_function x h)) hs = true ->
  indexOf same_function h (hs ++ [h]) = Some (length hs)
  /\ delete (length hs) (hs ++ [h]) = hs.
Proof.
  induction hs as [| x hs IH]; cbn [forallb app indexOf length].
  - intros _. rewrite same_function_refl. split; reflexivity.
  - intros [Hx Hhs]%andb_prop. destruct (IH Hhs) as [Hi Hd].
    apply negb_true_iff in Hx. rewrite Hx, Hi. split; [reflexivity |].
    change (x :: delete (length hs) (hs ++ [h]) = x :: hs).
    rewrite Hd. reflexivity.
Qed.

(** X7. For an event name that names no member of [Object.prototype]:
    subscribing a function that is not yet subscribed to the event
    returns, and calling the unsubscribe function that [on] returned then
    returns too and leaves every event with the subscribers it had before,
    in the same order. *)
Theorem on_unsubscribe_restores
  (em : EventEmitter) (eventName : string) (h : subscriber) :
  inherited eventName = false ->
  forallb (fun x => negb (same_function x h))
          (match obj_get eventName (events em) with
           | Some hs => hs | None => [] end) = true ->
  exists em1 em2,
    fst (on em eventName h) = Ok em1
    /\ snd (on em eventName h) em1 = Ok em2
    /\ forall e,
         match obj_get e (events em2) with Some hs => hs | None => [] end
         = match obj_get e (events em) with Some hs => hs | None => [] end.
Proof.
  intros Hname Hnew.
  destruct (on_returns em eventName h Hname) as [em1 Hon].
  pose proof (handlers_on _ _ _ eventName _ Hon) as Hown.
  rewrite String.eqb_refl in Hown.
  destruct (indexOf_subscriber_last h _ Hnew) as [Hi Hd].
  exists em1. eexists. split; [exact Hon |]. split.
  - cbn [on snd]. unfold off. rewrite (obj_slot_own _ _ _ Hown), Hi, Hd.
    reflexivity.
  - intros e. cbn [events].
    destruct (String.eqb eventName e) eqn:E.
    + apply String.eqb_eq in E. subst e. rewrite obj_get_set_eq. reflexivity.
    + pose proof E as E'. apply String.eqb_neq in E'.
      rewrite obj_get_set_ne by exact E'.
      rewrite (handlers_on _ _ _ e _ Hon), E. reflexivity.
Qed.

Lemma on_unsubscribe_restores_witness :
  inherited "save" = false
  /\ forallb (fun x => negb (same_function x (Plain 2)))
             (match obj_get "save" (events (mkEmitter [("save", [Plain 1])] 0)) with
              | Some hs => hs | None => [] end) = true
  /\ exists em1 em2,
       fst (on (mkEmitter [("save", [Plain 1])] 0) "save" (Plain 2)) = Ok em1
       /\ snd (on (mkEmitter [("save", [Plain 1])] 0) "save" (Plain 2)) em1
          = Ok em2
       /\ match obj_get "save" (events em2) with Some hs => hs | None => [] end
          = [Plain 1].
Proof.
  split; [reflexivity |]. split; [reflexivity |].
  destruct (on_unsubscribe_restores (mkEmitter [("save", [Plain 1])] 0)
              "save" (Plain 2) eq_refl eq_refl) as (em1 & em2 & H1 & H2 & H3).
  exists em1, em2. split; [exact H1 |]. split; [exact H2 |]. exact (H3 "save").
Defined.

(** X8. [removeAll] with the name of an event removes the subscribers of
    that event and of no other, but with the empty string, as with no
    argument, it removes the subscribers of every event. *)
Theorem removeAll_one_or_every
  (em : EventEmitter) (name e : string) :
  NoDup (obj_keys (events em)) ->
  name <> "" ->
  obj_get e (events (removeAll em (Some name)))
  = (if String.eqb name e then None else obj_get e (events em))
  /\ obj_get e (events (removeAll em (Some ""))) = None
  /\ obj_get e (events (removeAll em None)) = None.
Proof.
  intros Hnd Hname. unfold removeAll.
  apply String.eqb_neq in Hname. rewrite Hname. cbn [negb events].
  split; [apply obj_get_delete, Hnd | split; reflexivity].
Qed.

Lemma removeAll_one_or_every_witness :
  NoDup (obj_keys
           (events (state_of
                      (fst (on (state_of (fst (on new_EventEmitter "a" (Plain 1))))
                               "b" (Plain 2))))))
  /\ obj_get "b"
       (events (removeAll
                  (state_of
                     (fst (on (state_of (fst (on new_EventEmitter "a" (Plain 1))))
                              "b" (Plain 2))))
                  (Some "a")))
     = Some [Plain 2].
Proof.
  assert (H : NoDup (obj_keys
                       (events
                          (state_of
                             (fst (on (state_of
                                         (fst (on new_EventEmitter "a" (Plain 1))))
                                      "b" (Plain 2))))))).
  { change (NoDup ["a"; "b"]).
    repeat (apply NoDup_cons; split; [| ]); try apply NoDup_nil_2;
      rewrite ?elem_of_cons; try apply not_elem_of_nil.
    intros [H | H]; [discriminate | apply not_elem_of_nil in H; exact H]. }
  split; [exact H |].
  destruct (removeAll_one_or_every
              (state_of
                 (fst (on (state_of (fst (on new_EventEmitter "a" (Plain 1))))
                          "b" (Plain 2))))
              "a" "b" H) as [H1 _]; [discriminate |].
  rewrite H1. reflexivity.
Defined.

(* ===================================================================== *)
(** * Further properties of dom.js *)
(* ===================================================================== *)

(** ** When [diff] answers with no patch *)

Lemma SFeqb_eq (x y : spec_float) :
  truthy_num x = true -> SFeqb x y = true -> x = y.
Proof.
  unfold SFeqb.
  destruct x as [s | s | | s m e], y as [t | t | | t n f];
    cbn; try discriminate; intros _.
  - destruct s; discriminate.
  - destruct s, t; intros H; try discriminate; reflexivity.
  - destruct s; discriminate.
  - destruct s; discriminate.
  - destruct t; discriminate.
  - destruct s, t; try discriminate;
      destruct (Z.compare e f) eqn:Ee; try discriminate;
      destruct (Pos.compare_cont Eq m n) eqn:Em; try discriminate;
      intros _; apply Z.compare_eq in Ee; apply Pos.compare_eq in Em;
      subst; reflexivity.
Qed.

Lemma strict_eq_prim_eq (p q : prim) :
  truthy_prim p = true -> strict_eq_prim p q = true -> p = q.
Proof.
  destruct p as [| | b | x | s], q as [| | c | y | t]; cbn; try discriminate.
  - intros -> H. destruct c; [reflexivity | discriminate].
  - intros Hx H. rewrite (SFeqb_eq x y Hx H). reflexivity.
  - intros _ H. apply String.eqb_eq in H. subst. reflexivity.
Qed.

(** X9. [diff] answers with no patch exactly when the two nodes are the
    same text, a non-empty string or a number other than zero and [NaN];
    for everything else, two equal elements included, it builds a patch. *)
Theorem diff_none_iff_same_text (oldNode newNode : vnode) :
  diff oldNode newNode = None
  <-> solid_text oldNode = true /\ oldNode = newNode.
Proof.
  rewrite diff_equation. split.
  - destruct (truthy oldNode) eqn:Ho; [| discriminate].
    destruct (truthy newNode) eqn:Hn; [| discriminate].
    cbn [negb].
    destruct (jstype_eqb _ _) eqn:Hty; [| discriminate]. cbn [negb].
    destruct (is_scalar_type _) eqn:Hsc;
      [| destruct (negb (tag_eqb _ _)); discriminate].
    destruct (strict_eq_node oldNode newNode) eqn:Heq; [| discriminate].
    intros _.
    destruct oldNode as [p | |], newNode as [q | |]; try discriminate.
    cbn in Ho, Heq. pose proof (strict_eq_prim_eq p q Ho Heq) as Hpq. subst q.
    split; [| reflexivity]. unfold solid_text. cbn [truthy]. rewrite Ho.
    destruct p; try discriminate; reflexivity.
  - intros [Hsolid <-]. unfold solid_text in Hsolid.
    apply andb_prop in Hsolid as [Htext Htruthy]. rewrite Htruthy. cbn [negb].
    destruct oldNode as [p | |]; try discriminate.
    cbn in Htruthy. cbn [strict_eq_node]. rewrite (strict_eq_prim_refl p Htruthy).
    destruct p; try discriminate; reflexivity.
Qed.

(** ** Re-rendering converges on aligned descriptions *)

Lemma createDOMElement_children (cs : list vnode) :
  (fix appendAll (cs : list vnode) : list dnode :=
     match cs with
     | [] => []
     | child :: cs' =>
         match createDOMElement child with
         | Some childElement => childElement :: appendAll cs'
         | None => appendAll cs'
         end
     end) cs = appendAll cs.
Proof.
  induction cs as [| c cs IH]; [reflexivity |].
  cbn [appendAll]. rewrite IH. reflexivity.
Qed.

Lemma createDOMElement_element (tag : string) (attrs : list (string * jsval))
  (children : list vnode) :
  createDOMElement (VElem tag attrs children)
  = Some (DElement (fold_left createDOMElement_attr attrs
                              (document_createElement tag))
                   (appendAll children)).
Proof.
  cbn [createDOMElement]. rewrite createDOMElement_children. reflexivity.
Qed.

Lemma truthy_rendered (n : vnode) :
  truthy n = true -> exists m, createDOMElement n = Some m.
Proof.
  destruct n as [[| | [|] | x | s] | tag attrs children | items];
    try discriminate; intros _; eexists; reflexivity.
Qed.

(** What [diff] can answer for two truthy nodes. *)
Lemma diff_cases (oldNode newNode : vnode) :
  truthy oldNode = true -> truthy newNode = true ->
  diff oldNode newNode = Some (REPLACE newNode)
  \/ (diff oldNode newNode = None /\ oldNode = newNode)
  \/ (diff oldNode newNode = Some (UPDATE [] [])
      /\ createDOMElement oldNode = createDOMElement newNode)
  \/ (exists tag oldAttrs olds newAttrs news,
        oldNode = VElem tag oldAttrs olds
        /\ newNode = VElem tag newAttrs news
        /\ diff oldNode newNode
           = Some (UPDATE (diffAttrs (Some oldAttrs) (Some newAttrs))
                          (diff_loop olds news))).
Proof.
  intros Ho Hn. rewrite diff_equation, Ho, Hn. cbn [negb].
  destruct (jstype_eqb _ _) eqn:Hty; [| left; reflexivity]. cbn [negb].
  destruct (is_scalar_type _) eqn:Hsc.
  - destruct (strict_eq_node oldNode newNode) eqn:Heq; [| left; reflexivity].
    right. left. split; [reflexivity |].
    destruct oldNode as [p | |], newNode as [q | |]; try discriminate.
    cbn in Ho, Heq. rewrite (strict_eq_prim_eq p q Ho Heq). reflexivity.
  - destruct (tag_eqb _ _) eqn:Htag; [| left; reflexivity]. cbn [negb].
    destruct oldNode as [p | t a olds | its], newNode as [q | t' a' news | its'];
      try (destruct p as [| | [|] | x | s]);
      try (destruct q as [| | [|] | y | s']);
      try discriminate.
    + right. right. left. split; reflexivity.
    + right. right. right. cbn in Htag. apply String.eqb_eq in Htag. subst t'.
      exists t, a, olds, a', news. repeat split.
      cbn [attrs_of children_of]. rewrite <- diff_loop_diffChildren. reflexivity.
    + right. right. left. split; reflexivity.
Qed.

Lemma insert_middle {A : Type} (before after : list A) (x y : A) :
  <[length before := y]> (before ++ x :: after) = before ++ y :: after.
Proof.
  rewrite insert_app_r_alt by lia. rewrite Nat.sub_diag. reflexivity.
Qed.

Lemma patch_replace_at (newNode : vnode) (m_new m_old : dnode) (e : Element)
  (before after : list dnode) :
  createDOMElement newNode = Some m_new ->
  patch (DElement e (before ++ m_old :: after)) (Some (REPLACE newNode))
        (length before)
  = Ok (DElement e (before ++ m_new :: after)).
Proof.
  intros Hnew. cbn [patch patch_switch childNodes].
  rewrite Hnew, list_lookup_middle by reflexivity.
  cbn [replaceChildAt]. rewrite insert_middle. reflexivity.
Qed.

(** A run of CREATE patches appends what the display adapter would build
    for the same children. *)
Lemma patchChildren_create_run (news : list vnode) (i : nat) (e : Element)
  (cs : list dnode) :
  patchChildren_from i (DElement e cs) (map (fun n => Some (CREATE n)) news)
  = Ok (DElement e (cs ++ appendAll news)).
Proof.
  revert i cs. induction news as [| n news IH]; intros i cs;
    cbn [map patchChildren_from appendAll].
  - rewrite app_nil_r. reflexivity.
  - cbn [patch patch_switch].
    destruct (createDOMElement n) as [d |]; cbn [appendChild bind].
    + rewrite IH, <- app_assoc. reflexivity.
    + apply IH.
Qed.

Lemma aligned_inner (olds news : list vnode) :
  (fix kids (olds news : list vnode) : bool :=
     match olds with
     | [] => true
     | o :: olds' =>
         match news with
         | n :: news' => aligned o n && kids olds' news'
         | [] =>
             (truthy o || absent o)
             && match olds' with [] => true | _ :: _ => false end
         end
     end) olds news = aligned_children olds news.
Proof.
  revert news. induction olds as [| o olds IH]; intros news; [reflexivity |].
  destruct news as [| n news]; [reflexivity |].
  cbn [aligned_children]. rewrite IH. reflexivity.
Qed.

Lemma aligned_truthy (old new : vnode) :
  aligned old new = true -> truthy old = true /\ truthy new = true.
Proof.
  destruct old, new; cbn [aligned];
    intros [[Ho Hn]%andb_prop _]%andb_prop; split; assumption.
Qed.

Lemma aligned_same_tag (tag : string) (attrs attrs' : list (string * jsval))
  (olds news : list vnode) :
  aligned (VElem tag attrs olds) (VElem tag attrs' news) = true ->
  attrs = attrs'
  /\ diffAttrs (Some attrs) (Some attrs') = []
  /\ aligned_children olds news = true.
Proof.
  cbn [aligned truthy andb]. rewrite String.eqb_refl. cbn [negb orb].
  rewrite aligned_inner.
  intros [[[Heq Huniq]%andb_prop Hself]%andb_prop Hkids]%andb_prop.
  apply bool_decide_eq_true in Heq. subst attrs'.
  repeat split; [apply diffAttrs_self; assumption | exact Hkids].
Qed.

(** With every old child converging, the child patches of two aligned
    child sequences turn the display children of the old sequence into
    those of the new one. [done] are the display children already passed. *)
Lemma patchChildren_aligned (olds : list vnode) :
  Forall converges olds ->
  forall news e done,
    aligned_children olds news = true ->
    patchChildren_from (length done) (DElement e (done ++ appendAll olds))
                       (diff_loop olds news)
    = Ok (DElement e (done ++ appendAll news)).
Proof.
  induction 1 as [| o olds Ho _ IH]; intros news e done Hal.
  - cbn [diff_loop appendAll]. rewrite app_nil_r.
    apply patchChildren_create_run.
  - destruct news as [| n news]; cbn [aligned_children] in Hal.
    + apply andb_prop in Hal as [Hlast Hnil].
      destruct olds as [| o' olds']; [| discriminate].
      cbn [diff_loop map tl patchChildren_from appendAll].
      rewrite app_nil_r. apply orb_prop in Hlast as [Htruthy | Habsent].
      * destruct (truthy_rendered o Htruthy) as [m Hm]. rewrite Hm.
        rewrite diff_equation, Htruthy. cbn [negb truthy truthy_prim].
        cbn [patch patch_switch childNodes bind].
        rewrite list_lookup_middle by reflexivity. cbn [removeChildAt bind].
        rewrite delete_middle, app_nil_r. reflexivity.
      * destruct (absent_not_rendered o Habsent) as [Hnone Hfalsy].
        rewrite Hnone, app_nil_r, diff_equation, Hfalsy. reflexivity.
    + apply andb_prop in Hal as [Hon Hrest].
      destruct (aligned_truthy o n Hon) as [Hto Htn].
      destruct (truthy_rendered o Hto) as [m_o Hmo].
      destruct (Ho n e done (appendAll olds) m_o Hon Hmo) as (m_n & Hmn & Hpatch).
      cbn [diff_loop tl patchChildren_from appendAll]. rewrite Hmo, Hmn, Hpatch.
      cbn [bind].
      replace (done ++ m_n :: appendAll olds)
        with ((done ++ [m_n]) ++ appendAll olds) by (rewrite <- app_assoc; reflexivity).
      replace (S (length done)) with (length (done ++ [m_n]))
        by (rewrite length_app; cbn; lia).
      rewrite (IH news e (done ++ [m_n]) Hrest), <- app_assoc. reflexivity.
Qed.

(** Every description converges. *)
Lemma patch_aligned (old : vnode) : converges old.
Proof.
  induction old as [p | tag attrs olds IH | items _] using vnode_nested_ind;
    intros new e before after m_old Hal Hmo;
    destruct (aligned_truthy _ _ Hal) as [Hto Htn];
    destruct (truthy_rendered new Htn) as [m_new Hmn];
    destruct (diff_cases _ new Hto Htn)
      as [Hd | [[Hd Heq] | [[Hd Hsame] | (t & a & os & a' & ns & Ho & Hn & Hd)]]];
    try discriminate Ho;
    try (exists m_new; split; [exact Hmn |]; rewrite Hd;
         apply patch_replace_at, Hmn);
    try (subst new; exists m_old; split; [exact Hmo |]; rewrite Hd; reflexivity);
    try (exists m_old; split; [rewrite <- Hsame; exact Hmo |]; rewrite Hd;
         apply (patch_quiet (UPDATE [] []) eq_refl)).
  injection Ho as <- <- <-. subst new.
  destruct (aligned_same_tag tag attrs a' olds ns Hal) as (<- & Hattrs & Hkids).
  rewrite createDOMElement_element in Hmo, Hmn.
  injection Hmo as <-. injection Hmn as <-.
  eexists. split; [reflexivity |].
  rewrite Hd, Hattrs, patch_update_equation. cbn [childNodes].
  rewrite list_lookup_middle by reflexivity. cbn [patchAttrs bind].
  unfold patchChildren.
  pose proof (patchChildren_aligned olds IH ns
                (fold_left createDOMElement_attr attrs (document_createElement tag))
                [] Hkids) as Hkidsrun.
  cbn [length app] in Hkidsrun. rewrite Hkidsrun. cbn [lift replaceChildAt].
  rewrite insert_middle. reflexivity.
Qed.

(** X10. When a container shows exactly the display node of its cached
    description [D1], rendering into it a description [D2] that is
    renderable and aligned with [D1] returns and leaves the container
    showing exactly the display node that a first render of [D2] would
    build, and caches [D2]. *)
Theorem rerender_aligned_converges
  (tgt : target) (D1 D2 : vnode) (w : world) (c : nat) (e : Element)
  (m1 : dnode) :
  resolve tgt w = Some c ->
  virtualTreeCache w !! c = Some D1 ->
  display w !! c = Some (DElement e [m1]) ->
  createDOMElement D1 = Some m1 ->
  aligned D1 D2 = true ->
  renderable D2 = true ->
  exists w2 m2,
    mount tgt D2 w = Ok w2
    /\ createDOMElement D2 = Some m2
    /\ display w2 !! c = Some (DElement e [m2])
    /\ virtualTreeCache w2 !! c = Some D2.
Proof.
  intros Hres Hcache Hdisp Hm1 Hal _.
  destruct (patch_aligned D1 D2 e [] [] m1 Hal Hm1) as (m2 & Hm2 & Hpatch).
  cbn [app length] in Hpatch.
  unfold mount. rewrite Hres, Hdisp, Hcache.
  rewrite (proj1 (aligned_truthy D1 D2 Hal)). cbn [negb]. rewrite Hpatch.
  eexists _, m2. split; [reflexivity |]. split; [exact Hm2 |].
  cbn [display virtualTreeCache]. rewrite !lookup_insert_eq. split; reflexivity.
Qed.

Lemma rerender_aligned_converges_witness :
  aligned (VElem "ul" [] [VText "a"; VElem "li" [] []])
          (VElem "ul" [] [VText "b"; VElem "p" [] [VText "c"]; VText "d"])
  = true
  /\ renderable (VElem "ul" [] [VText "b"; VElem "p" [] [VText "c"]; VText "d"])
     = true
  /\ exists w2,
       mount (Selector "#app")
             (VElem "ul" [] [VText "b"; VElem "p" [] [VText "c"]; VText "d"])
             (app_world {[ 0 := VElem "ul" [] [VText "a"; VElem "li" [] []] ]}
                        [DElement (document_createElement "ul")
                           [DText (Lit "a");
                            DElement (document_createElement "li") []]])
       = Ok w2
       /\ display w2 !! 0
          = Some (DElement (document_createElement "div")
                    [DElement (document_createElement "ul")
                       [DText (Lit "b");
                        DElement (document_createElement "p") [DText (Lit "c")];
                        DText (Lit "d")]]).
Proof.
  split; [reflexivity |]. split; [reflexivity |].
  destruct (rerender_aligned_converges (Selector "#app")
              (VElem "ul" [] [VText "a"; VElem "li" [] []])
              (VElem "ul" [] [VText "b"; VElem "p" [] [VText "c"]; VText "d"])
              (app_world {[ 0 := VElem "ul" [] [VText "a"; VElem "li" [] []] ]}
                         [DElement (document_createElement "ul")
                            [DText (Lit "a");
                             DElement (document_createElement "li") []]])
              0 (document_createElement "div")
              (DElement (document_createElement "ul")
                 [DText (Lit "a"); DElement (document_createElement "li") []])
              ltac:(reflexivity) ltac:(reflexivity) ltac:(reflexivity)
              ltac:(reflexivity) ltac:(reflexivity) ltac:(reflexivity))
    as (w2 & m2 & Hmount & Hm2 & Hdisp & _).
  exists w2. split; [exact Hmount |].
  rewrite Hdisp. injection Hm2 as <-. reflexivity.
Defined.

(** What the identity of the attribute maps in [aligned] keeps out: a
    live property set at the first render stays when the key is dropped,
    since the patcher only removes the attribute. *)
Lemma rerender_dropped_value_stays :
  aligned (VElem "input" [("value", JPrim (PStr "x"))] []) (VElem "input" [] [])
  = false
  /\ exists w2,
       mount (Selector "#app") (VElem "input" [] [])
             (app_world {[ 0 := VElem "input" [("value", JPrim (PStr "x"))] [] ]}
                [DElement (mkElement "input" [] [("value", JPrim (PStr "x"))]
                                     [] None []) []])
       = Ok w2
       /\ display w2 !! 0
          = Some (DElement (document_createElement "div")
                    [DElement (mkElement "input" [] [("value", JPrim (PStr "x"))]
                                         [] None []) []])
       /\ createDOMElement (VElem "input" [] [])
          = Some (DElement (document_createElement "input") []).
Proof.
  split; [reflexivity |]. eexists. split; [reflexivity |].
  split; reflexivity.
Qed.

(** ** Dropping several children at the end *)

Lemma patchChildren_from_app (ps qs : list (option Patch)) (i : nat)
  (parent : dnode) :
  patchChildren_from i parent (ps ++ qs)
  = patchChildren_from i parent ps >>= fun parent' =>
    patchChildren_from (i + length ps) parent' qs.
Proof.
  revert i parent. induction ps as [| p ps IH]; intros i parent.
  - cbn [app patchChildren_from bind length]. rewrite Nat.add_0_r. reflexivity.
  - cbn [app patchChildren_from length].
    destruct (patch parent p i) as [parent' | ex parent']; cbn [bind];
      [| reflexivity].
    rewrite IH. replace (S i + length ps) with (i + S (length ps)) by lia.
    reflexivity.
Qed.

Lemma patchChildren_quiet_run (ps : list (option Patch)) (i : nat)
  (parent : dnode) :
  forallb quiet_opt ps = true -> patchChildren_from i parent ps = Ok parent.
Proof.
  revert i. induction ps as [| p ps IH]; intros i; [reflexivity |].
  cbn [forallb]. intros [Hp Hps]%andb_prop. cbn [patchChildren_from].
  destruct p as [p |]; cbn [patch quiet_opt] in Hp |- *;
    [rewrite (patch_quiet p Hp) |]; cbn [bind]; apply IH, Hps.
Qed.

Lemma take_delete_same {A : Type} (l : list A) (i : nat) :
  take i (delete i l) = take i l.
Proof.
  revert i. induction l as [| a l IH]; intros [| i]; try reflexivity.
  change (a :: take i (delete i l) = a :: take i l). rewrite IH. reflexivity.
Qed.

(** A run of [p] REMOVE patches from index [i] on: each patch that still
    finds a child at its index removes it and thereby moves the later
    children one index down, past the next patch. *)
Lemma patchChildren_remove_run (p i : nat) (e : Element) (cs : list dnode) :
  exists cs',
    patchChildren_from i (DElement e cs) (repeat (Some REMOVE) p)
    = Ok (DElement e cs')
    /\ length cs' = length cs - Nat.min p ((length cs - i + 1) / 2)
    /\ take i cs' = take i cs.
Proof.
  revert i cs. induction p as [| p IH]; intros i cs.
  - exists cs. cbn. split; [reflexivity |]. split; [lia | reflexivity].
  - cbn [repeat patchChildren_from patch patch_switch childNodes].
    destruct (cs !! i) as [child |] eqn:Hi; cbn [bind removeChildAt].
    + destruct (IH (S i) (delete i cs)) as (cs' & Hrun & Hlen & Htake).
      exists cs'. split; [exact Hrun |].
      pose proof (lookup_lt_Some cs i child Hi) as Hlt.
      rewrite length_delete in Hlen by eauto.
      split.
      * rewrite Hlen.
        assert (Hd : (length cs - i + 1) / 2
                     = S ((length cs - 1 - S i + 1) / 2)).
        { destruct (Nat.eq_dec (length cs - i) 1) as [H1 | H1].
          - replace (length cs - i + 1) with 2 by lia.
            replace (length cs - 1 - S i + 1) with 1 by lia. reflexivity.
          - replace (length cs - i + 1)
              with ((length cs - 1 - S i + 1) + 1 * 2) by lia.
            rewrite Nat.div_add by lia. lia. }
        rewrite Hd. lia.
      * apply (f_equal (take i)) in Htake.
        rewrite !take_take in Htake.
        replace (i `min` S i) with i in Htake by lia.
        rewrite Htake. apply take_delete_same.
    + destruct (IH (S i) cs) as (cs' & Hrun & Hlen & Htake).
      exists cs'. split; [exact Hrun |].
      apply lookup_ge_None in Hi.
      split.
      * rewrite Hlen.
        replace (length cs - S i + 1) with 1 by lia.
        replace (length cs - i + 1) with 1 by lia.
        cbn. lia.
      * apply (f_equal (take i)) in Htake.
        rewrite !take_take in Htake.
        replace (i `min` S i) with i in Htake by lia. exact Htake.
Qed.

Lemma diff_loop_app_self (keep extra : list vnode) :
  diff_loop (keep ++ extra) keep = diff_loop keep keep ++ diff_loop extra [].
Proof.
  induction keep as [| k keep IH]; [reflexivity |].
  cbn [app diff_loop tl]. rewrite IH. reflexivity.
Qed.

Lemma diff_loop_removed (extra : list vnode) :
  forallb truthy extra = true ->
  diff_loop extra [] = repeat (Some REMOVE) (length extra).
Proof.
  induction extra as [| x extra IH]; [reflexivity |].
  cbn [forallb]. intros [Hx Hrest]%andb_prop.
  cbn [diff_loop tl length repeat]. rewrite (IH Hrest), diff_equation, Hx.
  reflexivity.
Qed.

Lemma diff_loop_self_quiet (keep : list vnode) :
  forallb steady keep = true ->
  forallb quiet_opt (diff_loop keep keep) = true
  /\ length (diff_loop keep keep) = length keep.
Proof.
  induction keep as [| k keep IH]; [split; reflexivity |].
  cbn [forallb]. intros [Hk Hrest]%andb_prop. destruct (IH Hrest) as [Hq Hl].
  cbn [diff_loop tl forallb length]. rewrite (diff_self_quiet k Hk), Hq, Hl.
  split; reflexivity.
Qed.

Lemma appendAll_app (xs ys : list vnode) :
  appendAll (xs ++ ys) = appendAll xs ++ appendAll ys.
Proof.
  induction xs as [| x xs IH]; [reflexivity |].
  cbn [app appendAll]. rewrite IH. destruct (createDOMElement x); reflexivity.
Qed.

Lemma length_appendAll (xs : list vnode) :
  forallb truthy xs = true -> length (appendAll xs) = length xs.
Proof.
  induction xs as [| x xs IH]; [reflexivity |].
  cbn [forallb]. intros [Hx Hrest]%andb_prop.
  destruct (truthy_rendered x Hx) as [m Hm].
  cbn [appendAll]. rewrite Hm. cbn [length]. rewrite (IH Hrest). reflexivity.
Qed.

Lemma half_rest (m : nat) : m - Nat.min m ((m + 1) / 2) = m / 2.
Proof.
  pose proof (Nat.div_mod_eq m 2) as Hm.
  pose proof (Nat.mod_upper_bound m 2 ltac:(lia)) as Hr.
  assert (Hcases : m mod 2 = 0 \/ m mod 2 = 1) by lia.
  destruct Hcases as [H0 | H1].
  - replace ((m + 1) / 2) with (m / 2); [lia |].
    replace (m + 1) with (1 + (m / 2) * 2) by lia.
    rewrite Nat.div_add by lia. reflexivity.
  - replace ((m + 1) / 2) with (S (m / 2)); [lia |].
    replace (m + 1) with (0 + (S (m / 2)) * 2) by lia.
    rewrite Nat.div_add by lia. reflexivity.
Qed.

(** X11. When a container shows exactly the display node of its cached
    description, an element that is steady and whose children are all
    truthy, and the new description only drops the last [m] children
    (same tag, same attributes, the other children unchanged), the
    re-render returns after removing every second of the dropped ones:
    the element is left with the display nodes of the children kept
    followed by [m / 2] more nodes, rounded down, where a first render of
    the new description has none. *)
Theorem rerender_shrink_leaves_half
  (tgt : target) (tag : string) (attrs : list (string * jsval))
  (keep extra : list vnode) (w : world) (c : nat) (e : Element) (m1 : dnode) :
  resolve tgt w = Some c ->
  virtualTreeCache w !! c = Some (VElem tag attrs (keep ++ extra)) ->
  display w !! c = Some (DElement e [m1]) ->
  createDOMElement (VElem tag attrs (keep ++ extra)) = Some m1 ->
  steady (VElem tag attrs (keep ++ extra)) = true ->
  forallb truthy (keep ++ extra) = true ->
  exists w2 el kids,
    mount tgt (VElem tag attrs keep) w = Ok w2
    /\ display w2 !! c = Some (DElement e [DElement el kids])
    /\ length kids = length keep + length extra / 2
    /\ take (length keep) kids = appendAll keep
    /\ createDOMElement (VElem tag attrs keep)
       = Some (DElement el (appendAll keep)).
Proof.
  intros Hres Hcache Hdisp Hm1 Hsteady Htruthy.
  rewrite createDOMElement_element in Hm1. injection Hm1 as <-.
  set (el := fold_left createDOMElement_attr attrs (document_createElement tag)).
  cbn [steady] in Hsteady.
  apply andb_prop in Hsteady as [[Huniq Hself]%andb_prop Hkids].
  rewrite forallb_app in Hkids, Htruthy.
  apply andb_prop in Hkids as [Hkeep _].
  apply andb_prop in Htruthy as [Htkeep Htextra].
  destruct (diff_loop_self_quiet keep Hkeep) as [Hquiet Hqlen].
  destruct (patchChildren_remove_run (length extra) (length keep) el
              (appendAll (keep ++ extra))) as (kids & Hrun & Hlen & Htake).
  exists (mkWorld (querySelector w) (<[c := DElement e [DElement el kids]]> (display w))
                  (<[c := VElem tag attrs keep]> (virtualTreeCache w)) (console w)),
         el, kids.
  split; [| split; [| split; [| split]]].
  - unfold mount. rewrite Hres, Hdisp, Hcache. cbn [truthy negb].
    rewrite diff_same_tag, (diffAttrs_self attrs Huniq Hself).
    rewrite <- diff_loop_diffChildren, diff_loop_app_self,
      (diff_loop_removed extra Htextra).
    rewrite patch_update_equation. cbn [childNodes lookup list_lookup].
    cbn [patchAttrs bind]. unfold patchChildren.
    rewrite patchChildren_from_app, (patchChildren_quiet_run _ 0 _ Hquiet).
    cbn [bind]. rewrite Hqlen. cbn [Nat.add]. fold el. rewrite Hrun. reflexivity.
  - cbn [display]. apply lookup_insert_eq.
  - rewrite Hlen, appendAll_app, length_app,
      (length_appendAll keep Htkeep), (length_appendAll extra Htextra).
    replace (length keep + length extra - length keep) with (length extra) by lia.
    pose proof (half_rest (length extra)). lia.
  - rewrite <- (length_appendAll keep Htkeep) at 1.
    rewrite <- (length_appendAll keep Htkeep) in Htake.
    rewrite Htake, appendAll_app. apply take_app_length.
  - apply createDOMElement_element.
Qed.

Lemma rerender_shrink_leaves_half_witness :
  steady (VElem "ul" [] ([VText "a"] ++ [VText "b"; VText "c"])) = true
  /\ exists w2,
       mount (Selector "#app") (VElem "ul" [] [VText "a"])
             (app_world {[ 0 := VElem "ul" [] [VText "a"; VText "b"; VText "c"] ]}
                [DElement (document_createElement "ul")
                   [DText (Lit "a"); DText (Lit "b"); DText (Lit "c")]])
       = Ok w2
       /\ exists el kids,
            display w2 !! 0
            = Some (DElement (document_createElement "div") [DElement el kids])
            /\ length kids = 2.
Proof.
  split; [reflexivity |].
  destruct (rerender_shrink_leaves_half (Selector "#app") "ul" []
              [VText "a"] [VText "b"; VText "c"]
              (app_world {[ 0 := VElem "ul" [] [VText "a"; VText "b"; VText "c"] ]}
                 [DElement (document_createElement "ul")
                    [DText (Lit "a"); DText (Lit "b"); DText (Lit "c")]])
              0 (document_createElement "div")
              (DElement (document_createElement "ul")
                 [DText (Lit "a"); DText (Lit "b"); DText (Lit "c")])
              ltac:(reflexivity) ltac:(reflexivity) ltac:(reflexivity)
              ltac:(reflexivity) ltac:(reflexivity) ltac:(reflexivity))
    as (w2 & el & kids & Hmount & Hdisp & Hlen & _).
  exists w2. split; [exact Hmount |]. exists el, kids.
  split; [exact Hdisp | exact Hlen].
Defined.

(** ** The patcher never unbinds a handler *)

Lemma handlers_of_bindEvent_state (e : Element) (ev event : string) (f : nat) :
  handlers_of e event `prefix_of` handlers_of (state_of (bindEvent e ev f)) event.
Proof.
  destruct (bindEvent e ev f) as [e' | err e'] eqn:Hrun; cbn [state_of].
  - rewrite (handlers_of_bindEvent _ _ _ event _ Hrun).
    destruct (String.eqb ev event) eqn:E; [| reflexivity].
    apply String.eqb_eq in E. subst event. apply prefix_app_r. reflexivity.
  - destruct (bindEvent_thrown _ _ _ _ _ Hrun) as (_ & Hreg & _).
    unfold handlers_of. rewrite Hreg. reflexivity.
Qed.

Lemma patchAttrs_step_handlers (e : Element) (cs : list dnode)
  (record : string * jsval) :
  exists e',
    state_of (patchAttrs_step (DElement e cs) record) = DElement e' cs
    /\ forall event, handlers_of e event `prefix_of` handlers_of e' event.
Proof.
  destruct record as [key value]. unfold patchAttrs_step.
  repeat match goal with
         | |- context [if ?b then _ else _] => destruct b
         end;
    try (destruct value as [p | f | r ps]);
    cbn [node_bindEvent node_removeAttribute node_setProperty node_assignStyle
         node_setAttribute state_of];
    try (eexists; (split; [reflexivity |]); intros event;
         first [reflexivity | destruct p; reflexivity]).
  exists (state_of (bindEvent e (toLowerCase (slice 2 key)) f)). split.
  - destruct (bindEvent e (toLowerCase (slice 2 key)) f); reflexivity.
  - intros event. apply handlers_of_bindEvent_state.
Qed.

(** X12. Applying attribute changes to an element never unbinds an event
    handler: whatever the change records are (a new function for an event
    key, the removal of an event key, anything else), and whether the call
    returns or throws, in the state it leaves the handlers each event had
    are still bound, in the same order and ahead of any handler added, and
    the children are as they were. *)
Theorem patchAttrs_keeps_handlers (records : list (string * jsval))
  (e : Element) (cs : list dnode) :
  exists e',
    state_of (patchAttrs (DElement e cs) records) = DElement e' cs
    /\ forall event, handlers_of e event `prefix_of` handlers_of e' event.
Proof.
  revert e. induction records as [| record records IH]; intros e.
  - exists e. split; reflexivity.
  - destruct (patchAttrs_step_handlers e cs record) as (e1 & Hstep & Hpre1).
    cbn [patchAttrs].
    destruct (patchAttrs_step (DElement e cs) record) as [n | err n];
      cbn [state_of] in Hstep; subst n; cbn [bind].
    + destruct (IH e1) as (e2 & Hrest & Hpre2).
      exists e2. split; [exact Hrest |].
      intros event. etransitivity; [apply Hpre1 | apply Hpre2].
    + exists e1. split; [reflexivity | exact Hpre1].
Qed.

(** A record that binds a handler under the name of a member of
    [Object.prototype] makes the call throw, and the records after it are
    not applied. *)
Lemma patchAttrs_inherited_event_throws :
  patchAttrs (DElement (document_createElement "div") [])
             [("onConstructor", JFun 7); ("id", JPrim (PStr "x"))]
  = Throw (TypeError "events[event].push is not a function")
          (DElement (mkElement "div" [] [] [] (Some []) []) []).
Proof. reflexivity. Qed.

(** ** Each attribute is patched at most once *)

Lemma unique_keys_NoDup (o : list (string * jsval)) :
  unique_keys o = true -> NoDup (obj_keys o).
Proof.
  induction o as [| [k v] o IH]; cbn [unique_keys obj_keys map fst].
  - intros _. apply NoDup_nil_2.
  - intros [Hfresh Hrest]%andb_prop. apply NoDup_cons. split; [| apply IH, Hrest].
    intros Hin. apply list_elem_of_In in Hin.
    rewrite (obj_has_keys o k Hin) in Hfresh. discriminate.
Qed.

Lemma NoDup_map_fst_filter {A : Type} (f : string * A -> bool)
  (o : list (string * A)) :
  NoDup (map fst o) -> NoDup (map fst (List.filter f o)).
Proof.
  induction o as [| kv o IH]; cbn [map List.filter]; [intros H; exact H |].
  intros [Hnotin Hrest]%NoDup_cons.
  destruct (f kv); cbn [map]; [| apply IH, Hrest].
  apply NoDup_cons. split; [| apply IH, Hrest].
  intros Hin. apply Hnotin.
  apply list_elem_of_In in Hin. apply list_elem_of_In.
  apply in_map_iff in Hin as (x & Hx & Hxin). apply in_map_iff.
  exists x. split; [exact Hx |]. apply filter_In in Hxin. tauto.
Qed.

Lemma NoDup_List_filter {A : Type} (f : A -> bool) (l : list A) :
  NoDup l -> NoDup (List.filter f l).
Proof.
  induction l as [| x l IH]; cbn [List.filter]; [intros H; exact H |].
  intros [Hnotin Hrest]%NoDup_cons.
  destruct (f x); [| apply IH, Hrest].
  apply NoDup_cons. split; [| apply IH, Hrest].
  intros Hin. apply Hnotin. apply list_elem_of_In in Hin.
  apply list_elem_of_In. apply filter_In in Hin. tauto.
Qed.

(** X13. For attribute maps with unique keys, no key occurs twice in
    the attribute-change list: a key is either changed or removed, once. *)
Theorem diffAttrs_keys_unique (oldAttrs newAttrs : list (string * jsval)) :
  unique_keys oldAttrs = true ->
  unique_keys newAttrs = true ->
  NoDup (map fst (diffAttrs (Some oldAttrs) (Some newAttrs))).
Proof.
  intros Ho Hn. rewrite diffAttrs_lists, map_app.
  rewrite map_map. cbn [fst]. rewrite map_id.
  apply NoDup_app. split; [| split].
  - apply NoDup_map_fst_filter, (unique_keys_NoDup newAttrs Hn).
  - intros k Hchanged Hremoved.
    apply list_elem_of_In in Hchanged. apply list_elem_of_In in Hremoved.
    apply filter_In in Hremoved as [_ Hnot].
    apply in_map_iff in Hchanged as ([k' v] & Hk & Hin). cbn in Hk. subst k'.
    apply filter_In in Hin as [Hin _]. unfold obj_in in Hnot.
    rewrite (obj_has_keys newAttrs k) in Hnot; [discriminate |].
    apply (in_map fst newAttrs (k, v)), Hin.
  - apply NoDup_List_filter, (unique_keys_NoDup oldAttrs Ho).
Qed.

Lemma diffAttrs_keys_unique_witness :
  unique_keys [("id", JPrim (PStr "x")); ("title", JPrim (PStr "t"))] = true
  /\ unique_keys [("title", JPrim (PStr "u")); ("lang", JPrim (PStr "en"))] = true
  /\ NoDup (map fst (diffAttrs
                       (Some [("id", JPrim (PStr "x")); ("title", JPrim (PStr "t"))])
                       (Some [("title", JPrim (PStr "u")); ("lang", JPrim (PStr "en"))]))).
Proof.
  split; [reflexivity |]. split; [reflexivity |].
  apply diffAttrs_keys_unique; reflexivity.
Defined.

(** ** A child that appears in an absent slot *)

Lemma diff_loop_app (pre olds news : list vnode) :
  diff_loop (pre ++ olds) (pre ++ news) = diff_loop pre pre ++ diff_loop olds news.
Proof.
  induction pre as [| p pre IH]; [reflexivity |].
  cbn [app diff_loop tl]. rewrite IH. reflexivity.
Qed.

Lemma appendAll_absent (o : vnode) (rest : list vnode) :
  absent o = true -> appendAll (o :: rest) = appendAll rest.
Proof.
  intros Habs. cbn [appendAll].
  rewrite (proj1 (absent_not_rendered o Habs)). reflexivity.
Qed.

(** X14. When a container shows exactly the display node of its cached
    description, a steady element, and the new description differs from
    it in one child slot only, which was absent and now holds a renderable
    node, the re-render returns after appending the new child behind all
    the existing children: the display has the other children first and
    the new child last, whereas a first render of the new description has
    it at its slot. *)
Theorem rerender_slot_filled_appends
  (tgt : target) (tag : string) (attrs : list (string * jsval))
  (pre rest : list vnode) (o n : vnode) (w : world) (c : nat) (e : Element)
  (m1 m_n : dnode) :
  resolve tgt w = Some c ->
  virtualTreeCache w !! c = Some (VElem tag attrs (pre ++ o :: rest)) ->
  display w !! c = Some (DElement e [m1]) ->
  createDOMElement (VElem tag attrs (pre ++ o :: rest)) = Some m1 ->
  steady (VElem tag attrs (pre ++ o :: rest)) = true ->
  absent o = true ->
  renderable n = true ->
  createDOMElement n = Some m_n ->
  exists w2 el,
    mount tgt (VElem tag attrs (pre ++ n :: rest)) w = Ok w2
    /\ display w2 !! c
       = Some (DElement e [DElement el (appendAll pre ++ appendAll rest ++ [m_n])])
    /\ createDOMElement (VElem tag attrs (pre ++ n :: rest))
       = Some (DElement el (appendAll pre ++ m_n :: appendAll rest)).
Proof.
  intros Hres Hcache Hdisp Hm1 Hsteady Habs _ Hmn.
  rewrite createDOMElement_element in Hm1. injection Hm1 as <-.
  set (el := fold_left createDOMElement_attr attrs (document_createElement tag)).
  cbn [steady] in Hsteady.
  apply andb_prop in Hsteady as [[Huniq Hself]%andb_prop Hkids].
  rewrite forallb_app in Hkids. cbn [forallb] in Hkids.
  apply andb_prop in Hkids as [Hpre [_ Hrest]%andb_prop].
  destruct (diff_loop_self_quiet pre Hpre) as [Hqpre Hlpre].
  destruct (diff_loop_self_quiet rest Hrest) as [Hqrest _].
  exists (mkWorld (querySelector w)
            (<[c := DElement e [DElement el (appendAll pre ++ appendAll rest ++ [m_n])]]>
               (display w))
            (<[c := VElem tag attrs (pre ++ n :: rest)]> (virtualTreeCache w))
            (console w)), el.
  split; [| split].
  - unfold mount. rewrite Hres, Hdisp, Hcache. cbn [truthy negb].
    rewrite diff_same_tag, (diffAttrs_self attrs Huniq Hself).
    rewrite <- diff_loop_diffChildren, diff_loop_app.
    cbn [diff_loop tl]. rewrite diff_equation.
    rewrite (proj2 (absent_not_rendered o Habs)). cbn [negb].
    rewrite patch_update_equation. cbn [childNodes lookup list_lookup].
    cbn [patchAttrs bind]. unfold patchChildren.
    rewrite patchChildren_from_app, (patchChildren_quiet_run _ 0 _ Hqpre).
    cbn [bind patchChildren_from patch patch_switch]. rewrite Hmn.
    cbn [appendChild bind].
    rewrite (patchChildren_quiet_run _ _ _ Hqrest). cbn [lift replaceChildAt].
    rewrite appendAll_app, (appendAll_absent o rest Habs), <- app_assoc.
    reflexivity.
  - cbn [display]. apply lookup_insert_eq.
  - rewrite createDOMElement_element, appendAll_app. cbn [appendAll].
    rewrite Hmn. reflexivity.
Qed.

Lemma rerender_slot_filled_appends_witness :
  steady (VElem "div" [] ([] ++ VPrim (PBool false) :: [VText "body"])) = true
  /\ renderable (VText "head") = true
  /\ exists w2,
       mount (Selector "#app") (VElem "div" [] [VText "head"; VText "body"])
             (app_world {[ 0 := VElem "div" [] [VPrim (PBool false); VText "body"] ]}
                [DElement (document_createElement "div") [DText (Lit "body")]])
       = Ok w2
       /\ display w2 !! 0
          = Some (DElement (document_createElement "div")
                    [DElement (document_createElement "div")
                       [DText (Lit "body"); DText (Lit "head")]]).
Proof.
  split; [reflexivity |]. split; [reflexivity |].
  destruct (rerender_slot_filled_appends (Selector "#app") "div" []
              [] [VText "body"] (VPrim (PBool false)) (VText "head")
              (app_world {[ 0 := VElem "div" [] [VPrim (PBool false); VText "body"] ]}
                 [DElement (document_createElement "div") [DText (Lit "body")]])
              0 (document_createElement "div")
              (DElement (document_createElement "div") [DText (Lit "body")])
              (DText (Lit "head"))
              ltac:(reflexivity) ltac:(reflexivity) ltac:(reflexivity)
              ltac:(reflexivity) ltac:(reflexivity) ltac:(reflexivity)
              ltac:(reflexivity) ltac:(reflexivity))
    as (w2 & el & Hmount & Hdisp & Hfirst).
  exists w2. split; [exact Hmount |].
  rewrite Hdisp. injection Hfirst as <-. reflexivity.
Defined.

(* ===================================================================== *)
(** * Properties of router.js *)
(* ===================================================================== *)

(** ** Splitting and joining *)

Lemma split_cons (sep : ascii) (s : string) :
  exists part parts, Router.split sep s = part :: parts.
Proof.
  destruct s as [| c s]; cbn [Router.split]; [eauto |].
  destruct (Ascii.eqb c sep); [eauto |].
  destruct (Router.split sep s); eauto.
Qed.

Lemma split_app_sep (sep : ascii) (a b : string) :
  Router.split sep (a ++ String sep b) = Router.split sep a ++ Router.split sep b.
Proof.
  induction a as [| c a IH].
  - change ("" ++ String sep b)%string with (String sep b).
    cbn [Router.split app]. rewrite Ascii.eqb_refl. reflexivity.
  - change (String c a ++ String sep b)%string with (String c (a ++ String sep b)).
    cbn [Router.split]. rewrite IH.
    destruct (Ascii.eqb c sep); [reflexivity |].
    destruct (split_cons sep a) as (part & parts & ->). reflexivity.
Qed.

Lemma split_free (sep : ascii) (s : string) :
  Router.free_of sep s = true -> Router.split sep s = [s].
Proof.
  induction s as [| c s IH]; [reflexivity |].
  cbn [Router.free_of Router.split]. intros [Hc Hs]%andb_prop.
  apply negb_true_iff in Hc. rewrite Hc, (IH Hs). reflexivity.
Qed.

Lemma split_parts_free (sep : ascii) (s : string) :
  forallb (Router.free_of sep) (Router.split sep s) = true.
Proof.
  induction s as [| c s IH]; [reflexivity |].
  cbn [Router.split]. destruct (Ascii.eqb c sep) eqn:E; [exact IH |].
  destruct (Router.split sep s) as [| part parts]; cbn [forallb Router.free_of] in *.
  - rewrite E. reflexivity.
  - rewrite E. exact IH.
Qed.

Lemma split_join (sep : ascii) (parts : list string) :
  parts <> [] ->
  forallb (Router.free_of sep) parts = true ->
  Router.split sep (Router.join sep parts) = parts.
Proof.
  induction parts as [| part parts IH]; [congruence |].
  intros _. cbn [forallb]. intros [Hp Hrest]%andb_prop.
  destruct parts as [| part' parts'].
  - apply split_free, Hp.
  - change (Router.join sep (part :: part' :: parts'))
      with (part ++ String sep (Router.join sep (part' :: parts')))%string.
    rewrite split_app_sep, (split_free sep part Hp), IH by (congruence || exact Hrest).
    reflexivity.
Qed.

Lemma join_split (sep : ascii) (s : string) :
  Router.join sep (Router.split sep s) = s.
Proof.
  induction s as [| c s IH]; [reflexivity |].
  cbn [Router.split].
  destruct (split_cons sep s) as (part & parts & Hs). rewrite Hs in *.
  destruct (Ascii.eqb c sep) eqn:E.
  - apply Ascii.eqb_eq in E. subst c.
    change (Router.join sep (EmptyString :: part :: parts))
      with (String sep (Router.join sep (part :: parts))).
    rewrite IH. reflexivity.
  - destruct parts as [| part' parts'].
    + cbn [Router.join] in *. rewrite IH. reflexivity.
    + change (Router.join sep (String c part :: part' :: parts'))
        with (String c (part ++ String sep (Router.join sep (part' :: parts'))))%string.
      change (Router.join sep (part :: part' :: parts'))
        with (part ++ String sep (Router.join sep (part' :: parts')))%string in IH.
      rewrite IH. reflexivity.
Qed.

(** ** A pattern without parameters *)

Lemma match_parts_static (ps qs : list string) (params : list (string * string)) :
  forallb (fun part => negb (Router.is_param part)) ps = true ->
  length ps = length qs ->
  Router.match_parts ps qs params
  = if bool_decide (ps = qs) then Some params else None.
Proof.
  revert qs. induction ps as [| p ps IH]; intros [| q qs]; cbn [length];
    try discriminate.
  - intros _ _. reflexivity.
  - cbn [forallb]. intros [Hp Hrest]%andb_prop Hlen.
    apply negb_true_iff in Hp. unfold Router.is_param in Hp.
    cbn [Router.match_parts]. rewrite Hp.
    destruct (String.eqb p q) eqn:E; cbn [negb].
    + apply String.eqb_eq in E. subst q. rewrite (IH qs Hrest) by lia.
      destruct (bool_decide (ps = qs)) eqn:D.
      * apply bool_decide_eq_true in D. subst qs.
        rewrite bool_decide_eq_true_2 by reflexivity. reflexivity.
      * apply bool_decide_eq_false in D.
        rewrite bool_decide_eq_false_2 by congruence. reflexivity.
    + apply String.eqb_neq in E.
      rewrite bool_decide_eq_false_2 by congruence. reflexivity.
Qed.

(** X15. A route pattern without parameter segments matches exactly one
    path, itself, and binds no parameter. *)
Theorem matchRoute_static_exact (routePattern actualPath : string) :
  forallb (fun part => negb (Router.is_param part))
          (Router.split "/" routePattern) = true ->
  Router.matchRoute routePattern actualPath
  = if String.eqb routePattern actualPath then Some [] else None.
Proof.
  intros Hstatic. unfold Router.matchRoute.
  destruct (String.eqb routePattern actualPath) eqn:E.
  - apply String.eqb_eq in E. subst actualPath. rewrite Nat.eqb_refl. cbn [negb].
    rewrite (match_parts_static _ _ [] Hstatic eq_refl).
    rewrite bool_decide_eq_true_2 by reflexivity. reflexivity.
  - apply String.eqb_neq in E.
    destruct (Nat.eqb _ _) eqn:Hlen; cbn [negb]; [| reflexivity].
    apply Nat.eqb_eq in Hlen.
    rewrite (match_parts_static _ _ [] Hstatic Hlen).
    rewrite bool_decide_eq_false_2; [reflexivity |].
    intros Heq. apply E.
    rewrite <- (join_split "/" routePattern), <- (join_split "/" actualPath), Heq.
    reflexivity.
Qed.

Lemma matchRoute_static_exact_witness :
  forallb (fun part => negb (Router.is_param part))
          (Router.split "/" "/users/new") = true
  /\ Router.matchRoute "/users/new" "/users/new" = Some []
  /\ Router.matchRoute "/users/new" "/users/7" = None.
Proof.
  split; [reflexivity |].
  split; [apply (matchRoute_static_exact "/users/new" "/users/new" eq_refl) |
          apply (matchRoute_static_exact "/users/new" "/users/7" eq_refl)].
Defined.

(** ** What a match binds *)

Lemma match_parts_sound (ps qs : list string) (acc res : list (string * string)) :
  forallb (Router.free_of "/") qs = true ->
  Router.match_parts ps qs acc = Some res ->
  forall k v,
    obj_get k res = Some v ->
    obj_get k acc = Some v
    \/ (Router.free_of "/" v = true /\ In k (Router.param_names ps)).
Proof.
  revert qs acc. induction ps as [| p ps IH]; intros [| q qs] acc;
    cbn [Router.match_parts forallb];
    try (intros _ [= <-] k v Hk; left; exact Hk).
  intros [Hq Hqs]%andb_prop.
  unfold Router.param_names. cbn [List.filter]. unfold Router.is_param.
  destruct (startsWith ":" p) eqn:Hp.
  - intros Hres k v Hk.
    destruct (IH qs _ Hqs Hres k v Hk) as [Hacc | [Hfree Hin]].
    + destruct (String.eqb (slice 1 p) k) eqn:E.
      * apply String.eqb_eq in E. subst k.
        destruct (obj_get_put_cases acc (slice 1 p) q) as [Hput | Hput];
          rewrite Hput in Hacc; [| left; exact Hacc].
        injection Hacc as <-. right. split; [exact Hq |]. left. reflexivity.
      * apply String.eqb_neq in E. rewrite obj_get_put_ne in Hacc by exact E.
        left. exact Hacc.
    + right. split; [exact Hfree |]. right. exact Hin.
  - destruct (String.eqb p q); cbn [negb]; [| discriminate].
    intros Hres k v Hk. apply (IH qs acc Hqs Hres k v Hk).
Qed.

(** X16. When a pattern matches a path, the two have the same number of
    segments, every key of the parameters is the name of a parameter
    segment of the pattern, and no parameter value contains a slash. *)
Theorem matchRoute_sound
  (routePattern actualPath : string) (params : list (string * string)) :
  Router.matchRoute routePattern actualPath = Some params ->
  length (Router.split "/" routePattern) = length (Router.split "/" actualPath)
  /\ forall k v,
       obj_get k params = Some v ->
       Router.free_of "/" v = true
       /\ In k (Router.param_names (Router.split "/" routePattern)).
Proof.
  unfold Router.matchRoute.
  destruct (Nat.eqb _ _) eqn:Hlen; cbn [negb]; [| discriminate].
  intros Hres. split; [apply Nat.eqb_eq, Hlen |].
  intros k v Hk.
  destruct (match_parts_sound _ _ [] params (split_parts_free "/" actualPath)
              Hres k v Hk) as [Hnil | H]; [discriminate | exact H].
Qed.

Lemma matchRoute_sound_witness :
  Router.matchRoute "/user/:id" "/user/123" = Some [("id", "123")]
  /\ Router.free_of "/" "123" = true.
Proof.
  split; [reflexivity |].
  destruct (matchRoute_sound "/user/:id" "/user/123" [("id", "123")] eq_refl)
    as [_ Hvalues].
  apply (Hvalues "id" "123"). reflexivity.
Defined.

Lemma forallb_after_map {A B : Type} (f : A -> B) (p : B -> bool) (l : list A) :
  forallb p (map f l) = forallb (fun x => p (f x)) l.
Proof.
  induction l as [| x l IH]; [reflexivity |]. cbn [map forallb]. rewrite IH.
  reflexivity.
Qed.

Lemma match_parts_fill (values : list (string * string)) (parts : list string)
  (acc : list (string * string)) :
  obj_get "__proto__" acc = None ->
  exists res,
    Router.match_parts parts (map (Router.fill values) parts) acc = Some res
    /\ forall k,
         obj_get k res
         = if String.eqb k "__proto__" then None
           else if existsb (String.eqb k) (Router.param_names parts)
           then Some (match obj_get k values with
                      | Some v => v | None => EmptyString end)
           else obj_get k acc.
Proof.
  revert acc. induction parts as [| p parts IH]; intros acc Hacc.
  - exists acc. split; [reflexivity |]. intros k.
    cbn [existsb Router.param_names List.filter map].
    destruct (String.eqb k "__proto__") eqn:E; [| reflexivity].
    apply String.eqb_eq in E. subst k. exact Hacc.
  - cbn [map Router.match_parts].
    assert (Hfill : Router.fill values p
                    = if startsWith ":" p
                      then match obj_get (slice 1 p) values with
                           | Some v => v | None => EmptyString end
                      else p) by reflexivity.
    assert (Hnames : Router.param_names (p :: parts)
                     = if startsWith ":" p
                       then slice 1 p :: Router.param_names parts
                       else Router.param_names parts).
    { unfold Router.param_names, Router.is_param. cbn [List.filter].
      destruct (startsWith ":" p); reflexivity. }
    rewrite Hnames, Hfill. destruct (startsWith ":" p) eqn:Hp.
    + destruct (IH (obj_put (slice 1 p)
                      (match obj_get (slice 1 p) values with
                       | Some v => v | None => EmptyString end) acc)
                   (obj_get_put_proto acc _ _ Hacc))
        as (res & Hres & Hget).
      exists res. split; [exact Hres |].
      intros k. rewrite Hget. cbn [existsb].
      destruct (String.eqb k "__proto__") eqn:Eproto; [reflexivity |].
      destruct (existsb (String.eqb k) (Router.param_names parts));
        [rewrite orb_true_r; reflexivity |].
      rewrite orb_false_r. destruct (String.eqb k (slice 1 p)) eqn:E.
      * apply String.eqb_eq in E. subst k.
        apply obj_get_put_named, String.eqb_neq, Eproto.
      * apply String.eqb_neq in E. apply obj_get_put_ne. congruence.
    + rewrite String.eqb_refl. cbn [negb]. apply IH, Hacc.
Qed.

(** X17. Take a pattern and, for each parameter name, one value without
    a slash. The path written from the pattern, each parameter segment
    replaced by the value for its name and every other segment kept, is
    matched by the pattern; the match binds every parameter name other
    than [__proto__] to its value, and binds nothing under [__proto__]. *)
Theorem matchRoute_filled_pattern
  (routePattern : string) (values : list (string * string)) :
  forallb (fun part => Router.free_of "/" (Router.fill values part))
          (Router.split "/" routePattern) = true ->
  exists params,
    Router.matchRoute routePattern
      (Router.join "/" (map (Router.fill values) (Router.split "/" routePattern)))
    = Some params
    /\ (forall part,
          In part (Router.split "/" routePattern) ->
          Router.is_param part = true ->
          slice 1 part <> "__proto__" ->
          obj_get (slice 1 part) params = Some (Router.fill values part))
    /\ obj_get "__proto__" params = None.
Proof.
  intros Hfree. unfold Router.matchRoute.
  set (parts := Router.split "/" routePattern) in *.
  assert (Hsplit : Router.split "/" (Router.join "/" (map (Router.fill values) parts))
                   = map (Router.fill values) parts).
  { apply split_join.
    - destruct (split_cons "/" routePattern) as (p & ps & Hp).
      unfold parts. rewrite Hp. discriminate.
    - rewrite forallb_after_map. exact Hfree. }
  rewrite Hsplit, length_map, Nat.eqb_refl. cbn [negb].
  destruct (match_parts_fill values parts [] eq_refl) as (res & Hres & Hget).
  exists res. split; [exact Hres |]. split.
  - intros part Hin Hparam Hname. rewrite Hget.
    apply String.eqb_neq in Hname. rewrite Hname.
    assert (Hex : existsb (String.eqb (slice 1 part)) (Router.param_names parts)
                  = true).
    { apply existsb_exists. exists (slice 1 part). split; [| apply String.eqb_refl].
      unfold Router.param_names. apply in_map. apply filter_In. tauto. }
    rewrite Hex. unfold Router.fill. rewrite Hparam. reflexivity.
  - rewrite Hget. reflexivity.
Qed.

Lemma matchRoute_filled_pattern_witness :
  forallb (fun part => Router.free_of "/"
                         (Router.fill [("id", "42"); ("tab", "posts")] part))
          (Router.split "/" "/user/:id/:tab") = true
  /\ exists params,
       Router.matchRoute "/user/:id/:tab" "/user/42/posts" = Some params
       /\ obj_get "tab" params = Some "posts".
Proof.
  split; [reflexivity |].
  destruct (matchRoute_filled_pattern "/user/:id/:tab"
              [("id", "42"); ("tab", "posts")] eq_refl) as (params & Hm & Hget & _).
  exists params. split; [exact Hm |].
  apply (Hget ":tab"); [| reflexivity | discriminate].
  cbn. tauto.
Defined.

(** What the statement keeps out: a parameter named [__proto__] binds
    nothing, and of two parameters with one name the later segment is the
    one bound. *)
Lemma matchRoute_unbound_and_rebound :
  Router.matchRoute "/u/:__proto__" "/u/42" = Some []
  /\ Router.matchRoute "/:id/:id" "/1/2" = Some [("id", "2")].
Proof. split; reflexivity. Qed.

(** ** Which route handles a change *)

Lemma first_match_skip (before after : list (string * nat)) (path : string) :
  (forall entry, In entry before -> Router.matchRoute (fst entry) path = None) ->
  Router.first_match (before ++ after) path = Router.first_match after path.
Proof.
  induction before as [| [p h] before IH]; intros Hnone; [reflexivity |].
  cbn [app Router.first_match].
  pose proof (Hnone (p, h) (or_introl eq_refl)) as Hp. cbn [fst] in Hp.
  rewrite Hp. apply IH. intros entry Hin. apply Hnone. right. exact Hin.
Qed.

(** A pattern that is not an array index, is not [__proto__] and is not
    registered yet goes behind the routes there are; a pattern that is
    registered keeps its place and gets the new handler. *)
Lemma addRoute_order (path : string) (handler : nat) (st : Router.state) :
  (obj_has path (Router.routes st) = false ->
   array_index path = None -> path <> "__proto__" ->
   Router.routes (Router.addRoute path handler st)
   = Router.routes st ++ [(path, handler)])
  /\ (obj_has path (Router.routes st) = true ->
      Router.routes (Router.addRoute path handler st)
      = obj_set path handler (Router.routes st)).
Proof.
  cbn [Router.addRoute Router.routes]. split.
  - intros Hnew Hidx Hname. rewrite obj_put_define by exact Hname.
    apply obj_define_fresh; assumption.
  - intros Hold. unfold obj_put, obj_define. rewrite Hold. reflexivity.
Qed.



(* ===================================================================== *)
(** * Properties of state.js *)
(* ===================================================================== *)

(** ** Merging objects *)

Lemma obj_get_spread {V : Type} (src target : list (string * V)) (k : string) :
  NoDup (obj_keys src) ->
  obj_get k (obj_spread target src)
  = match obj_get k src with
    | Some v => Some v
    | None => obj_get k target
    end.
Proof.
  unfold obj_spread. revert target.
  induction src as [| [k0 v0] src IH]; intros target; [reflexivity |].
  cbn [obj_keys map fst]. intros [Hfresh Hrest]%NoDup_cons.
  cbn [fold_left fst snd obj_get]. rewrite (IH _ Hrest).
  destruct (String.eqb k0 k) eqn:E.
  - apply String.eqb_eq in E. subst k0.
    rewrite obj_get_not_key
      by (intros Hin; apply Hfresh, list_elem_of_In, Hin).
    apply obj_get_define_eq.
  - apply String.eqb_neq in E.
    destruct (obj_get k src); [reflexivity |]. apply obj_get_define_ne, E.
Qed.

Lemma NoDup_obj_spread {V : Type} (src target : list (string * V)) :
  NoDup (obj_keys target) -> NoDup (obj_keys (obj_spread target src)).
Proof.
  unfold obj_spread. revert target.
  induction src as [| [k0 v0] src IH]; intros target Hnd; [exact Hnd |].
  cbn [fold_left fst snd]. apply IH, NoDup_obj_define, Hnd.
Qed.



(** ** Combined reducers *)

Lemma combine_fold {Action : Type}
  (reducers : list (string * (jsval -> Action -> jsval)))
  (state acc : list (string * jsval)) (changed : bool) (action : Action) :
  NoDup (map fst reducers) ->
  ~ In "__proto__" (map fst reducers) ->
  NoDup (obj_keys acc) ->
  exists newState,
    fold_left
      (fun acc entry =>
         let '(newState, hasChanged) := acc in
         let '(key, reducer) := entry in
         let previousStateForKey := obj_read key state in
         let nextStateForKey := reducer previousStateForKey action in
         (obj_put key nextStateForKey newState,
          hasChanged || negb (strict_eq nextStateForKey previousStateForKey)))
      reducers (acc, changed)
    = (newState,
       changed
       || existsb (fun entry =>
                     negb (strict_eq (snd entry (obj_read (fst entry) state) action)
                                     (obj_read (fst entry) state)))
                  reducers)
    /\ NoDup (obj_keys newState)
    /\ forall k,
         obj_get k newState
         = match obj_get k reducers with
           | Some reducer => Some (reducer (obj_read k state) action)
           | None => obj_get k acc
           end.
Proof.
  revert acc changed. induction reducers as [| [k0 f] reducers IH];
    intros acc changed Hnd Hproto Hacc.
  - exists acc. cbn [fold_left existsb obj_get]. rewrite orb_false_r.
    split; [reflexivity |]. split; [exact Hacc | reflexivity].
  - cbn [map fst] in Hnd, Hproto. apply NoDup_cons in Hnd as [Hfresh Hnd].
    assert (Hk0 : k0 <> "__proto__") by (intros ->; apply Hproto; left; reflexivity).
    destruct (IH (obj_put k0 (f (obj_read k0 state) action) acc)
                 (changed
                  || negb (strict_eq (f (obj_read k0 state) action)
                                     (obj_read k0 state)))
                 Hnd (fun H => Hproto (or_intror H))
                 (NoDup_obj_put acc _ _ Hacc))
      as (newState & Hfold & Hkeys & Hget).
    exists newState. cbn [fold_left existsb fst snd].
    split; [| split; [exact Hkeys |]].
    + lazy beta iota zeta in Hfold |- *. rewrite Hfold, orb_assoc. reflexivity.
    + intros k. rewrite Hget. cbn [obj_get].
      destruct (String.eqb k0 k) eqn:E.
      * apply String.eqb_eq in E. subst k0.
        rewrite obj_get_not_key
          by (intros Hin; apply Hfresh, list_elem_of_In, Hin).
        apply obj_get_put_named, Hk0.
      * apply String.eqb_neq in E.
        destruct (obj_get k reducers); [reflexivity |].
        apply obj_get_put_ne, E.
Qed.

(** X20. A combined reducer whose reducers have distinct keys, none of
    them [__proto__], gives each reducer the slice [state[key]] as a plain
    object reads it: an own property, else the member of
    [Object.prototype] of that name, else [undefined]. When no reducer
    returns a value that differs by [!==] from its slice, it returns the
    state it was given, keys without a reducer included. When some reducer
    does, it returns a new object whose own properties are exactly the
    keys of the reducers, each with what its reducer returned, so that
    keys of the state without a reducer are dropped. *)
Theorem combineReducers_same_or_rebuilt {Action : Type}
  (reducers : list (string * (jsval -> Action -> jsval)))
  (state : list (string * jsval)) (action : Action) :
  NoDup (map fst reducers) ->
  ~ In "__proto__" (map fst reducers) ->
  (existsb (fun entry =>
              negb (strict_eq (snd entry (obj_read (fst entry) state) action)
                              (obj_read (fst entry) state)))
           reducers = false ->
   State.combineReducers reducers (Some state) action = state)
  /\ (existsb (fun entry =>
                 negb (strict_eq (snd entry (obj_read (fst entry) state) action)
                                 (obj_read (fst entry) state)))
              reducers = true ->
      NoDup (obj_keys (State.combineReducers reducers (Some state) action))
      /\ forall k,
           obj_get k (State.combineReducers reducers (Some state) action)
           = match obj_get k reducers with
             | Some reducer => Some (reducer (obj_read k state) action)
             | None => None
             end).
Proof.
  intros Hnd Hproto. unfold State.combineReducers.
  destruct (combine_fold reducers state [] false action Hnd Hproto (NoDup_nil_2))
    as (newState & Hfold & Hkeys & Hget).
  lazy beta iota zeta in Hfold |- *. rewrite Hfold. cbn [orb].
  split; intros Hchanged; rewrite Hchanged; [reflexivity |].
  split; [exact Hkeys | exact Hget].
Qed.

Lemma combineReducers_same_or_rebuilt_witness :
  NoDup (map fst [("n", fun (s : jsval) (a : bool) =>
                          if a then JPrim (PStr "changed") else s)])
  /\ ~ In "__proto__"
         (map fst [("n", fun (s : jsval) (a : bool) =>
                           if a then JPrim (PStr "changed") else s)])
  /\ State.combineReducers
       [("n", fun (s : jsval) (a : bool) => if a then JPrim (PStr "changed") else s)]
       (Some [("n", JPrim (PStr "x")); ("extra", JPrim (PStr "kept"))]) false
     = [("n", JPrim (PStr "x")); ("extra", JPrim (PStr "kept"))]
  /\ obj_get "extra"
       (State.combineReducers
          [("n", fun (s : jsval) (a : bool) =>
                   if a then JPrim (PStr "changed") else s)]
          (Some [("n", JPrim (PStr "x")); ("extra", JPrim (PStr "kept"))]) true)
     = None.
Proof.
  assert (H : NoDup (map fst [("n", fun (s : jsval) (a : bool) =>
                                     if a then JPrim (PStr "changed") else s)]))
    by apply NoDup_singleton.
  assert (Hp : ~ In "__proto__"
                 (map fst [("n", fun (s : jsval) (a : bool) =>
                                   if a then JPrim (PStr "changed") else s)]))
    by (intros [Heq | []]; discriminate).
  split; [exact H |]. split; [exact Hp |]. split.
  - apply (proj1 (combineReducers_same_or_rebuilt _
                    [("n", JPrim (PStr "x")); ("extra", JPrim (PStr "kept"))]
                    false H Hp)).
    reflexivity.
  - destruct (proj2 (combineReducers_same_or_rebuilt _
                       [("n", JPrim (PStr "x")); ("extra", JPrim (PStr "kept"))]
                       true H Hp) eq_refl) as [_ Hget].
    rewrite (Hget "extra"). reflexivity.
Defined.

(** A reducer under the name of a member of [Object.prototype] is given
    that member when the state does not own the key: from the state [{}]
    the reducer [s => s === undefined ? "init" : s] under [constructor]
    gets the inherited [Object] and returns it, so nothing changes. *)
Lemma combineReducers_inherited_slice :
  State.combineReducers
    [("constructor",
      fun (s : jsval) (_ : unit) =>
        if strict_eq s undefined then JPrim (PStr "init") else s)]
    (Some []) tt
  = [].
Proof. reflexivity. Qed.

(** ** Subscribing to a store *)


